(** * Signature Injection Engine: coordinate transformation, aspect fitting,
      field validation and the hash-chain audit log.

    The development embeds the JavaScript sources
    - [frontend/src/utils/CoordinateTransformer.js],
    - [backend/utils/pdfUtils.js],
    - [backend/routes/fields.js], [backend/routes/documents.js] and
      [backend/routes/signPdf.js]
    and states the properties of the design document about them. *)

From Stdlib Require Import ZArith QArith Qminmax Qfield Lia Lqa Bool List.
From Stdlib Require Import Qabs Qpower.
From Stdlib Require Import Ascii String.
From Stdlib.Strings Require Import Byte.
From Stdlib Require Import Uint63 Floats.
Import ListNotations.

Set Warnings "-inexact-float".

(** ** JavaScript numbers

    The numeric code of the repository uses [+ - * /], [Math.min], [Math.max]
    and the comparisons [<] and [>] only.  It is written once, over the
    interface [JsNumber], and read in two arithmetics:
    - [float], IEEE 754 binary64, which is what the JavaScript engine runs;
    - [Q], exact rational arithmetic, which rounds nothing and never
      overflows: the reference that the binary64 results are measured
      against, and the arithmetic of the small test platform [Toy]. *)

Declare Scope js_scope.
Delimit Scope js_scope with js.

Class JsNumber (N : Type) : Type := {
  lit : Q -> N;                 (* a numeric literal of the source *)
  js_add : N -> N -> N;
  js_sub : N -> N -> N;
  js_mul : N -> N -> N;
  js_div : N -> N -> N;
  Math_min : N -> N -> N;
  Math_max : N -> N -> N;
  js_lt : N -> N -> bool;
  js_gt : N -> N -> bool;
  js_le : N -> N -> bool;
  js_ge : N -> N -> bool
}.

Infix "+" := js_add : js_scope.
Infix "-" := js_sub : js_scope.
Infix "*" := js_mul : js_scope.
Infix "/" := js_div : js_scope.
Infix "<?" := js_lt : js_scope.
Infix ">?" := js_gt (at level 70) : js_scope.
Infix "<=?" := js_le : js_scope.
Infix ">=?" := js_ge (at level 70) : js_scope.

(** *** Exact rationals *)

Definition Qgtb (a b : Q) : bool :=
  match a ?= b with Gt => true | _ => false end.

Definition Qltb (a b : Q) : bool :=
  match a ?= b with Lt => true | _ => false end.

#[export] Instance Q_number : JsNumber Q := {|
  lit := fun q => q;
  js_add := Qplus;
  js_sub := Qminus;
  js_mul := Qmult;
  js_div := Qdiv;
  Math_min := Qmin;
  Math_max := Qmax;
  js_lt := Qltb;
  js_gt := Qgtb;
  js_le := Qle_bool;
  js_ge := fun a b => Qle_bool b a
|}.

(** *** IEEE 754 binary64

    [Math.min] and [Math.max] follow ECMA-262: the result is NaN as soon as
    one argument is NaN, and [+0] counts as larger than [-0]. *)

Definition is_neg_zero (f : float) : bool :=
  (PrimFloat.eqb f 0 && PrimFloat.ltb (1 / f) 0)%float.

Definition float_min (a b : float) : float :=
  if PrimFloat.is_nan a || PrimFloat.is_nan b then PrimFloat.nan
  else if PrimFloat.ltb a b then a
  else if PrimFloat.ltb b a then b
  else if is_neg_zero a then a else b.

Definition float_max (a b : float) : float :=
  if PrimFloat.is_nan a || PrimFloat.is_nan b then PrimFloat.nan
  else if PrimFloat.ltb a b then b
  else if PrimFloat.ltb b a then a
  else if is_neg_zero a then b else a.

Definition float_of_Z (z : Z) : float :=
  match z with
  | Z0 => PrimFloat.zero
  | Zpos _ => PrimFloat.of_uint63 (Uint63.of_Z z)
  | Zneg p => PrimFloat.opp (PrimFloat.of_uint63 (Uint63.of_Z (Zpos p)))
  end.

(** A decimal literal [n/d] denotes the double nearest to it, which is what
    the correctly rounded division of [n] by [d] returns. *)
Definition float_of_Q (q : Q) : float :=
  PrimFloat.div (float_of_Z (Qnum q)) (float_of_Z (Zpos (Qden q))).

#[export] Instance float_number : JsNumber float := {|
  lit := float_of_Q;
  js_add := PrimFloat.add;
  js_sub := PrimFloat.sub;
  js_mul := PrimFloat.mul;
  js_div := PrimFloat.div;
  Math_min := float_min;
  Math_max := float_max;
  js_lt := PrimFloat.ltb;
  js_gt := fun a b => PrimFloat.ltb b a;
  js_le := PrimFloat.leb;
  js_ge := fun a b => PrimFloat.leb b a
|}.

(** A component that is NaN or infinite. *)
Definition not_finite (f : float) : bool :=
  PrimFloat.is_nan f || PrimFloat.is_infinity f.

(** *** The numbers that binary64 values stand for

    Rounding errors are measured in [Q]: a finite value with sign [s],
    mantissa [m] and exponent [e] stands for [(-1)^s * m * 2^e]. *)

Module Binary64.

(** [2 ^ e], for an exponent of either sign. *)
Definition pow2 (e : Z) : Q := Qpower 2 e.

Definition SF2Q (f : spec_float) : Q :=
  match f with
  | S754_finite s m e => inject_Z (cond_Zopp s (Zpos m)) * pow2 e
  | _ => 0
  end.

(** The number a finite value stands for; 0 for NaN and the infinities. *)
Definition toQ (f : float) : Q := SF2Q (Prim2SF f).

(** A normal number: finite, not zero, with a full mantissa of 53 bits.
    The result of an operation that overflowed (an infinity) or
    underflowed (a subnormal number or a zero) is not normal. *)
Definition normal_number (f : float) : bool :=
  match classify f with
  | PNormal | NNormal => true
  | _ => false
  end.

Definition zero_number (f : float) : bool :=
  match classify f with
  | PZero | NZero => true
  | _ => false
  end.

Definition finite_number (f : float) : bool :=
  match classify f with
  | NaN | PInf | NInf => false
  | _ => true
  end.

(** Where [V] lies between the integers [m] and [m + 1]. *)
Definition located (m : Z) (l : location) (V : Q) : Prop :=
  match l with
  | loc_Exact => V == inject_Z m
  | loc_Inexact Lt => inject_Z m < V /\ V < inject_Z m + (1#2)
  | loc_Inexact Eq => V == inject_Z m + (1#2)
  | loc_Inexact Gt => inject_Z m + (1#2) < V /\ V < inject_Z m + 1
  end.

(** [2 ^ -52], the distance from 1 to the next number of the format: a
    normal result of one operation differs from the exact result by at
    most [epsilon] times its own magnitude. *)
Definition epsilon : Q := 1 # 4503599627370496.

(** The bound for two operations in a row: [(1 + epsilon)^2 - 1]. *)
Definition epsilon2 : Q := 2 * epsilon + epsilon * epsilon.

End Binary64.

(** ** Data model *)

(** The object [{ xPercent, yPercent, widthPercent, heightPercent }]. *)
Record NormalizedPosition (N : Type) : Type := mkPosition {
  xPercent : N;
  yPercent : N;
  widthPercent : N;
  heightPercent : N
}.
Arguments mkPosition {N}.
Arguments xPercent {N}.
Arguments yPercent {N}.
Arguments widthPercent {N}.
Arguments heightPercent {N}.

(** The object [{ x, y, width, height }]: browser pixels in the frontend,
    PDF points in the backend. *)
Record Rect (N : Type) : Type := mkRect {
  x : N;
  y : N;
  width : N;
  height : N
}.
Arguments mkRect {N}.
Arguments x {N}.
Arguments y {N}.
Arguments width {N}.
Arguments height {N}.

(** The object [{ width, height, offsetX, offsetY }] of [containImageInBox]. *)
Record Fit (N : Type) : Type := mkFit {
  fitWidth : N;
  fitHeight : N;
  offsetX : N;
  offsetY : N
}.
Arguments mkFit {N}.
Arguments fitWidth {N}.
Arguments fitHeight {N}.
Arguments offsetX {N}.
Arguments offsetY {N}.

(** *** Equality of records of rationals, component by component *)

Definition position_eq (p q : NormalizedPosition Q) : Prop :=
  xPercent p == xPercent q /\ yPercent p == yPercent q /\
  widthPercent p == widthPercent q /\ heightPercent p == heightPercent q.

Definition rect_eq (r s : Rect Q) : Prop :=
  x r == x s /\ y r == y s /\ width r == width s /\ height r == height s.

(** Each of the four percentages lies in [0, 1]. *)
Definition percentages_in_range (p : NormalizedPosition Q) : Prop :=
  (0 <= xPercent p <= 1) /\ (0 <= yPercent p <= 1) /\
  (0 <= widthPercent p <= 1) /\ (0 <= heightPercent p <= 1).

(** ** frontend/src/utils/CoordinateTransformer.js *)

Module CoordinateTransformer.
Section Generic.
Context {N : Type} `{JsNumber N}.
Local Open Scope js_scope.

Definition browserToNormalized
      (browserX browserY browserWidth browserHeight
       containerWidth containerHeight : N) : NormalizedPosition N :=
    {| xPercent := browserX / containerWidth;
       yPercent := browserY / containerHeight;
       widthPercent := browserWidth / containerWidth;
       heightPercent := browserHeight / containerHeight |}.

Definition normalizedToBrowser
      (normalized : NormalizedPosition N)
      (containerWidth containerHeight : N) : Rect N :=
    {| x := xPercent normalized * containerWidth;
       y := yPercent normalized * containerHeight;
       width := widthPercent normalized * containerWidth;
       height := heightPercent normalized * containerHeight |}.

Definition clampPosition (position : NormalizedPosition N)
      : NormalizedPosition N :=
    {| xPercent :=
         Math_max (lit 0)
           (Math_min (xPercent position) (lit 1 - widthPercent position));
       yPercent :=
         Math_max (lit 0)
           (Math_min (yPercent position) (lit 1 - heightPercent position));
       widthPercent :=
         Math_min (widthPercent position) (lit 1 - xPercent position);
       heightPercent :=
         Math_min (heightPercent position) (lit 1 - yPercent position) |}.
End Generic.
End CoordinateTransformer.

(** ** backend/utils/pdfUtils.js *)

Module PdfUtils.
Section Generic.
Context {N : Type} `{JsNumber N}.
Local Open Scope js_scope.

Definition transformToPdfCoordinates
      (position : NormalizedPosition N) (pdfWidth pdfHeight : N) : Rect N :=
    (* Step 1: scale percentages to PDF dimensions *)
    let pdfX := xPercent position * pdfWidth in
    let pdfBoxWidth := widthPercent position * pdfWidth in
    let pdfBoxHeight := heightPercent position * pdfHeight in
    (* Step 2: flip the Y axis *)
    let pdfY := pdfHeight - (yPercent position * pdfHeight) - pdfBoxHeight in
    {| x := pdfX; y := pdfY; width := pdfBoxWidth; height := pdfBoxHeight |}.

Definition containImageInBox (imgWidth imgHeight boxWidth boxHeight : N)
      : Fit N :=
    let imgRatio := imgWidth / imgHeight in
    let boxRatio := boxWidth / boxHeight in
    let '(fitW, fitH) :=
      if imgRatio >? boxRatio
      then (* image is wider than the box: constrain by width *)
        (boxWidth, boxWidth / imgRatio)
      else (* image is taller than the box: constrain by height *)
        (boxHeight * imgRatio, boxHeight) in
    let offX := (boxWidth - fitW) / lit 2 in
    let offY := (boxHeight - fitH) / lit 2 in
    {| fitWidth := fitW; fitHeight := fitH; offsetX := offX; offsetY := offY |}.
End Generic.
End PdfUtils.

Import CoordinateTransformer PdfUtils.

(** ** The backend: models, external libraries, request handlers *)

Module Backend.

Local Close Scope Q_scope.
Local Open Scope string_scope.
Local Open Scope list_scope.
Local Open Scope nat_scope.

(** A Node [Buffer]. *)
Definition Buffer : Type := list Byte.byte.

(** A hex-encoded SHA-256 digest. *)
Definition Digest : Type := string.

(** MongoDB object identifiers, drawn from a counter of the store. *)
Definition ObjectId : Type := nat.

(** File names below [backend/]: [/uploads/<uuid>-<originalname>] and
    [/signed/signed-<uuid>.pdf].  The uuid is kept apart from the rest of
    the name, which makes distinct uuids give distinct paths. *)
Inductive Path : Type :=
| UploadsPath (uuid : nat) (originalname : string)
| SignedPath (uuid : nat).

Definition Path_eqb (p q : Path) : bool :=
  match p, q with
  | UploadsPath u n, UploadsPath u' n' => Nat.eqb u u' && String.eqb n n'
  | SignedPath u, SignedPath u' => Nat.eqb u u'
  | _, _ => false
  end.

(** *** models/Field.js: the types of fields and of their values *)

Inductive FieldType : Type :=
| signature | text | date | checkbox | radio | image.

Definition FieldType_of_string (s : string) : option FieldType :=
  if String.eqb s "signature" then Some signature
  else if String.eqb s "text" then Some text
  else if String.eqb s "date" then Some date
  else if String.eqb s "checkbox" then Some checkbox
  else if String.eqb s "radio" then Some radio
  else if String.eqb s "image" then Some image
  else None.

(** The [Mixed] value of a field, as JSON delivers it.  [VNull] is the
    absent value (undefined or null); [VObject] is any object or array. *)
Inductive FieldValue : Type :=
| VNull
| VString (s : string)
| VBoolean (b : bool)
| VNumber (q : Q)
| VObject.

(** JavaScript truthiness. *)
Definition truthy (v : FieldValue) : bool :=
  match v with
  | VNull => false
  | VString s => negb (String.eqb s EmptyString)
  | VBoolean b => b
  | VNumber q => negb (Qeq_bool q 0)
  | VObject => true
  end.

(** [text || ''] *)
Definition or_empty (v : FieldValue) : FieldValue :=
  if truthy v then v else VString EmptyString.

(** Request metadata recorded as [performedBy]. *)
Record Meta : Type := mkMeta {
  ip : string;
  userAgent : string;
  timestamp : Z
}.

(** The [status] of a document: 'draft', 'pending_signature', 'signed',
    'completed'. *)
Inductive Status : Type :=
| Draft | PendingSignature | Signed | Completed.

(** The [action] of an audit record. *)
Inductive Action : Type :=
| uploaded | field_added | field_modified | field_deleted
| signed | downloaded.

(** The file that multer hands to the upload handler. *)
Record UploadedFile : Type := mkUploadedFile {
  originalname : string;
  mimetype : string;
  content : Buffer
}.

(** *** String helpers of routes/signPdf.js *)

Definition is_word_char (c : ascii) : bool :=
  let n := nat_of_ascii c in
  ((48 <=? n) && (n <=? 57)) || ((65 <=? n) && (n <=? 90)) ||
  ((97 <=? n) && (n <=? 122)) || (n =? 95).

Fixpoint strip_prefix (prefix s : string) : option string :=
  match prefix, s with
  | EmptyString, _ => Some s
  | String a prefix', String b s' =>
      if Ascii.eqb a b then strip_prefix prefix' s' else None
  | String _ _, EmptyString => None
  end.

Fixpoint skip_word_chars (s : string) : string :=
  match s with
  | String c s' => if is_word_char c then skip_word_chars s' else s
  | EmptyString => s
  end.

(** [base64Data.replace(/^data:image\/\w+;base64,/, '')] *)
Definition strip_data_url (base64Data : string) : string :=
  match strip_prefix "data:image/" base64Data with
  | Some rest =>
      let rest' := skip_word_chars rest in
      if Nat.ltb (String.length rest') (String.length rest) then
        match strip_prefix ";base64," rest' with
        | Some base64Content => base64Content
        | None => base64Data
        end
      else base64Data
  | None => base64Data
  end.

(** [base64Data.includes(needle)] *)
Definition includes (base64Data needle : string) : bool :=
  match String.index 0 needle base64Data with
  | Some _ => true
  | None => false
  end.

(** An object literal [{ red, green, blue }].  It is not a colour built
    by pdf-lib's [rgb], [cmyk] or [grayscale], which carry their type. *)
Record ColorObject (N : Type) : Type := mkColorObject {
  red : N;
  green : N;
  blue : N
}.
Arguments mkColorObject {N}.
Arguments red {N}.
Arguments green {N}.
Arguments blue {N}.

(** *** External libraries

    Node's [crypto] and [Buffer], the locale of [Date], and pdf-lib are not
    part of the repository: the handlers are written against this
    interface.  A call that can throw returns an [option].  A page is
    addressed by its index in the document it belongs to, since drawing on a
    page changes the document. *)
Class Platform (N : Type) : Type := {
  sha256_hex : Buffer -> Digest;
  Buffer_from_base64 : string -> Buffer;
  toLocaleDateString : FieldValue -> string;
  PDFDocument : Type;
  PDFImage : Type;
  PDFDocument_load : Buffer -> option PDFDocument;
  getPageCount : PDFDocument -> nat;
  getSize : PDFDocument -> Z -> option (N * N);
  embedPng : PDFDocument -> Buffer -> option (PDFDocument * PDFImage);
  embedJpg : PDFDocument -> Buffer -> option (PDFDocument * PDFImage);
  image_width : PDFImage -> N;
  image_height : PDFImage -> N;
  drawImage : PDFDocument -> Z -> PDFImage -> Rect N -> option PDFDocument;
  drawText : PDFDocument -> Z -> FieldValue -> N -> N -> N
             -> option PDFDocument;
  drawCircle : PDFDocument -> Z -> N -> N -> N -> ColorObject N
               -> option PDFDocument;
  save : PDFDocument -> option Buffer
}.

Section Server.
Context {N : Type} {num : JsNumber N} {platform : Platform N}.
Local Open Scope js_scope.

(** *** utils/hashUtils.js *)

Definition calculateHash (buffer : Buffer) : Digest := sha256_hex buffer.

(** *** models/Field.js: the schema *)

Record FieldPosition : Type := mkFieldPosition {
  pageNumber : Z;
  percent : NormalizedPosition N
}.

Record Field : Type := mkField {
  field_id : ObjectId;
  field_documentId : ObjectId;
  fieldType : FieldType;
  label : string;
  position : FieldPosition;
  value : FieldValue;
  required : bool;
  field_createdAt : Z;
  signedAt : option Z;
  signedByIP : option string
}.

(** The validators of the schema: each percentage has [min: 0, max: 1]. *)
Definition schema_min_max (v : N) : bool :=
  (v >=? lit 0) && (v <=? lit 1).

Definition FieldSchema_validate (f : Field) : bool :=
  let p := percent (position f) in
  schema_min_max (xPercent p) && schema_min_max (yPercent p) &&
  schema_min_max (widthPercent p) && schema_min_max (heightPercent p).

(** *** models/Document.js *)

Record PageInfo : Type := mkPageInfo {
  page_pageNumber : nat;
  widthPoints : N;
  heightPoints : N
}.

Record Document : Type := mkDocument {
  doc_id : ObjectId;
  originalFileName : string;
  originalFileUrl : Path;
  originalHash : Digest;
  pageCount : nat;
  pages : list PageInfo;
  signedFileUrl : option Path;
  signedHash : option Digest;
  status : Status;
  doc_createdAt : Z;
  updatedAt : Z
}.

(** *** models/AuditLog.js *)

Inductive Details : Type :=
| UploadDetails (fileName : string) (fileSize : nat) (pageCount : nat)
| FieldAddedDetails (fieldId : ObjectId) (fieldType : string)
    (position : FieldPosition)
| FieldModifiedDetails (fieldId : ObjectId)
    (position : option FieldPosition) (label : option string)
    (required : option bool)
| FieldDeletedDetails (fieldId : ObjectId)
| SignedDetails (fieldsProcessed : nat) (fieldTypes : list FieldType).

Record AuditLog : Type := mkAuditLog {
  log_documentId : ObjectId;
  action : Action;
  documentHashBefore : option Digest;
  documentHashAfter : option Digest;
  performedBy : Meta;
  details : Details
}.

(** *** The store: the file system and the three collections *)

Record State : Type := mkState {
  files : Path -> option Buffer;
  documents : list Document;
  fields : list Field;
  auditLogs : list AuditLog;      (* in order of creation *)
  next_uuid : nat;
  next_oid : ObjectId
}.

Definition empty_state : State :=
  {| files := fun _ => None; documents := []; fields := [];
     auditLogs := []; next_uuid := 0; next_oid := 0 |}.

(** *** Responses *)

Inductive Body : Type :=
| ErrorBody (error : string)
| DocumentBody (document : Document)
| FieldBody (field : Field)
| SuccessBody
| SignedBody (signedPdfUrl : Path) (hashBefore hashAfter : Digest)
    (fieldsProcessed : nat).

Record Response : Type := mkResponse {
  statusCode : nat;
  body : Body
}.

(** *** Handlers: state and exceptions

    A handler runs on the store and either returns or throws; what it did to
    the store before throwing stays done. *)

Inductive Completion (A : Type) : Type :=
| Returns (a : A)
| Throws (message : string).
Arguments Returns {A}.
Arguments Throws {A}.

Definition Handler (A : Type) : Type := State -> State * Completion A.

Definition ret {A} (a : A) : Handler A := fun st => (st, Returns a).

Definition throw {A} (message : string) : Handler A :=
  fun st => (st, Throws message).

Definition bind {A B} (m : Handler A) (k : A -> Handler B) : Handler B :=
  fun st =>
    match m st with
    | (st', Returns a) => k a st'
    | (st', Throws e) => (st', Throws e)
    end.

(** A library call that returns or throws. *)
Definition orThrow {A} (o : option A) (message : string) : Handler A :=
  match o with
  | Some a => ret a
  | None => throw message
  end.

(** [try { ... } catch (error) { res.status(500).json(...) }] *)
Definition try_catch (handler : Handler Response) (onError : Response)
    : State -> State * Response :=
  fun st =>
    match handler st with
    | (st', Returns r) => (st', r)
    | (st', Throws _) => (st', onError)
    end.

Definition json (code : nat) (b : Body) : Handler Response :=
  ret {| statusCode := code; body := b |}.

Notation "x <- m ;; k" := (bind m (fun x => k))
  (at level 61, m at next level, right associativity).
Notation "m ;;; k" := (bind m (fun _ => k))
  (at level 61, right associativity).

(** *** The collections and the file system

    The store is taken to be reliable: reading a file that does not exist
    and saving a field that the schema refuses throw, a write that the
    handlers reach does not. *)

Definition uuidv4 : Handler nat :=
  fun st =>
    ({| files := files st; documents := documents st; fields := fields st;
        auditLogs := auditLogs st; next_uuid := S (next_uuid st);
        next_oid := next_oid st |},
     Returns (next_uuid st)).

Definition fs_readFileSync (path : Path) : Handler Buffer :=
  fun st => orThrow (files st path) "ENOENT" st.

Definition fs_writeFileSync (path : Path) (data : Buffer) : Handler unit :=
  fun st =>
    ({| files := fun p => if Path_eqb p path then Some data else files st p;
        documents := documents st; fields := fields st;
        auditLogs := auditLogs st; next_uuid := next_uuid st;
        next_oid := next_oid st |},
     Returns tt).

Definition new_ObjectId : Handler ObjectId :=
  fun st =>
    ({| files := files st; documents := documents st; fields := fields st;
        auditLogs := auditLogs st; next_uuid := next_uuid st;
        next_oid := S (next_oid st) |},
     Returns (next_oid st)).

Definition set_documents (ds : list Document) : Handler unit :=
  fun st =>
    ({| files := files st; documents := ds; fields := fields st;
        auditLogs := auditLogs st; next_uuid := next_uuid st;
        next_oid := next_oid st |},
     Returns tt).

Definition set_fields (fs : list Field) : Handler unit :=
  fun st =>
    ({| files := files st; documents := documents st; fields := fs;
        auditLogs := auditLogs st; next_uuid := next_uuid st;
        next_oid := next_oid st |},
     Returns tt).

Definition get_state : Handler State := fun st => (st, Returns st).

Definition lookup_document (st : State) (id : ObjectId) : option Document :=
  find (fun d => Nat.eqb (doc_id d) id) (documents st).

Definition lookup_field (st : State) (id : ObjectId) : option Field :=
  find (fun f => Nat.eqb (field_id f) id) (fields st).

Definition Document_findById (id : ObjectId) : Handler (option Document) :=
  st <- get_state ;;
  ret (lookup_document st id).

Definition Document_create (mk : ObjectId -> Document) : Handler Document :=
  id <- new_ObjectId ;;
  st <- get_state ;;
  set_documents (documents st ++ [mk id]) ;;;
  ret (mk id).

(** Writes [d] over the stored document that has its identifier. *)
Definition Document_save (d : Document) : Handler unit :=
  st <- get_state ;;
  set_documents
    (map (fun d' => if Nat.eqb (doc_id d') (doc_id d) then d else d')
       (documents st)).

Definition Document_findByIdAndUpdate (id : ObjectId)
    (update : Document -> Document) : Handler unit :=
  st <- get_state ;;
  set_documents
    (map (fun d => if Nat.eqb (doc_id d) id then update d else d)
       (documents st)).

Definition Field_findById (id : ObjectId) : Handler (option Field) :=
  st <- get_state ;;
  ret (lookup_field st id).

(** [Field.create] runs the validators of the schema before it inserts. *)
Definition Field_create (mk : ObjectId -> Field) : Handler Field :=
  if FieldSchema_validate (mk 0%nat) then
    id <- new_ObjectId ;;
    st <- get_state ;;
    set_fields (fields st ++ [mk id]) ;;;
    ret (mk id)
  else throw "ValidationError".

(** [field.save()] validates as well. *)
Definition Field_save (f : Field) : Handler unit :=
  if FieldSchema_validate f then
    st <- get_state ;;
    set_fields
      (map (fun f' => if Nat.eqb (field_id f') (field_id f) then f else f')
         (fields st))
  else throw "ValidationError".

Definition Field_findByIdAndDelete (id : ObjectId)
    : Handler (option Field) :=
  st <- get_state ;;
  match lookup_field st id with
  | Some f =>
      set_fields
        (filter (fun f' => negb (Nat.eqb (field_id f') id)) (fields st)) ;;;
      ret (Some f)
  | None => ret None
  end.

Definition has_value (f : Field) : bool :=
  match value f with VNull => false | _ => true end.

(** The fields of a document that have a value, in order of creation. *)
Definition valued_fields (st : State) (documentId : ObjectId) : list Field :=
  filter (fun f => Nat.eqb (field_documentId f) documentId && has_value f)
    (fields st).

(** [Field.find({ documentId, value: { $exists: true, $ne: null } })] *)
Definition Field_find_valued (documentId : ObjectId)
    : Handler (list Field) :=
  st <- get_state ;;
  ret (valued_fields st documentId).

Definition AuditLog_create (entry : AuditLog) : Handler unit :=
  fun st =>
    ({| files := files st; documents := documents st; fields := fields st;
        auditLogs := auditLogs st ++ [entry]; next_uuid := next_uuid st;
        next_oid := next_oid st |},
     Returns tt).

(** *** routes/fields.js *)

Record CreateFieldBody : Type := mkCreateFieldBody {
  req_documentId : ObjectId;
  req_fieldType : string;
  req_label : option string;
  req_position : option FieldPosition;
  req_required : option bool
}.

Record UpdateFieldBody : Type := mkUpdateFieldBody {
  upd_position : option FieldPosition;
  upd_label : option string;
  upd_required : option bool
}.

(** [[xPercent, yPercent, widthPercent, heightPercent]
      .some(v => v < 0 || v > 1)] *)
Definition out_of_range (p : FieldPosition) : bool :=
  existsb (fun v => (v <? lit 0) || (v >? lit 1))
    [xPercent (percent p); yPercent (percent p);
     widthPercent (percent p); heightPercent (percent p)].

(** [label || fieldType] *)
Definition label_or (l : option string) (fieldType : string) : string :=
  match l with
  | Some s => if String.eqb s EmptyString then fieldType else s
  | None => fieldType
  end.

(** [required !== false] *)
Definition not_false (r : option bool) : bool :=
  match r with
  | Some false => false
  | _ => true
  end.

Definition bad_position : Response :=
  {| statusCode := 400;
     body := ErrorBody "Position percentages must be between 0 and 1" |}.

(** POST /api/fields *)
Definition createField (meta : Meta) (req : CreateFieldBody)
    : State -> State * Response :=
  try_catch
    (document <- Document_findById (req_documentId req) ;;
     match document with
     | None => json 404 (ErrorBody "Document not found")
     | Some _ =>
         (* destructuring an absent position throws *)
         pos <- orThrow (req_position req) "TypeError" ;;
         if out_of_range pos then ret bad_position
         else
           ty <- orThrow (FieldType_of_string (req_fieldType req))
                   "ValidationError" ;;
           field <- Field_create (fun id =>
             {| field_id := id;
                field_documentId := req_documentId req;
                fieldType := ty;
                label := label_or (req_label req) (req_fieldType req);
                position := pos;
                value := VNull;
                required := not_false (req_required req);
                field_createdAt := timestamp meta;
                signedAt := None;
                signedByIP := None |}) ;;
           Document_findByIdAndUpdate (req_documentId req) (fun d =>
             {| doc_id := doc_id d;
                originalFileName := originalFileName d;
                originalFileUrl := originalFileUrl d;
                originalHash := originalHash d;
                pageCount := pageCount d;
                pages := pages d;
                signedFileUrl := signedFileUrl d;
                signedHash := signedHash d;
                status := PendingSignature;
                doc_createdAt := doc_createdAt d;
                updatedAt := timestamp meta |}) ;;;
           AuditLog_create
             {| log_documentId := req_documentId req;
                action := field_added;
                documentHashBefore := None;
                documentHashAfter := None;
                performedBy := meta;
                details := FieldAddedDetails (field_id field)
                             (req_fieldType req) pos |} ;;;
           json 201 (FieldBody field)
     end)
    {| statusCode := 500; body := ErrorBody "Failed to create field" |}.

Definition with_position (f : Field) (p : FieldPosition) : Field :=
  {| field_id := field_id f; field_documentId := field_documentId f;
     fieldType := fieldType f; label := label f; position := p;
     value := value f; required := required f;
     field_createdAt := field_createdAt f; signedAt := signedAt f;
     signedByIP := signedByIP f |}.

Definition with_label (f : Field) (l : string) : Field :=
  {| field_id := field_id f; field_documentId := field_documentId f;
     fieldType := fieldType f; label := l; position := position f;
     value := value f; required := required f;
     field_createdAt := field_createdAt f; signedAt := signedAt f;
     signedByIP := signedByIP f |}.

Definition with_required (f : Field) (r : bool) : Field :=
  {| field_id := field_id f; field_documentId := field_documentId f;
     fieldType := fieldType f; label := label f; position := position f;
     value := value f; required := r;
     field_createdAt := field_createdAt f; signedAt := signedAt f;
     signedByIP := signedByIP f |}.

(** PUT /api/fields/:id *)
Definition updateField (meta : Meta) (id : ObjectId) (req : UpdateFieldBody)
    : State -> State * Response :=
  try_catch
    (field <- Field_findById id ;;
     match field with
     | None => json 404 (ErrorBody "Field not found")
     | Some field =>
         let continue (field : Field) : Handler Response :=
           let field :=
             match upd_label req with
             | Some l => with_label field l
             | None => field
             end in
           let field :=
             match upd_required req with
             | Some r => with_required field r
             | None => field
             end in
           Field_save field ;;;
           AuditLog_create
             {| log_documentId := field_documentId field;
                action := field_modified;
                documentHashBefore := None;
                documentHashAfter := None;
                performedBy := meta;
                details := FieldModifiedDetails (field_id field)
                             (upd_position req) (upd_label req)
                             (upd_required req) |} ;;;
           json 200 (FieldBody field) in
         match upd_position req with
         | Some pos =>
             if out_of_range pos then ret bad_position
             else continue (with_position field pos)
         | None => continue field
         end
     end)
    {| statusCode := 500; body := ErrorBody "Failed to update field" |}.

(** DELETE /api/fields/:id *)
Definition deleteField (meta : Meta) (id : ObjectId)
    : State -> State * Response :=
  try_catch
    (field <- Field_findByIdAndDelete id ;;
     match field with
     | None => json 404 (ErrorBody "Field not found")
     | Some field =>
         AuditLog_create
           {| log_documentId := field_documentId field;
              action := field_deleted;
              documentHashBefore := None;
              documentHashAfter := None;
              performedBy := meta;
              details := FieldDeletedDetails (field_id field) |} ;;;
         json 200 SuccessBody
     end)
    {| statusCode := 500; body := ErrorBody "Failed to delete field" |}.

(** POST /api/fields/:id/value *)
Definition setFieldValue (meta : Meta) (id : ObjectId) (v : FieldValue)
    : State -> State * Response :=
  try_catch
    (field <- Field_findById id ;;
     match field with
     | None => json 404 (ErrorBody "Field not found")
     | Some field =>
         let field :=
           {| field_id := field_id field;
              field_documentId := field_documentId field;
              fieldType := fieldType field; label := label field;
              position := position field;
              value := v; required := required field;
              field_createdAt := field_createdAt field;
              signedAt := Some (timestamp meta);
              signedByIP := Some (ip meta) |} in
         Field_save field ;;;
         json 200 (FieldBody field)
     end)
    {| statusCode := 500; body := ErrorBody "Failed to set field value" |}.

(** *** routes/documents.js *)

Definition pdf_mimetype : string := "application/pdf".

(** [limits: { fileSize: 10 * 1024 * 1024 }] *)
Definition fileSize_limit : Z := 10 * 1024 * 1024.

(** The [for] loop that collects the size of every page. *)
Fixpoint collect_pages (pdfDoc : PDFDocument) (i : nat) (count : nat)
    : option (list PageInfo) :=
  match count with
  | O => Some []
  | S count' =>
      match getSize pdfDoc (Z.of_nat i) with
      | Some (w, h) =>
          match collect_pages pdfDoc (S i) count' with
          | Some rest =>
              Some ({| page_pageNumber := (i + 1)%nat; widthPoints := w;
                       heightPoints := h |} :: rest)
          | None => None
          end
      | None => None
      end
  end.

(** POST /api/documents/upload.  The multer middleware runs first: it
    refuses what is not a PDF or reaches the size limit (the error goes to
    the error middleware of the application, and nothing stays on disk),
    and otherwise stores the file under a fresh name before the handler
    starts. *)
Definition upload (meta : Meta) (file : option UploadedFile)
    : State -> State * Response :=
  match file with
  | Some f =>
      if negb (String.eqb (mimetype f) pdf_mimetype) then
        fun st => (st, {| statusCode := 500;
                          body := ErrorBody "Only PDF files are allowed" |})
      else if Z.leb fileSize_limit (Z.of_nat (List.length (content f))) then
        fun st => (st, {| statusCode := 500;
                          body := ErrorBody "File too large" |})
      else
        try_catch
          (uuid <- uuidv4 ;;
           let filePath := UploadsPath uuid (originalname f) in
           fs_writeFileSync filePath (content f) ;;;
           (* the handler proper *)
           pdfBuffer <- fs_readFileSync filePath ;;
           let originalHash := calculateHash pdfBuffer in
           pdfDoc <- orThrow (PDFDocument_load pdfBuffer) "load" ;;
           let pageCount := getPageCount pdfDoc in
           pages <- orThrow (collect_pages pdfDoc 0 pageCount) "getPage" ;;
           document <- Document_create (fun id =>
             {| doc_id := id;
                originalFileName := originalname f;
                originalFileUrl := filePath;
                originalHash := originalHash;
                pageCount := pageCount;
                pages := pages;
                signedFileUrl := None;
                signedHash := None;
                status := Draft;
                doc_createdAt := timestamp meta;
                updatedAt := timestamp meta |}) ;;
           AuditLog_create
             {| log_documentId := doc_id document;
                action := uploaded;
                documentHashBefore := None;
                documentHashAfter := Some originalHash;
                performedBy := meta;
                details := UploadDetails (originalname f)
                             (List.length (content f)) pageCount |} ;;;
           json 201 (DocumentBody document))
          {| statusCode := 500; body := ErrorBody "Failed to upload document" |}
  | None =>
      try_catch (json 400 (ErrorBody "No PDF file provided"))
        {| statusCode := 500; body := ErrorBody "Failed to upload document" |}
  end.

(** *** routes/signPdf.js *)

(** Embed image (signature) into PDF with aspect ratio preservation.
    Only a string has a [replace] method: any other value throws. *)
Definition embedImage (pdfDoc : PDFDocument) (page : Z)
    (base64Data : FieldValue) (coords : Rect N) : option PDFDocument :=
  match base64Data with
  | VString base64Data =>
      let base64Content := strip_data_url base64Data in
      let imageBuffer := Buffer_from_base64 base64Content in
      let embedded :=
        if includes base64Data "image/png"
        then embedPng pdfDoc imageBuffer
        else embedJpg pdfDoc imageBuffer in
      match embedded with
      | Some (pdfDoc, img) =>
          let fit := containImageInBox (image_width img)
                       (image_height img) (width coords) (height coords) in
          drawImage pdfDoc page img
            {| x := x coords + offsetX fit;
               y := y coords + offsetY fit;
               width := fitWidth fit;
               height := fitHeight fit |}
      | None => None
      end
  | _ => None
  end.

(** Embed text into PDF *)
Definition embedText (pdfDoc : PDFDocument) (page : Z) (text : FieldValue)
    (coords : Rect N) : option PDFDocument :=
  let fontSize := Math_min (height coords * lit 0.7) (lit 12) in
  drawText pdfDoc page (or_empty text)
    (x coords + lit 2)
    (y coords + (height coords - fontSize) / lit 2)
    fontSize.

(** The literal of the source, byte for byte. *)
Definition checkmark : string := "âœ“".

(** Embed checkmark for checkbox fields *)
Definition embedCheckmark (pdfDoc : PDFDocument) (page : Z)
    (coords : Rect N) : option PDFDocument :=
  let centerX := x coords + width coords / lit 2 in
  let centerY := y coords + height coords / lit 2 in
  let size := Math_min (width coords) (height coords) * lit 0.6 in
  drawText pdfDoc page (VString checkmark)
    (centerX - size / lit 2) (centerY - size / lit 2) size.

(** Embed filled circle for radio fields *)
Definition embedRadioFill (pdfDoc : PDFDocument) (page : Z)
    (coords : Rect N) : option PDFDocument :=
  let centerX := x coords + width coords / lit 2 in
  let centerY := y coords + height coords / lit 2 in
  let radius := Math_min (width coords) (height coords) * lit 0.3 in
  drawCircle pdfDoc page centerX centerY radius
    {| red := lit 0; green := lit 0; blue := lit 0 |}.

(** The body of the loop over the fields. *)
Definition embedField (pdfDoc : PDFDocument) (field : Field)
    : option PDFDocument :=
  let page := (pageNumber (position field) - 1)%Z in
  match getSize pdfDoc page with
  | Some (pdfWidth, pdfHeight) =>
      let pdfCoords :=
        transformToPdfCoordinates (percent (position field))
          pdfWidth pdfHeight in
      match fieldType field with
      | signature | image => embedImage pdfDoc page (value field) pdfCoords
      | text => embedText pdfDoc page (value field) pdfCoords
      | date =>
          let dateStr := toLocaleDateString (value field) in
          embedText pdfDoc page (VString dateStr) pdfCoords
      | checkbox =>
          if truthy (value field) then embedCheckmark pdfDoc page pdfCoords
          else Some pdfDoc
      | radio =>
          if truthy (value field) then embedRadioFill pdfDoc page pdfCoords
          else Some pdfDoc
      end
  | None => None
  end.

(** [for (const field of fields) { ... }]: the first field that throws ends
    the loop. *)
Fixpoint embedFields (pdfDoc : PDFDocument) (fields : list Field)
    : option PDFDocument :=
  match fields with
  | [] => Some pdfDoc
  | field :: rest =>
      match embedField pdfDoc field with
      | Some pdfDoc' => embedFields pdfDoc' rest
      | None => None
      end
  end.

Definition failed_to_sign : Response :=
  {| statusCode := 500; body := ErrorBody "Failed to sign PDF" |}.

(** POST /api/sign-pdf *)
Definition signPdf (meta : Meta) (documentId : ObjectId)
    : State -> State * Response :=
  try_catch
    ((* 1. fetch document *)
     document <- Document_findById documentId ;;
     match document with
     | None => json 404 (ErrorBody "Document not found")
     | Some document =>
         (* 2. fetch all fields with values *)
         fields <- Field_find_valued documentId ;;
         if Nat.eqb (List.length fields) 0 then
           json 400 (ErrorBody "No signed fields found")
         else
           (* 3. load the PDF *)
           pdfBuffer <- fs_readFileSync (originalFileUrl document) ;;
           (* 4. hash before modification *)
           let hashBefore := calculateHash pdfBuffer in
           (* 5. load PDF for modification *)
           pdfDoc <- orThrow (PDFDocument_load pdfBuffer) "load" ;;
           (* 6. process each field *)
           pdfDoc <- orThrow (embedFields pdfDoc fields) "embed" ;;
           (* 7. save the signed PDF *)
           signedBuffer <- orThrow (save pdfDoc) "save" ;;
           (* 8. hash after modification *)
           let hashAfter := calculateHash signedBuffer in
           (* 9. write signed PDF to disk *)
           uuid <- uuidv4 ;;
           let signedPath := SignedPath uuid in
           fs_writeFileSync signedPath signedBuffer ;;;
           (* 10. update document record *)
           Document_save
             {| doc_id := doc_id document;
                originalFileName := originalFileName document;
                originalFileUrl := originalFileUrl document;
                originalHash := originalHash document;
                pageCount := pageCount document;
                pages := pages document;
                signedFileUrl := Some signedPath;
                signedHash := Some hashAfter;
                status := Signed;
                doc_createdAt := doc_createdAt document;
                updatedAt := timestamp meta |} ;;;
           (* 11. create audit log with hash chain *)
           AuditLog_create
             {| log_documentId := documentId;
                action := signed;
                documentHashBefore := Some hashBefore;
                documentHashAfter := Some hashAfter;
                performedBy := meta;
                details := SignedDetails (List.length fields)
                             (map fieldType fields) |} ;;;
           json 200 (SignedBody signedPath hashBefore hashAfter
                       (List.length fields))
     end)
    failed_to_sign.

(** *** The server *)

Inductive Request : Type :=
| POST_upload (meta : Meta) (file : option UploadedFile)
| POST_fields (meta : Meta) (req : CreateFieldBody)
| PUT_field (meta : Meta) (id : ObjectId) (req : UpdateFieldBody)
| DELETE_field (meta : Meta) (id : ObjectId)
| POST_field_value (meta : Meta) (id : ObjectId) (v : FieldValue)
| POST_sign_pdf (meta : Meta) (documentId : ObjectId).

Definition handle (req : Request) : State -> State * Response :=
  match req with
  | POST_upload meta file => upload meta file
  | POST_fields meta r => createField meta r
  | PUT_field meta id r => updateField meta id r
  | DELETE_field meta id => deleteField meta id
  | POST_field_value meta id v => setFieldValue meta id v
  | POST_sign_pdf meta documentId => signPdf meta documentId
  end.

(** The store after serving the requests one after the other. *)
Fixpoint serve (st : State) (reqs : list Request) : State :=
  match reqs with
  | [] => st
  | req :: rest => serve (fst (handle req st)) rest
  end.

(** *** The audit log as a hash chain *)

(** The audit records of one document, in order of creation. *)
Definition log_of (st : State) (documentId : ObjectId) : list AuditLog :=
  filter (fun r => Nat.eqb (log_documentId r) documentId) (auditLogs st).

(** [earlier.documentHashAfter] equals [later.documentHashBefore] whenever
    both digests are present. *)
Definition linked (earlier later : AuditLog) : bool :=
  match documentHashAfter earlier, documentHashBefore later with
  | Some a, Some b => String.eqb a b
  | _, _ => true
  end.

(** Every record is linked to the next one. *)
Fixpoint chain_linked (log : list AuditLog) : bool :=
  match log with
  | [] => true
  | earlier :: rest =>
      match rest with
      | [] => true
      | later :: _ => linked earlier later && chain_linked rest
      end
  end.

Definition has_digest (r : AuditLog) : bool :=
  match documentHashBefore r, documentHashAfter r with
  | None, None => false
  | _, _ => true
  end.

(** *** Invariants of the store *)

(** The original of a document is on disk, under a name that was handed
    out, and [originalHash] is its digest. *)
Definition document_stored (st : State) (d : Document) : Prop :=
  exists uuid name buffer,
    originalFileUrl d = UploadsPath uuid name /\
    uuid < next_uuid st /\
    files st (UploadsPath uuid name) = Some buffer /\
    originalHash d = calculateHash buffer.

(** What a record of the log says about the document it belongs to. *)
Definition log_entry_ok (st : State) (r : AuditLog) : Prop :=
  match action r with
  | uploaded =>
      documentHashBefore r = None /\
      exists d, In d (documents st) /\ doc_id d = log_documentId r /\
                documentHashAfter r = Some (originalHash d)
  | signed =>
      exists d hashAfter,
        In d (documents st) /\ doc_id d = log_documentId r /\
        documentHashBefore r = Some (originalHash d) /\
        documentHashAfter r = Some hashAfter
  | _ => documentHashBefore r = None /\ documentHashAfter r = None
  end.

Record chain_invariant (st : State) : Prop := {
  documents_stored :
    forall d, In d (documents st) -> document_stored st d;
  documents_fresh :
    forall d, In d (documents st) -> doc_id d < next_oid st;
  documents_by_id :
    forall d1 d2, In d1 (documents st) -> In d2 (documents st) ->
      doc_id d1 = doc_id d2 -> d1 = d2;
  log_entries_ok :
    forall r, In r (auditLogs st) -> log_entry_ok st r
}.

(** Every stored field passes the validators of the schema. *)
Definition fields_valid (st : State) : Prop :=
  forall f, In f (fields st) -> FieldSchema_validate f = true.

End Server.

Arguments FieldPosition N : clear implicits.
Arguments Field N : clear implicits.
Arguments PageInfo N : clear implicits.
Arguments Document N : clear implicits.
Arguments Details N : clear implicits.
Arguments AuditLog N : clear implicits.
Arguments State N : clear implicits.
Arguments Body N : clear implicits.
Arguments Response N : clear implicits.
Arguments Handler N A : clear implicits.
Arguments CreateFieldBody N : clear implicits.
Arguments UpdateFieldBody N : clear implicits.
Arguments Request N : clear implicits.

End Backend.


(** ** A small platform to run the handlers

    It stands in for the external libraries when the handlers are run on
    concrete requests: the digest of a buffer is the buffer itself, written
    as a string (so distinct buffers have distinct digests); a PDF document
    is its bytes, has one 595 x 842 page, and every drawing appends one
    byte; an image is decoded if its payload is not empty and measures
    300 x 100; a circle is refused, as pdf-lib refuses a colour that its
    own functions did not build. *)

Module Toy.
Import Backend.
Local Close Scope Q_scope.
Local Open Scope list_scope.

Definition first_page (page : Z) : bool := Z.eqb page 0.

Definition decode (pdfDoc : Buffer) (payload : Buffer)
    : option (Buffer * unit) :=
  match payload with
  | [] => None
  | _ :: _ => Some (pdfDoc, tt)
  end.

Definition draw (mark : Byte.byte) (pdfDoc : Buffer) (page : Z)
    : option Buffer :=
  if first_page page then Some (pdfDoc ++ [mark]) else None.

#[export] Instance platform : Platform Q := {|
  sha256_hex := string_of_list_byte;
  Buffer_from_base64 := list_byte_of_string;
  toLocaleDateString := fun v =>
    match v with VString s => s | _ => "Invalid Date"%string end;
  PDFDocument := Buffer;
  PDFImage := unit;
  PDFDocument_load := fun buffer => Some buffer;
  getPageCount := fun _ => 1%nat;
  getSize := fun _ page =>
    if first_page page then Some (595%Q, 842%Q) else None;
  embedPng := decode;
  embedJpg := decode;
  image_width := fun _ => 300%Q;
  image_height := fun _ => 100%Q;
  drawImage := fun pdfDoc page _ _ => draw x49 pdfDoc page;
  drawText := fun pdfDoc page _ _ _ _ => draw x54 pdfDoc page;
  drawCircle := fun _ _ _ _ _ _ => None;
  save := fun pdfDoc => Some pdfDoc
|}.

Definition meta : Meta :=
  {| ip := "127.0.0.1"; userAgent := "test"; timestamp := 0 |}.

Definition pdf : UploadedFile :=
  {| originalname := "contract.pdf";
     mimetype := "application/pdf";
     content := list_byte_of_string "%PDF-1.7" |}.

Definition position_at (xp yp wp hp : Q) : FieldPosition Q :=
  {| pageNumber := 1; percent := mkPosition xp yp wp hp |}.

Definition new_field (ty : string) (pos : FieldPosition Q)
    : CreateFieldBody Q :=
  {| req_documentId := 0%nat; req_fieldType := ty; req_label := None;
     req_position := Some pos; req_required := None |}.

(** An uploaded document with one text field that has a value. *)
Definition ready_to_sign : State Q :=
  serve empty_state
    [ POST_upload meta (Some pdf);
      POST_fields meta
        (new_field "text" (position_at (1#10) (8#10) (3#10) (1#10)));
      POST_field_value meta 1%nat (VString "Jane Doe") ].

(** An uploaded document with a signature field whose image has an empty
    payload, which the decoder refuses. *)
Definition undecodable_signature : State Q :=
  serve empty_state
    [ POST_upload meta (Some pdf);
      POST_fields meta
        (new_field "text" (position_at (1#10) (1#10) (3#10) (1#10)));
      POST_field_value meta 1%nat (VString "Jane Doe");
      POST_fields meta
        (new_field "signature" (position_at (1#10) (8#10) (3#10) (1#10)));
      POST_field_value meta 2%nat (VString "data:image/png;base64,") ].

Definition text_field : CreateFieldBody Q :=
  new_field "text" (position_at (1#10) (8#10) (3#10) (1#10)).

(** An uploaded document with one radio field that is selected. *)
Definition selected_radio : State Q :=
  serve empty_state
    [ POST_upload meta (Some pdf);
      POST_fields meta
        (new_field "radio" (position_at (1#10) (8#10) (1#10) (1#10)));
      POST_field_value meta 1%nat (VBoolean true) ].

(** Upload, place a text field, fill it, sign. *)
Definition sign_once : list (Request Q) :=
  [ POST_upload meta (Some pdf);
    POST_fields meta text_field;
    POST_field_value meta 1%nat (VString "Jane Doe");
    POST_sign_pdf meta 0%nat ].

(** The same, and sign a second time. *)
Definition sign_twice : list (Request Q) :=
  sign_once ++ [ POST_sign_pdf meta 0%nat ].

(** A field that starts at 80% of the page and is 50% of the page wide and
    high. *)
Definition overflowing : FieldPosition Q :=
  position_at (8#10) (8#10) (5#10) (5#10).

(** A field that starts left of the page. *)
Definition off_page : FieldPosition Q :=
  position_at (-1#10) (1#10) (3#10) (1#10).

(** Default values for [hd] and [nth]. *)
Definition blank_document : Document Q :=
  {| doc_id := 0%nat; originalFileName := EmptyString;
     originalFileUrl := SignedPath 0;
     originalHash := EmptyString; pageCount := 0%nat; pages := [];
     signedFileUrl := None; signedHash := None; status := Draft;
     doc_createdAt := 0; updatedAt := 0 |}.

Definition blank_field : Field Q :=
  {| field_id := 0%nat; field_documentId := 0%nat; fieldType := text;
     label := EmptyString; position := position_at 0 0 0 0; value := VNull;
     required := true; field_createdAt := 0; signedAt := None;
     signedByIP := None |}.

Definition blank_log : AuditLog Q :=
  {| log_documentId := 0%nat; action := downloaded;
     documentHashBefore := None; documentHashAfter := None;
     performedBy := meta; details := FieldDeletedDetails 0%nat |}.

End Toy.

(** ** backend/utils/hashUtils.js: verification of a digest

    [Buffer.from(string, 'hex')] and [crypto.timingSafeEqual] are written
    out as Node documents them: decoding reads two hexadecimal digits per
    byte, in either case, and stops at the first pair that is not made of
    two digits (a single trailing digit is dropped); the comparison throws
    when the two buffers differ in length. *)

Module HashUtils.
Import Backend.
Local Close Scope Q_scope.
Local Open Scope nat_scope.

Definition hex_digit (c : ascii) : option nat :=
  let n := nat_of_ascii c in
  if (48 <=? n) && (n <=? 57) then Some (n - 48)
  else if (97 <=? n) && (n <=? 102) then Some (n - 87)
  else if (65 <=? n) && (n <=? 70) then Some (n - 55)
  else None.

Fixpoint Buffer_from_hex (s : string) : Buffer :=
  match s with
  | String a (String b rest) =>
      match hex_digit a, hex_digit b with
      | Some h, Some l =>
          byte_of_ascii (ascii_of_nat (16 * h + l)) :: Buffer_from_hex rest
      | _, _ => []
      end
  | _ => []
  end.

Fixpoint Buffer_equals (a b : Buffer) : bool :=
  match a, b with
  | [], [] => true
  | x :: a', y :: b' => Byte.eqb x y && Buffer_equals a' b'
  | _, _ => false
  end.

(** [crypto.timingSafeEqual(a, b)]: [None] is the RangeError for buffers of
    different lengths. *)
Definition timingSafeEqual (a b : Buffer) : option bool :=
  if Nat.eqb (List.length a) (List.length b)
  then Some (Buffer_equals a b)
  else None.

(** A string made of an even number of digits [0-9a-f], as [digest('hex')]
    returns them. *)
Definition is_lower_hex (c : ascii) : bool :=
  let n := nat_of_ascii c in
  ((48 <=? n) && (n <=? 57)) || ((97 <=? n) && (n <=? 102)).

Fixpoint lower_hex_pairs (s : string) : bool :=
  match s with
  | EmptyString => true
  | String a (String b rest) =>
      is_lower_hex a && is_lower_hex b && lower_hex_pairs rest
  | String _ EmptyString => false
  end.

Section Verify.
Context {N : Type} {platform : Platform N}.

(** Verify document integrity by comparing hashes; the [catch] turns the
    exception of the comparison into [false]. *)
Definition verifyHash (buffer : Buffer) (expectedHash : string) : bool :=
  let currentHash := calculateHash buffer in
  match timingSafeEqual (Buffer_from_hex currentHash)
          (Buffer_from_hex expectedHash) with
  | Some equal => equal
  | None => false
  end.

End Verify.
End HashUtils.

(** ** What the requests leave in the store *)

Module Store.
Import Backend.
Local Close Scope Q_scope.
Local Open Scope list_scope.

Section Generic.
Context {N : Type} {num : JsNumber N} {platform : Platform N}.

(** The action under which a request is recorded when it succeeds; setting
    the value of a field is not recorded. *)
Definition recorded_action (req : Request N) : option Action :=
  match req with
  | POST_upload _ _ => Some uploaded
  | POST_fields _ _ => Some field_added
  | PUT_field _ _ _ => Some field_modified
  | DELETE_field _ _ => Some field_deleted
  | POST_field_value _ _ _ => None
  | POST_sign_pdf _ _ => Some signed
  end.

(** A response of the 2xx class. *)
Definition succeeded (r : Response N) : bool :=
  (200 <=? statusCode r)%nat && (statusCode r <? 300)%nat.

(** The actions that serving [reqs] from [st] should leave in the log: one
    for every request that succeeds and is recorded, in order. *)
Fixpoint recorded_actions (st : State N) (reqs : list (Request N))
    : list Action :=
  match reqs with
  | [] => []
  | req :: rest =>
      (if succeeded (snd (handle req st))
       then match recorded_action req with
            | Some a => [a]
            | None => []
            end
       else [])
      ++ recorded_actions (fst (handle req st)) rest
  end.

(** Identifiers are handed out once: every stored field has an identifier
    below the counter, no two fields share one, and the document of every
    field is stored. *)
Definition fields_consistent (st : State N) : Prop :=
  (forall f, In f (fields st) -> (field_id f < next_oid st)%nat) /\
  NoDup (map field_id (fields st)) /\
  (forall f, In f (fields st) ->
     exists d, In d (documents st) /\ doc_id d = field_documentId f).

(** What a document has in common with the document it was at an earlier
    time. *)
Definition same_original (d' d : Document N) : Prop :=
  doc_id d' = doc_id d
  /\ originalFileName d' = originalFileName d
  /\ originalFileUrl d' = originalFileUrl d
  /\ originalHash d' = originalHash d
  /\ pageCount d' = pageCount d
  /\ pages d' = pages d.

(** The store after [reqs], starting from the empty store. *)
Definition reachable (st : State N) : Prop :=
  exists reqs, st = serve empty_state reqs.

End Generic.
End Store.

(** ** Theorems *)

(** C1: for every normalized position and page size the transformation
    returns x = xPercent * pageWidth, width = widthPercent * pageWidth,
    height = heightPercent * pageHeight and the flipped
    y = pageHeight - yPercent * pageHeight - heightPercent * pageHeight
    (in any arithmetic); in binary64, on a page of height 800, a field
    with yPercent 0 and heightPercent 0.1 gets y = 720, and a field with
    yPercent 0.9 and heightPercent 0.1 gets y = 0. *)
Theorem transformToPdfCoordinates_flips_y :
  (forall (N : Type) (num : JsNumber N)
          (p : NormalizedPosition N) (pageWidth pageHeight : N),
      transformToPdfCoordinates p pageWidth pageHeight =
      {| x := (xPercent p * pageWidth)%js;
         y := (pageHeight - (yPercent p * pageHeight)
                 - (heightPercent p * pageHeight))%js;
         width := (widthPercent p * pageWidth)%js;
         height := (heightPercent p * pageHeight)%js |})
  /\ (forall xp wp pageWidth : float,
      (y (transformToPdfCoordinates (mkPosition xp 0 wp 0.1) pageWidth 800)
        = 720
      /\ y (transformToPdfCoordinates (mkPosition xp 0.9 wp 0.1) pageWidth 800)
        = 0)%float)
  /\ (forall xp wp pageWidth : Q,
      y (transformToPdfCoordinates (mkPosition xp 0 wp (1#10)) pageWidth 800)
        == 720
      /\ y (transformToPdfCoordinates (mkPosition xp (9#10) wp (1#10))
              pageWidth 800) == 0).
Proof.
  split; [ reflexivity | split ].
  - intros xp wp pageWidth. split; vm_compute; reflexivity.
  - intros xp wp pageWidth. split; vm_compute; reflexivity.
Qed.

(** *** Reading the rational instance *)

Lemma Qgtb_true (a b : Q) : Qgtb a b = true <-> b < a.
Proof.
  unfold Qgtb. rewrite Qgt_alt.
  destruct (a ?= b); split; congruence.
Qed.

Lemma Qgtb_false (a b : Q) : Qgtb a b = false <-> a <= b.
Proof.
  unfold Qgtb. rewrite Qle_alt.
  destruct (a ?= b); split; congruence.
Qed.

(** Replaces every [Qmin]/[Qmax] of the goal by a fresh variable that
    satisfies the specification of the operation. *)
Ltac forget_minmax :=
  repeat match goal with
  | |- context [Qmin ?a ?b] =>
      let m := fresh "m" in
      pose proof (Q.min_spec a b); set (m := Qmin a b) in *; clearbody m
  | |- context [Qmax ?a ?b] =>
      let m := fresh "m" in
      pose proof (Q.max_spec a b); set (m := Qmax a b) in *; clearbody m
  end.

Ltac unfold_js :=
  cbn [lit js_add js_sub js_mul js_div Math_min Math_max js_lt js_gt
       js_le js_ge
       Q_number float_number
       xPercent yPercent widthPercent heightPercent x y width height
       fitWidth fitHeight offsetX offsetY] in *.

(** [clampPosition] never makes a field wider or taller. *)
Lemma clampPosition_never_grows (p : NormalizedPosition Q) :
  widthPercent (clampPosition p) <= widthPercent p /\
  heightPercent (clampPosition p) <= heightPercent p.
Proof.
  unfold clampPosition; unfold_js. forget_minmax. lra.
Qed.

(** The clamped offsets are never negative. *)
Lemma clampPosition_offsets_nonneg (p : NormalizedPosition Q) :
  0 <= xPercent (clampPosition p) /\ 0 <= yPercent (clampPosition p).
Proof.
  unfold clampPosition; unfold_js. forget_minmax. lra.
Qed.

(** Unless a field both starts before the page and is larger than the page,
    [clampPosition] puts it inside the page. *)
Lemma clampPosition_within_page (p : NormalizedPosition Q) :
  (0 <= xPercent p \/ widthPercent p <= 1) ->
  (0 <= yPercent p \/ heightPercent p <= 1) ->
  xPercent (clampPosition p) + widthPercent (clampPosition p) <= 1 /\
  yPercent (clampPosition p) + heightPercent (clampPosition p) <= 1.
Proof.
  unfold clampPosition; unfold_js. intros Hx Hy. forget_minmax. lra.
Qed.

(** A position that lies inside the page is left alone. *)
Lemma clampPosition_fixes_inside (p : NormalizedPosition Q) :
  0 <= xPercent p -> 0 <= yPercent p ->
  xPercent p + widthPercent p <= 1 ->
  yPercent p + heightPercent p <= 1 ->
  position_eq (clampPosition p) p.
Proof.
  unfold position_eq, clampPosition; unfold_js. intros. forget_minmax.
  repeat split; lra.
Qed.

(** On the same positions [clampPosition] is idempotent. *)
Lemma clampPosition_idempotent_within (p : NormalizedPosition Q) :
  (0 <= xPercent p \/ widthPercent p <= 1) ->
  (0 <= yPercent p \/ heightPercent p <= 1) ->
  position_eq (clampPosition (clampPosition p)) (clampPosition p).
Proof.
  intros Hx Hy.
  destruct (clampPosition_within_page p Hx Hy) as [Hw Hh].
  destruct (clampPosition_offsets_nonneg p) as [Hx0 Hy0].
  apply clampPosition_fixes_inside; assumption.
Qed.

(** C3: at the position { xPercent: -0.5, yPercent: 0, widthPercent: 2,
    heightPercent: 0.5 } the code returns { 0, 0, 1.5, 0.5 }, whose
    xPercent + widthPercent is 1.5 > 1, and clamping that result again
    returns { 0, 0, 1, 0.5 }: the function neither keeps the field inside
    the page nor is idempotent there.  The width is the binary64 value and
    the same holds in exact arithmetic. *)
Theorem clampPosition_overflows_when_left_of_page :
  (let p := mkPosition (-0.5) 0 2 0.5 in
   clampPosition p = mkPosition 0 0 1.5 0.5
   /\ clampPosition (clampPosition p) = mkPosition 0 0 1 0.5
   /\ PrimFloat.ltb 1
        (xPercent (clampPosition p) + widthPercent (clampPosition p)) = true
   /\ PrimFloat.eqb (widthPercent (clampPosition (clampPosition p)))
        (widthPercent (clampPosition p)) = false)%float
  /\
  let q := mkPosition (-1#2) 0 2 (1#2) in
  position_eq (clampPosition q) (mkPosition 0 0 (3#2) (1#2))
  /\ position_eq (clampPosition (clampPosition q)) (mkPosition 0 0 1 (1#2))
  /\ 1 < xPercent (clampPosition q) + widthPercent (clampPosition q)
  /\ ~ position_eq (clampPosition (clampPosition q)) (clampPosition q).
Proof.
  split.
  - vm_compute. repeat split; reflexivity.
  - cbv zeta. repeat split; try (vm_compute; congruence).
    intros (_ & _ & Hw & _). vm_compute in Hw. discriminate.
Qed.

(** C8: at { xPercent: 0.5, yPercent: 0.25, widthPercent: 1,
    heightPercent: 1 } the code returns { 0, 0, 0.5, 0.75 }: both offsets
    are forced to 0 but the dimensions, which were exactly 1, come back as
    0.5 and 0.75 instead of 1; at { xPercent: -0.5, widthPercent: 2 } the
    width comes back as 1.5, above 1. *)
Theorem clampPosition_full_size_not_capped_to_one :
  (clampPosition (mkPosition 0.5 0.25 1 1) = mkPosition 0 0 0.5 0.75
   /\ widthPercent (clampPosition (mkPosition (-0.5) 0 2 1)) = 1.5)%float
  /\ position_eq (clampPosition (mkPosition (1#2) (1#4) 1 1))
       (mkPosition 0 0 (1#2) (3#4))
  /\ ~ widthPercent (clampPosition (mkPosition (1#2) (1#4) 1 1)) == 1
  /\ ~ heightPercent (clampPosition (mkPosition (1#2) (1#4) 1 1)) == 1.
Proof.
  split; [ vm_compute; split; reflexivity | ].
  repeat split; try (vm_compute; congruence).
Qed.

(** *** Binary64 arithmetic: the error of one operation

    The specification of the format ([SpecFloat]) rounds the exact result
    of a multiplication or a division by shifting its mantissa to the
    right; a finite result is within one unit in the last place of the
    exact result, which for a normal result is [epsilon] times its
    magnitude. *)

Import Binary64.

(** **** Powers of two *)

Lemma pow2_pos (e : Z) : 0 < pow2 e.
Proof.
  unfold pow2. apply Qpower_0_lt. reflexivity.
Qed.

Lemma pow2_plus (a b : Z) : pow2 (a + b) == pow2 a * pow2 b.
Proof.
  unfold pow2. apply Qpower_plus. discriminate.
Qed.

Lemma pow2_succ (e : Z) : pow2 (e + 1) == 2 * pow2 e.
Proof.
  rewrite pow2_plus. unfold pow2 at 2. cbn. ring.
Qed.

Lemma pow2_nonneg_ge_1 (n : Z) : (0 <= n)%Z -> 1 <= pow2 n.
Proof.
  intros Hn. pattern n. apply natlike_ind; [ | | exact Hn ].
  - unfold pow2. cbn. discriminate.
  - intros k Hk IH. unfold Z.succ. rewrite pow2_succ. lra.
Qed.

Lemma pow2_le (a b : Z) : (a <= b)%Z -> pow2 a <= pow2 b.
Proof.
  intros Hab. replace b with (a + (b - a))%Z by lia.
  rewrite pow2_plus.
  pose proof (pow2_pos a). pose proof (pow2_nonneg_ge_1 (b - a) ltac:(lia)).
  nra.
Qed.

Lemma pow2_Z (n : Z) : (0 <= n)%Z -> pow2 n == inject_Z (2 ^ n).
Proof.
  intros Hn. unfold pow2. rewrite Zpower_Qpower by exact Hn. reflexivity.
Qed.

(** Shifting the mantissa to the right *)

Lemma located_bounds (m : Z) (l : location) (V : Q) :
  located m l V -> inject_Z m <= V /\ V < inject_Z m + 1.
Proof.
  destruct l as [| []]; cbn; intros H; lra.
Qed.

Lemma loc_of_shr_record_of_loc (m : Z) (l : location) :
  loc_of_shr_record (shr_record_of_loc m l) = l
  /\ shr_m (shr_record_of_loc m l) = m.
Proof.
  destruct l as [| []]; split; reflexivity.
Qed.

Lemma inject_Z_xO (p : positive) :
  inject_Z (Zpos p~0) == 2 * inject_Z (Zpos p).
Proof.
  rewrite Pos2Z.inj_xO, inject_Z_mult. reflexivity.
Qed.

Lemma inject_Z_xI (p : positive) :
  inject_Z (Zpos p~1) == 2 * inject_Z (Zpos p) + 1.
Proof.
  rewrite Pos2Z.inj_xI, inject_Z_plus, inject_Z_mult. reflexivity.
Qed.

Lemma shr_1_located (mrs : shr_record) (V : Q) :
  (0 <= shr_m mrs)%Z ->
  located (shr_m mrs) (loc_of_shr_record mrs) V ->
  (0 <= shr_m (shr_1 mrs))%Z
  /\ located (shr_m (shr_1 mrs)) (loc_of_shr_record (shr_1 mrs)) (V / 2).
Proof.
  destruct mrs as [m r s]. cbn [shr_m]. intros Hm Hloc.
  assert (Hhalf : forall W : Q, W / 2 == W * (1#2)) by (intros; field).
  assert (H0 : inject_Z 0 == 0) by reflexivity.
  assert (H1 : inject_Z 1 == 1) by reflexivity.
  destruct m as [| p | p]; [ | | lia ].
  - destruct r, s;
      cbn [shr_1 shr_m loc_of_shr_record located orb] in *;
      (split; [ lia | ]); rewrite Hhalf; lra.
  - destruct p as [p | p |].
    + pose proof (inject_Z_xI p) as E.
      destruct r, s;
        cbn [shr_1 shr_m loc_of_shr_record located orb] in *;
        (split; [ lia | ]); rewrite Hhalf; lra.
    + pose proof (inject_Z_xO p) as E.
      destruct r, s;
        cbn [shr_1 shr_m loc_of_shr_record located orb] in *;
        (split; [ lia | ]); rewrite Hhalf; lra.
    + destruct r, s;
        cbn [shr_1 shr_m loc_of_shr_record located orb] in *;
        (split; [ lia | ]); rewrite Hhalf; lra.
Qed.

Lemma iter_pos_nat {A : Type} (f : A -> A) (p : positive) (a : A) :
  iter_pos f p a = Nat.iter (Pos.to_nat p) f a.
Proof.
  revert a. induction p as [p IH | p IH |]; intros a; cbn [iter_pos].
  - rewrite !IH, Pos2Nat.inj_xI.
    rewrite <- Nat.iter_succ_r, <- Nat.iter_add. f_equal. lia.
  - rewrite !IH, Pos2Nat.inj_xO, <- Nat.iter_add. f_equal. lia.
  - reflexivity.
Qed.

Lemma shr_iter (k : nat) (mrs : shr_record) (V : Q) (e : Z) :
  (0 <= shr_m mrs)%Z ->
  located (shr_m mrs) (loc_of_shr_record mrs) V ->
  (0 <= shr_m (Nat.iter k shr_1 mrs))%Z
  /\ exists V',
       located (shr_m (Nat.iter k shr_1 mrs))
         (loc_of_shr_record (Nat.iter k shr_1 mrs)) V'
       /\ V' * pow2 (e + Z.of_nat k) == V * pow2 e.
Proof.
  intros Hm Hloc. induction k as [| k [Hk (V' & Hloc' & E)]].
  - split; [ exact Hm | ]. exists V. split; [ exact Hloc | ].
    cbn. rewrite Z.add_0_r. reflexivity.
  - cbn [Nat.iter nat_rect].
    destruct (shr_1_located _ V' Hk Hloc') as [Hk' Hloc''].
    split; [ exact Hk' | ]. exists (V' / 2). split; [ exact Hloc'' | ].
    rewrite Nat2Z.inj_succ. unfold Z.succ. rewrite Z.add_assoc, pow2_succ.
    rewrite <- E. field.
Qed.

Lemma shr_located (m : Z) (l : location) (V : Q) (e n : Z)
    (mrs' : shr_record) (e' : Z) :
  (0 <= m)%Z -> located m l V ->
  shr (shr_record_of_loc m l) e n = (mrs', e') ->
  (0 <= shr_m mrs')%Z /\ (e <= e')%Z
  /\ exists V',
       located (shr_m mrs') (loc_of_shr_record mrs') V'
       /\ V' * pow2 e' == V * pow2 e.
Proof.
  intros Hm Hloc Hshr.
  destruct (loc_of_shr_record_of_loc m l) as [El Em].
  destruct n as [| p | p]; cbn [shr] in Hshr.
  - injection Hshr as <- <-. rewrite El, Em.
    split; [ exact Hm | ]. split; [ lia | ]. exists V. split;
      [ exact Hloc | reflexivity ].
  - injection Hshr as <- <-. rewrite iter_pos_nat.
    destruct (shr_iter (Pos.to_nat p) (shr_record_of_loc m l) V e)
      as [Hk (V' & Hloc' & E)].
    + rewrite Em. exact Hm.
    + rewrite El, Em. exact Hloc.
    + split; [ exact Hk | ]. split; [ lia | ].
      exists V'. split; [ exact Hloc' | ].
      rewrite positive_nat_Z in E. exact E.
  - injection Hshr as <- <-. rewrite El, Em.
    split; [ exact Hm | ]. split; [ lia | ]. exists V. split;
      [ exact Hloc | reflexivity ].
Qed.

(** Rounding to nearest, ties to even *)

Lemma round_nearest_even_located (m : Z) (l : location) (V : Q) :
  located m l V ->
  (m <= round_nearest_even m l)%Z
  /\ Qabs (inject_Z (round_nearest_even m l) - V) <= 1#2.
Proof.
  intros Hloc.
  assert (E : inject_Z (m + 1) == inject_Z m + 1)
    by (rewrite inject_Z_plus; reflexivity).
  destruct l as [| []]; cbn [round_nearest_even located] in *.
  - split; [ lia | ]. apply Qabs_Qle_condition. lra.
  - destruct (Z.even m); (split; [ lia | ]);
      apply Qabs_Qle_condition; lra.
  - split; [ lia | ]. apply Qabs_Qle_condition. lra.
  - split; [ lia | ]. apply Qabs_Qle_condition. lra.
Qed.

(** The two shifts and the rounding of [binary_round_aux]: a finite result
    is within one unit in the last place of the number that was rounded. *)
Lemma binary_round_aux_error (s : bool) (m e : Z) (l : location) (V : Q)
    (s' : bool) (mz : positive) (ez : Z) :
  (0 <= m)%Z -> located m l V ->
  binary_round_aux prec emax s m e l = S754_finite s' mz ez ->
  s' = s
  /\ Qabs (inject_Z (Zpos mz) * pow2 ez - V * pow2 e) <= pow2 ez.
Proof.
  intros Hm Hloc. unfold binary_round_aux.
  destruct (shr_fexp prec emax m e l) as [mrs' e'] eqn:H1.
  set (m1 := round_nearest_even (shr_m mrs') (loc_of_shr_record mrs')).
  destruct (shr_fexp prec emax m1 e' loc_Exact) as [mrs'' e''] eqn:H2.
  destruct (shr_m mrs'') as [| m2 | m2] eqn:Hm2; try discriminate.
  destruct (Z.leb e'' (emax - prec)); [ | discriminate ].
  intros E. injection E as <- <- <-. split; [ reflexivity | ].
  unfold shr_fexp in H1, H2.
  destruct (shr_located _ _ _ _ _ _ _ Hm Hloc H1)
    as (Hm' & He' & V' & Hloc' & EV').
  destruct (round_nearest_even_located _ _ _ Hloc') as [Hm1 Hnear].
  fold m1 in Hm1, Hnear.
  assert (Hm1' : (0 <= m1)%Z) by lia.
  assert (Hexact : located m1 loc_Exact (inject_Z m1)) by reflexivity.
  destruct (shr_located _ _ _ _ _ _ _ Hm1' Hexact H2)
    as (_ & He'' & V'' & Hloc'' & EV'').
  rewrite Hm2 in Hloc''. apply located_bounds in Hloc''.
  (* the exponents *)
  set (k := (e'' - e')%Z).
  assert (Hk : (0 <= k)%Z) by (subst k; lia).
  assert (EK : pow2 e'' == inject_Z (2 ^ k) * pow2 e').
  { replace e'' with (k + e')%Z by (subst k; lia).
    rewrite pow2_plus, (pow2_Z k Hk). reflexivity. }
  pose proof (pow2_pos e') as HP.
  assert (HK : inject_Z 1 <= inject_Z (2 ^ k)).
  { rewrite <- Zle_Qle. pose proof (Z.pow_pos_nonneg 2 k). lia. }
  change (inject_Z 1) with 1 in HK.
  (* the second shift *)
  assert (EV : V'' * inject_Z (2 ^ k) == inject_Z m1).
  { apply (Qmult_inj_r _ _ (pow2 e')); [ lra | ].
    rewrite <- EV'', EK. ring. }
  assert (Hlow : inject_Z (Zpos m2) * inject_Z (2 ^ k) <= inject_Z m1).
  { rewrite <- EV. apply Qmult_le_compat_r; lra. }
  assert (Hhigh : inject_Z m1 + 1
                  <= (inject_Z (Zpos m2) + 1) * inject_Z (2 ^ k)).
  { assert (Hlt : inject_Z m1 < inject_Z ((Zpos m2 + 1) * 2 ^ k)).
    { rewrite inject_Z_mult, inject_Z_plus, <- EV.
      change (inject_Z 1) with 1. apply Qmult_lt_compat_r; lra. }
    rewrite <- Zlt_Qlt in Hlt.
    assert (Hle : (m1 + 1 <= (Zpos m2 + 1) * 2 ^ k)%Z) by lia.
    rewrite Zle_Qle in Hle.
    rewrite inject_Z_plus, inject_Z_mult, inject_Z_plus in Hle.
    exact Hle. }
  apply Qabs_Qle_condition in Hnear.
  rewrite <- EV', EK.
  set (a := inject_Z (Zpos m2)) in *. set (b := inject_Z m1) in *.
  set (K := inject_Z (2 ^ k)) in *. set (P := pow2 e') in *.
  clearbody a b K P.
  apply Qabs_Qle_condition. split.
  - assert (Hs : 0 <= (a * K - b + (b - V') + K) * P)
      by (apply Qmult_le_0_compat; lra).
    lra.
  - assert (Hs : 0 <= (K - (a * K - b + (b - V'))) * P)
      by (apply Qmult_le_0_compat; lra).
    lra.
Qed.

(** The number of binary digits of a mantissa *)

Lemma digits2_pos_bounds (m : positive) :
  (2 ^ (Zpos (digits2_pos m) - 1) <= Zpos m < 2 ^ Zpos (digits2_pos m))%Z.
Proof.
  induction m as [m IH | m IH |]; cbn [digits2_pos].
  - rewrite Pos2Z.inj_succ.
    replace (Z.succ (Zpos (digits2_pos m)) - 1)%Z
      with (Z.succ (Zpos (digits2_pos m) - 1)) by lia.
    rewrite !Z.pow_succ_r by lia. lia.
  - rewrite Pos2Z.inj_succ.
    replace (Z.succ (Zpos (digits2_pos m)) - 1)%Z
      with (Z.succ (Zpos (digits2_pos m) - 1)) by lia.
    rewrite !Z.pow_succ_r by lia. lia.
  - cbn. lia.
Qed.

Lemma Qabs_cond_Zopp (s : bool) (m : positive) (P : Q) :
  0 < P ->
  Qabs (inject_Z (cond_Zopp s (Zpos m)) * P) == inject_Z (Zpos m) * P.
Proof.
  intros HP.
  assert (Hm : 0 < inject_Z (Zpos m)).
  { change 0 with (inject_Z 0). rewrite <- Zlt_Qlt. lia. }
  assert (Hpos : 0 <= inject_Z (Zpos m) * P) by (apply Qmult_le_0_compat; lra).
  destruct s; cbn [cond_Zopp].
  - change (Z.opp (Zpos m)) with (- Zpos m)%Z. rewrite inject_Z_opp.
    setoid_replace (- inject_Z (Zpos m) * P) with (- (inject_Z (Zpos m) * P))
      by ring.
    rewrite Qabs_opp. apply Qabs_pos. exact Hpos.
  - apply Qabs_pos. exact Hpos.
Qed.

(** A normal number is at least [2 ^ 52] units in its last place. *)
Lemma normal_ulp (s : bool) (m : positive) (e : Z) :
  Zpos (digits2_pos m) = prec ->
  pow2 e <= epsilon * Qabs (SF2Q (S754_finite s m e)).
Proof.
  intros Hd. cbn [SF2Q]. rewrite (Qabs_cond_Zopp s m _ (pow2_pos e)).
  pose proof (digits2_pos_bounds m) as [Hlow _]. rewrite Hd in Hlow.
  change (2 ^ (prec - 1))%Z with 4503599627370496%Z in Hlow.
  rewrite Zle_Qle in Hlow. pose proof (pow2_pos e) as HP.
  unfold epsilon.
  set (M := inject_Z (Zpos m)) in *. set (P := pow2 e) in *.
  clearbody M P.
  assert (E : (1 # 4503599627370496) * inject_Z 4503599627370496 == 1)
    by reflexivity.
  assert (Hs : 0 <= (M - inject_Z 4503599627370496) * P)
    by (apply Qmult_le_0_compat; lra).
  setoid_replace P with ((1 # 4503599627370496)
                         * (inject_Z 4503599627370496 * P)) at 1
    by (rewrite Qmult_assoc, E; ring).
  setoid_replace ((1 # 4503599627370496) * (M * P))
    with ((1 # 4503599627370496) * (inject_Z 4503599627370496 * P)
          + (1 # 4503599627370496)
            * ((M - inject_Z 4503599627370496) * P)) by ring.
  assert (Hq : 0 <= (1 # 4503599627370496)
                    * ((M - inject_Z 4503599627370496) * P))
    by (apply Qmult_le_0_compat; [ discriminate | exact Hs ]).
  lra.
Qed.

(** Multiplication *)

Lemma cond_Zopp_xorb (sx sy : bool) (mx my : positive) :
  (cond_Zopp sx (Zpos mx) * cond_Zopp sy (Zpos my))%Z
  = cond_Zopp (xorb sx sy) (Zpos (mx * my)).
Proof.
  destruct sx, sy; reflexivity.
Qed.

Lemma Qabs_cond_Zopp_diff (s : bool) (a b : Z) (P R : Q) :
  Qabs (inject_Z (cond_Zopp s a) * P - inject_Z (cond_Zopp s b) * R)
  == Qabs (inject_Z a * P - inject_Z b * R).
Proof.
  destruct s; cbn [cond_Zopp]; [ | reflexivity ].
  rewrite !inject_Z_opp.
  setoid_replace (- inject_Z a * P - - inject_Z b * R)
    with (- (inject_Z a * P - inject_Z b * R)) by ring.
  apply Qabs_opp.
Qed.

Lemma SFmul_error (x y : spec_float) (s : bool) (mz : positive) (ez : Z) :
  SFmul prec emax x y = S754_finite s mz ez ->
  Qabs (SF2Q (S754_finite s mz ez) - SF2Q x * SF2Q y) <= pow2 ez.
Proof.
  destruct x as [sx | sx | | sx mx ex], y as [sy | sy | | sy my ey];
    cbn [SFmul]; try discriminate.
  intros Hmul.
  destruct (binary_round_aux_error (xorb sx sy) (Zpos (mx * my)) (ex + ey)
              loc_Exact (inject_Z (Zpos (mx * my))) s mz ez
              (Pos2Z.is_nonneg _) (Qeq_refl _) Hmul) as [-> Herr].
  cbn [SF2Q].
  setoid_replace (inject_Z (cond_Zopp sx (Zpos mx)) * pow2 ex
                  * (inject_Z (cond_Zopp sy (Zpos my)) * pow2 ey))
    with (inject_Z (cond_Zopp (xorb sx sy) (Zpos (mx * my)))
          * pow2 (ex + ey)).
  - rewrite Qabs_cond_Zopp_diff. exact Herr.
  - rewrite <- cond_Zopp_xorb, inject_Z_mult, pow2_plus. ring.
Qed.

(** Division *)

Lemma new_location_located (n k q : Z) :
  (0 < n)%Z -> (0 <= k < n)%Z ->
  located q (new_location n k) (inject_Z q + inject_Z k / inject_Z n).
Proof.
  intros Hn Hk.
  assert (HN : 0 < inject_Z n).
  { change 0 with (inject_Z 0). rewrite <- Zlt_Qlt. exact Hn. }
  assert (Hzero : k = 0%Z -> inject_Z k / inject_Z n == 0).
  { intros ->. change (inject_Z 0) with 0. field. lra. }
  assert (Hpos : k <> 0%Z -> 0 < inject_Z k / inject_Z n).
  { intros Hk0. apply Qlt_shift_div_l; [ exact HN | ].
    rewrite Qmult_0_l. change 0 with (inject_Z 0). rewrite <- Zlt_Qlt. lia. }
  assert (Hone : inject_Z k / inject_Z n < 1).
  { apply Qlt_shift_div_r; [ exact HN | ].
    rewrite Qmult_1_l, <- Zlt_Qlt. lia. }
  assert (Hlt : (2 * k < n)%Z -> inject_Z k / inject_Z n < 1#2).
  { intros H. apply Qlt_shift_div_r; [ exact HN | ].
    rewrite Zlt_Qlt, inject_Z_mult in H. change (inject_Z 2) with 2 in H.
    lra. }
  assert (Heq : (2 * k = n)%Z -> inject_Z k / inject_Z n == 1#2).
  { intros H. rewrite <- H, inject_Z_mult. change (inject_Z 2) with 2.
    field. intros E. rewrite <- H, inject_Z_mult in HN.
    change (inject_Z 2) with 2 in HN. lra. }
  assert (Hgt : (n < 2 * k)%Z -> 1#2 < inject_Z k / inject_Z n).
  { intros H. apply Qlt_shift_div_l; [ exact HN | ].
    rewrite Zlt_Qlt, inject_Z_mult in H. change (inject_Z 2) with 2 in H.
    lra. }
  unfold new_location, new_location_even, new_location_odd.
  destruct (Z.even n) eqn:Heven.
  - destruct (Z.eqb_spec k 0) as [E | E].
    + cbn [located]. rewrite (Hzero E). ring.
    + specialize (Hpos E).
      destruct (Z.compare_spec (2 * k) n) as [H | H | H]; cbn [located].
      * rewrite (Heq H). reflexivity.
      * specialize (Hlt H). lra.
      * specialize (Hgt H). lra.
  - destruct (Z.eqb_spec k 0) as [E | E].
    + cbn [located]. rewrite (Hzero E). ring.
    + specialize (Hpos E).
      assert (Hodd : (2 * k <> n)%Z).
      { intros H. rewrite <- H, Z.even_mul in Heven. discriminate. }
      destruct (Z.compare_spec (2 * k + 1) n) as [H | H | H];
        cbn [located].
      * assert (H' : (2 * k < n)%Z) by lia. specialize (Hlt H'). lra.
      * assert (H' : (2 * k < n)%Z) by lia. specialize (Hlt H'). lra.
      * assert (H' : (n < 2 * k)%Z) by lia. specialize (Hgt H'). lra.
Qed.

Lemma SFdiv_core_located (mx : positive) (ex : Z) (my : positive) (ey : Z)
    (q e' : Z) (l : location) :
  SFdiv_core_binary prec emax (Zpos mx) ex (Zpos my) ey = (q, e', l) ->
  (0 <= q)%Z
  /\ exists V,
       located q l V
       /\ V * pow2 e'
          == inject_Z (Zpos mx) * pow2 ex / (inject_Z (Zpos my) * pow2 ey).
Proof.
  unfold SFdiv_core_binary.
  set (e0 := Z.min (fexp prec emax
                      (Zdigits2 (Zpos mx) + ex - (Zdigits2 (Zpos my) + ey)))
               (ex - ey)).
  set (s := (ex - ey - e0)%Z).
  assert (Hs : (0 <= s)%Z) by (subst s e0; lia).
  set (m' := match s with
             | Zpos _ => Z.shiftl (Zpos mx) s
             | Z0 => Zpos mx
             | Zneg _ => 0%Z
             end).
  assert (Em : m' = (Zpos mx * 2 ^ s)%Z).
  { subst m'. destruct s as [| p | p]; [ lia | | lia ].
    apply Z.shiftl_mul_pow2. lia. }
  pose proof (Z_div_mod m' (Zpos my) ltac:(lia)) as Hdiv.
  destruct (Z.div_eucl m' (Zpos my)) as [q0 r0].
  destruct Hdiv as [Hm' Hr0].
  intros E. injection E as <- <- <-.
  assert (Hm'0 : (0 <= m')%Z).
  { rewrite Em. pose proof (Z.pow_pos_nonneg 2 s). lia. }
  assert (Hq0 : (0 <= q0)%Z) by nia.
  split; [ exact Hq0 | ].
  exists (inject_Z q0 + inject_Z r0 / inject_Z (Zpos my)).
  split; [ apply new_location_located; lia | ].
  pose proof (pow2_pos ex) as Hpx. pose proof (pow2_pos ey) as Hpy.
  pose proof (pow2_pos e0) as Hp0.
  assert (HMy : 0 < inject_Z (Zpos my)).
  { change 0 with (inject_Z 0). rewrite <- Zlt_Qlt. lia. }
  assert (Epow : pow2 ex == inject_Z (2 ^ s) * pow2 e0 * pow2 ey).
  { rewrite <- (pow2_Z s Hs), <- !pow2_plus. subst s.
    replace (ex - ey - e0 + e0 + ey)%Z with ex by lia. reflexivity. }
  assert (EM : inject_Z (Zpos mx) * inject_Z (2 ^ s)
               == inject_Z (Zpos my) * inject_Z q0 + inject_Z r0).
  { rewrite <- !inject_Z_mult, <- inject_Z_plus, <- Em, Hm'. reflexivity. }
  rewrite Epow.
  setoid_replace (inject_Z (Zpos mx)
                  * (inject_Z (2 ^ s) * pow2 e0 * pow2 ey)
                  / (inject_Z (Zpos my) * pow2 ey))
    with (inject_Z (Zpos mx) * inject_Z (2 ^ s) / inject_Z (Zpos my)
          * pow2 e0) by (field; split; lra).
  rewrite EM. field. lra.
Qed.

Lemma SFdiv_error (x y : spec_float) (s : bool) (mz : positive) (ez : Z) :
  SFdiv prec emax x y = S754_finite s mz ez ->
  ~ SF2Q y == 0
  /\ Qabs (SF2Q (S754_finite s mz ez) - SF2Q x / SF2Q y) <= pow2 ez.
Proof.
  destruct x as [sx | sx | | sx mx ex], y as [sy | sy | | sy my ey];
    cbn [SFdiv]; try discriminate.
  destruct (SFdiv_core_binary prec emax (Zpos mx) ex (Zpos my) ey)
    as [[q e'] l] eqn:Hcore.
  intros Hdiv.
  destruct (SFdiv_core_located _ _ _ _ _ _ _ Hcore) as (Hq & V & Hloc & EV).
  destruct (binary_round_aux_error (xorb sx sy) q e' l V s mz ez
              Hq Hloc Hdiv) as [-> Herr].
  pose proof (pow2_pos ex) as Hpx. pose proof (pow2_pos ey) as Hpy.
  assert (HMy : 0 < inject_Z (Zpos my)).
  { change 0 with (inject_Z 0). rewrite <- Zlt_Qlt. lia. }
  assert (Hy : ~ inject_Z (Zpos my) * pow2 ey == 0).
  { intros E. assert (0 < inject_Z (Zpos my) * pow2 ey)
      by (apply Qmult_lt_0_compat; assumption). lra. }
  split.
  - cbn [SF2Q]. destruct sy; cbn [cond_Zopp]; [ | exact Hy ].
    change (Z.opp (Zpos my)) with (- Zpos my)%Z. rewrite inject_Z_opp.
    intros E. apply Hy. lra.
  - rewrite EV in Herr. cbn [SF2Q].
    assert (E : inject_Z (cond_Zopp sx (Zpos mx)) * pow2 ex
                / (inject_Z (cond_Zopp sy (Zpos my)) * pow2 ey)
                == inject_Z (cond_Zopp (xorb sx sy) 1)
                   * (inject_Z (Zpos mx) * pow2 ex
                      / (inject_Z (Zpos my) * pow2 ey))).
    { destruct sx, sy; cbn [cond_Zopp xorb];
        change (Z.opp (Zpos mx)) with (- Zpos mx)%Z;
        change (Z.opp (Zpos my)) with (- Zpos my)%Z;
        change (Z.opp 1) with (- (1))%Z;
        rewrite ?inject_Z_opp; change (inject_Z 1) with 1;
        field; lra. }
    rewrite E.
    set (W := inject_Z (Zpos mx) * pow2 ex
              / (inject_Z (Zpos my) * pow2 ey)) in *.
    destruct (xorb sx sy); cbn [cond_Zopp].
    + change (Z.opp (Zpos mz)) with (- Zpos mz)%Z.
      change (Z.opp 1) with (- (1))%Z. rewrite !inject_Z_opp.
      change (inject_Z 1) with 1.
      setoid_replace (- inject_Z (Zpos mz) * pow2 ez - - (1) * W)
        with (- (inject_Z (Zpos mz) * pow2 ez - W)) by ring.
      rewrite Qabs_opp. exact Herr.
    + change (inject_Z 1) with 1.
      setoid_replace (inject_Z (Zpos mz) * pow2 ez - 1 * W)
        with (inject_Z (Zpos mz) * pow2 ez - W) by ring.
      exact Herr.
Qed.

(** Binary64 numbers *)

Lemma normal_number_spec (f : float) :
  normal_number f = true ->
  exists s m e,
    Prim2SF f = S754_finite s m e /\ Zpos (digits2_pos m) = prec.
Proof.
  unfold normal_number. rewrite classify_spec. unfold SF64classify, SFclassify.
  destruct (Prim2SF f) as [s | s | | s m e];
    try discriminate; try (destruct s; discriminate).
  intros H. exists s, m, e. split; [ reflexivity | ].
  destruct s; destruct (Z.eqb_spec (Zpos (digits2_pos m)) prec);
    try discriminate; assumption.
Qed.

Lemma mul_error (a b : float) :
  normal_number (a * b) = true ->
  Qabs (toQ (a * b) - toQ a * toQ b) <= epsilon * Qabs (toQ (a * b)).
Proof.
  intros Hn. destruct (normal_number_spec _ Hn) as (s & m & e & Hz & Hd).
  unfold toQ. rewrite Hz. rewrite mul_spec in Hz.
  apply (Qle_trans _ (pow2 e)).
  - apply SFmul_error. exact Hz.
  - apply normal_ulp. exact Hd.
Qed.

Lemma div_error (a b : float) :
  normal_number (a / b) = true ->
  ~ toQ b == 0
  /\ Qabs (toQ (a / b) - toQ a / toQ b) <= epsilon * Qabs (toQ (a / b)).
Proof.
  intros Hn. destruct (normal_number_spec _ Hn) as (s & m & e & Hz & Hd).
  unfold toQ. rewrite Hz. rewrite div_spec in Hz.
  destruct (SFdiv_error _ _ _ _ _ Hz) as [Hb Herr].
  split; [ exact Hb | ].
  apply (Qle_trans _ (pow2 e)); [ exact Herr | ].
  apply normal_ulp. exact Hd.
Qed.

(** Comparison *)

Lemma canonical_bounds (m : positive) (e : Z) :
  canonical_mantissa prec emax m e = true ->
  (Zpos m < 2 ^ 53)%Z /\ (-1074 <= e)%Z
  /\ ((-1074 < e)%Z -> (2 ^ 52 <= Zpos m)%Z).
Proof.
  unfold canonical_mantissa, fexp, SpecFloat.emin.
  change (3 - emax - prec)%Z with (-1074)%Z. change prec with 53%Z.
  intros H. apply Z.eqb_eq in H.
  pose proof (digits2_pos_bounds m) as [Hlow Hhigh].
  set (d := Zpos (digits2_pos m)) in *.
  assert (Hd : (0 < d)%Z) by (subst d; lia).
  split; [ | split ].
  - apply (Z.lt_le_trans _ _ _ Hhigh).
    apply Z.pow_le_mono_r; lia.
  - lia.
  - intros He. assert (Ed : d = 53%Z) by lia.
    rewrite Ed in Hlow. exact Hlow.
Qed.

Lemma finite_lt_exponent (m1 : positive) (e1 : Z) (m2 : positive) (e2 : Z) :
  canonical_mantissa prec emax m1 e1 = true ->
  canonical_mantissa prec emax m2 e2 = true ->
  (e1 < e2)%Z ->
  inject_Z (Zpos m1) * pow2 e1 < inject_Z (Zpos m2) * pow2 e2.
Proof.
  intros H1 H2 He.
  destruct (canonical_bounds _ _ H1) as (Hm1 & He1 & _).
  destruct (canonical_bounds _ _ H2) as (_ & _ & Hm2).
  specialize (Hm2 ltac:(lia)).
  rewrite Zlt_Qlt in Hm1. rewrite Zle_Qle in Hm2.
  change (inject_Z (2 ^ 53)) with (2 * inject_Z (2 ^ 52)) in Hm1.
  pose proof (pow2_pos e1) as Hp1.
  pose proof (pow2_le (e1 + 1) e2 ltac:(lia)) as Hp2.
  rewrite pow2_succ in Hp2.
  assert (H52 : 0 < inject_Z (2 ^ 52)) by reflexivity.
  set (A := inject_Z (Zpos m1)) in *. set (B := inject_Z (Zpos m2)) in *.
  set (C := inject_Z (2 ^ 52)) in *. set (P := pow2 e1) in *.
  set (R := pow2 e2) in *. clearbody A B C P R.
  apply (Qlt_le_trans _ (2 * C * P)).
  - apply Qmult_lt_compat_r; assumption.
  - apply (Qle_trans _ (C * R)).
    + setoid_replace (2 * C * P) with (C * (2 * P)) by ring.
      apply Qmult_le_l; assumption.
    + apply Qmult_le_compat_r; lra.
Qed.

Lemma finite_compare (m1 : positive) (e1 : Z) (m2 : positive) (e2 : Z) :
  canonical_mantissa prec emax m1 e1 = true ->
  canonical_mantissa prec emax m2 e2 = true ->
  (inject_Z (Zpos m1) * pow2 e1 ?= inject_Z (Zpos m2) * pow2 e2)
  = match Z.compare e1 e2 with
    | Lt => Lt
    | Gt => Gt
    | Eq => Pos.compare_cont Eq m1 m2
    end.
Proof.
  intros H1 H2.
  destruct (Z.compare_spec e1 e2) as [E | E | E].
  - subst e2. pose proof (pow2_pos e1) as Hp.
    change (Pos.compare_cont Eq m1 m2) with (Pos.compare m1 m2).
    destruct (Pos.compare_spec m1 m2) as [Em | Em | Em].
    + subst m2. apply (proj1 (Qeq_alt _ _)). reflexivity.
    + apply (proj1 (Qlt_alt _ _)). apply Qmult_lt_compat_r; [ exact Hp | ].
      rewrite <- Zlt_Qlt. lia.
    + apply (proj1 (Qgt_alt _ _)). apply Qmult_lt_compat_r; [ exact Hp | ].
      rewrite <- Zlt_Qlt. lia.
  - apply (proj1 (Qlt_alt _ _)). apply finite_lt_exponent; assumption.
  - apply (proj1 (Qgt_alt _ _)). apply finite_lt_exponent; assumption.
Qed.

Lemma finite_pos (m : positive) (e : Z) : 0 < inject_Z (Zpos m) * pow2 e.
Proof.
  apply Qmult_lt_0_compat; [ | apply pow2_pos ].
  change 0 with (inject_Z 0). rewrite <- Zlt_Qlt. lia.
Qed.

Lemma SF2Q_finite (s : bool) (m : positive) (e : Z) :
  SF2Q (S754_finite s m e)
  == if s then - (inject_Z (Zpos m) * pow2 e)
     else inject_Z (Zpos m) * pow2 e.
Proof.
  cbn [SF2Q]. destruct s; cbn [cond_Zopp]; [ | reflexivity ].
  change (Z.opp (Zpos m)) with (- Zpos m)%Z. rewrite inject_Z_opp. ring.
Qed.

Lemma Qcompare_opp (a b : Q) : (- a ?= - b) = CompOpp (a ?= b).
Proof.
  destruct (a ?= b) eqn:E; cbn [CompOpp].
  - apply (proj2 (Qeq_alt _ _)) in E. apply (proj1 (Qeq_alt _ _)).
    rewrite E. reflexivity.
  - apply (proj2 (Qlt_alt _ _)) in E. apply (proj1 (Qgt_alt _ _)). lra.
  - apply (proj2 (Qgt_alt _ _)) in E. apply (proj1 (Qlt_alt _ _)). lra.
Qed.

(** On numbers of the format that are neither NaN nor infinite,
    [SFcompare] is the comparison of the numbers they stand for. *)
Lemma SFcompare_SF2Q (x y : spec_float) :
  valid_binary x = true -> valid_binary y = true ->
  match x with S754_nan | S754_infinity _ => False | _ => True end ->
  match y with S754_nan | S754_infinity _ => False | _ => True end ->
  SFcompare x y = Some (SF2Q x ?= SF2Q y).
Proof.
  intros Hvx Hvy Hx Hy.
  destruct x as [sx | sx | | sx mx ex]; try contradiction;
    destruct y as [sy | sy | | sy my ey]; try contradiction;
    cbn [SFcompare]; f_equal; symmetry.
  - rewrite (Qcompare_comp _ _ (Qeq_refl _) _ _ (SF2Q_finite sy my ey)).
    pose proof (finite_pos my ey). cbn [SF2Q].
    destruct sy;
      [ apply (proj1 (Qgt_alt _ _)) | apply (proj1 (Qlt_alt _ _)) ]; lra.
  - rewrite (Qcompare_comp _ _ (SF2Q_finite sx mx ex) _ _ (Qeq_refl _)).
    pose proof (finite_pos mx ex). cbn [SF2Q].
    destruct sx;
      [ apply (proj1 (Qlt_alt _ _)) | apply (proj1 (Qgt_alt _ _)) ]; lra.
  - rewrite (Qcompare_comp _ _ (SF2Q_finite sx mx ex)
               _ _ (SF2Q_finite sy my ey)).
    pose proof (finite_pos mx ex). pose proof (finite_pos my ey).
    cbn [valid_binary] in Hvx, Hvy. unfold bounded in Hvx, Hvy.
    apply andb_true_iff in Hvx. apply andb_true_iff in Hvy.
    destruct Hvx as [Hcx _]. destruct Hvy as [Hcy _].
    destruct sx, sy.
    + rewrite Qcompare_opp, (finite_compare _ _ _ _ Hcx Hcy).
      destruct (Z.compare ex ey); reflexivity.
    + apply (proj1 (Qlt_alt _ _)). lra.
    + apply (proj1 (Qgt_alt _ _)). lra.
    + apply finite_compare; assumption.
Qed.

Lemma finite_number_spec (f : float) :
  finite_number f = true ->
  match Prim2SF f with S754_nan | S754_infinity _ => False | _ => True end.
Proof.
  unfold finite_number. rewrite classify_spec. unfold SF64classify, SFclassify.
  destruct (Prim2SF f) as [s | s | | s m e]; try (destruct s; discriminate);
    try discriminate; intros _; exact I.
Qed.

Lemma normal_number_finite (f : float) :
  normal_number f = true -> finite_number f = true.
Proof.
  unfold normal_number, finite_number. destruct (classify f); congruence.
Qed.

Lemma ltb_toQ (a b : float) :
  finite_number a = true -> finite_number b = true ->
  ((a <? b)%float = true -> toQ a < toQ b)
  /\ ((a <? b)%float = false -> toQ b <= toQ a).
Proof.
  intros Ha Hb. rewrite ltb_spec. unfold SFltb, toQ.
  rewrite (SFcompare_SF2Q _ _ (Prim2SF_valid a) (Prim2SF_valid b)
             (finite_number_spec a Ha) (finite_number_spec b Hb)).
  destruct (SF2Q (Prim2SF a) ?= SF2Q (Prim2SF b)) eqn:E;
    [ apply (proj2 (Qeq_alt _ _)) in E
    | apply (proj2 (Qlt_alt _ _)) in E
    | apply (proj2 (Qgt_alt _ _)) in E ];
    split; intros H; try discriminate; lra.
Qed.

(** Zero *)

Lemma zero_number_spec (f : float) :
  zero_number f = true <-> exists s, Prim2SF f = S754_zero s.
Proof.
  unfold zero_number. rewrite classify_spec. unfold SF64classify, SFclassify.
  destruct (Prim2SF f) as [s | s | | s m e].
  - split; [ intros _; exists s; reflexivity | destruct s; reflexivity ].
  - split; [ destruct s; discriminate | intros [? ?]; discriminate ].
  - split; [ discriminate | intros [? ?]; discriminate ].
  - split; [ | intros [? ?]; discriminate ].
    destruct s; destruct (Z.eqb _ _); discriminate.
Qed.

(** A zero divided and then multiplied by a finite number other than zero
    is a zero. *)
Lemma zero_div_mul (a b : float) :
  zero_number a = true -> finite_number b = true -> zero_number b = false ->
  zero_number (a / b * b) = true.
Proof.
  intros Ha Hb Hb0.
  apply zero_number_spec in Ha. destruct Ha as [sa Ea].
  apply finite_number_spec in Hb.
  assert (Hnz : ~ exists s, Prim2SF b = S754_zero s).
  { intros H. apply zero_number_spec in H. congruence. }
  apply zero_number_spec.
  rewrite mul_spec, div_spec, Ea.
  destruct (Prim2SF b) as [sb | sb | | sb mb eb]; try contradiction.
  - exfalso. apply Hnz. exists sb. reflexivity.
  - cbn. eexists. reflexivity.
Qed.

(** *** Binary64 arithmetic: several operations *)

(** Two operations in a row, each with a normal result. *)
Lemma two_operations (v K L z1 z2 : Q) :
  Qabs (z1 - v * K) <= epsilon * Qabs z1 ->
  Qabs (z2 - z1 * L) <= epsilon * Qabs z2 ->
  Qabs (z2 - v * K * L) <= epsilon2 * Qabs z2.
Proof.
  intros H1 H2.
  assert (T1 : Qabs (z2 - v * K * L)
               <= Qabs (z2 - z1 * L) + Qabs ((z1 - v * K) * L)).
  { setoid_replace (z2 - v * K * L)
      with ((z2 - z1 * L) + (z1 - v * K) * L) by ring.
    apply Qabs_triangle. }
  assert (T2 : Qabs ((z1 - v * K) * L) <= epsilon * Qabs (z1 * L)).
  { rewrite !Qabs_Qmult, Qmult_assoc.
    apply Qmult_le_compat_r; [ exact H1 | apply Qabs_nonneg ]. }
  assert (T3 : Qabs (z1 * L) <= Qabs z2 + Qabs (z2 - z1 * L)).
  { setoid_replace (z1 * L) with (z2 + (z1 * L - z2)) at 1 by ring.
    rewrite (Qabs_Qminus z2 (z1 * L)). apply Qabs_triangle. }
  pose proof (Qabs_nonneg z2) as Hz2.
  unfold epsilon2, epsilon in *.
  set (X := Qabs z2) in *. set (Y := Qabs (z1 * L)) in *.
  set (D := Qabs (z2 - z1 * L)) in *.
  set (E := Qabs ((z1 - v * K) * L)) in *.
  clearbody X Y D E. lra.
Qed.

(** A normal result of positive operands. *)
Lemma positive_result (z v : Q) :
  0 < v -> Qabs (z - v) <= epsilon * Qabs z ->
  0 < z /\ (1 - epsilon) * z <= v /\ v <= (1 + epsilon) * z.
Proof.
  intros Hv H. unfold epsilon in *.
  destruct (Qlt_le_dec 0 z) as [Hz | Hz].
  - rewrite (Qabs_pos z) in H by lra.
    apply Qabs_Qle_condition in H. lra.
  - rewrite (Qabs_neg z Hz) in H.
    apply Qabs_Qle_condition in H. lra.
Qed.

Lemma toQ_positive (a : float) :
  0 < toQ a ->
  finite_number a = true
  /\ exists m e, Prim2SF a = S754_finite false m e.
Proof.
  unfold toQ, finite_number. rewrite classify_spec.
  unfold SF64classify, SFclassify.
  destruct (Prim2SF a) as [s | s | | s m e]; cbn [SF2Q];
    try (intros H; exfalso; lra).
  intros H. pose proof (finite_pos m e) as Hpos.
  destruct s.
  - exfalso. cbn [cond_Zopp] in H.
    change (Z.opp (Zpos m)) with (- Zpos m)%Z in H.
    rewrite inject_Z_opp in H. lra.
  - split; [ destruct (Z.eqb _ _); reflexivity | ].
    exists m, e. reflexivity.
Qed.

(** A positive number minus itself, halved, is [+0]. *)
Lemma sub_diag_half (a : float) :
  0 < toQ a -> ((a - a) / 2 = 0)%float.
Proof.
  intros Ha. destruct (toQ_positive a Ha) as (_ & m & e & E).
  assert (Ez : (a - a)%float = 0%float).
  { apply Prim2SF_inj. rewrite sub_spec, E.
    unfold SF64sub, SFsub. rewrite Z.sub_diag. reflexivity. }
  rewrite Ez. reflexivity.
Qed.

(** *** Aspect fitting *)

(** The two branches of [containImageInBox], in exact arithmetic. *)
Lemma containImageInBox_wider (iw ih bw bh : Q) :
  bw / bh < iw / ih ->
  containImageInBox iw ih bw bh =
  mkFit bw (bw / (iw / ih)) ((bw - bw) / 2) ((bh - bw / (iw / ih)) / 2).
Proof.
  intros Hr. unfold containImageInBox; unfold_js.
  apply Qgtb_true in Hr. rewrite Hr. reflexivity.
Qed.

Lemma containImageInBox_taller (iw ih bw bh : Q) :
  iw / ih <= bw / bh ->
  containImageInBox iw ih bw bh =
  mkFit (bh * (iw / ih)) bh ((bw - bh * (iw / ih)) / 2) ((bh - bh) / 2).
Proof.
  intros Hr. unfold containImageInBox; unfold_js.
  apply Qgtb_false in Hr. rewrite Hr. reflexivity.
Qed.

Lemma Qdiv_pos (a b : Q) : 0 < a -> 0 < b -> 0 < a / b.
Proof.
  intros Ha Hb. apply Qlt_shift_div_l; [ assumption | lra ].
Qed.

(** In every arithmetic the offsets are the centring ones. *)
Lemma containImageInBox_centers (N : Type) (num : JsNumber N)
    (imgWidth imgHeight boxWidth boxHeight : N) :
  let f := containImageInBox imgWidth imgHeight boxWidth boxHeight in
  offsetX f = ((boxWidth - fitWidth f) / lit 2)%js /\
  offsetY f = ((boxHeight - fitHeight f) / lit 2)%js.
Proof.
  unfold containImageInBox.
  destruct (js_gt (js_div imgWidth imgHeight) (js_div boxWidth boxHeight));
    split; reflexivity.
Qed.

(** The binary64 reading of [containImageInBox]. *)
Lemma containImageInBox_binary64
    (assetWidth assetHeight boxWidth boxHeight : float) :
  let f := containImageInBox assetWidth assetHeight boxWidth boxHeight in
  let ratio := toQ assetWidth / toQ assetHeight in
  0 < toQ assetWidth -> 0 < toQ assetHeight ->
  0 < toQ boxWidth -> 0 < toQ boxHeight ->
  normal_number (assetWidth / assetHeight) = true ->
  normal_number (boxWidth / boxHeight) = true ->
  normal_number (fitWidth f) = true ->
  normal_number (fitHeight f) = true ->
  Qabs (toQ (fitWidth f) / toQ (fitHeight f) - ratio)
  <= 3 * epsilon * ratio
  /\ toQ (fitWidth f) <= (1 + 3 * epsilon) * toQ boxWidth
  /\ toQ (fitHeight f) <= (1 + 3 * epsilon) * toQ boxHeight
  /\ ((fitWidth f = boxWidth /\ offsetX f = 0%float)
      \/ (fitHeight f = boxHeight /\ offsetY f = 0%float)).
Proof.
  intros f ratio Hiw Hih Hbw Hbh HnA HnB Hnw Hnh.
  destruct (div_error _ _ HnA) as [_ EA].
  destruct (div_error _ _ HnB) as [_ EB].
  assert (Hratio : 0 < ratio) by (apply Qdiv_pos; assumption).
  assert (Hbox : 0 < toQ boxWidth / toQ boxHeight)
    by (apply Qdiv_pos; assumption).
  destruct (positive_result _ _ Hratio EA) as (HA & HA1 & HA2).
  destruct (positive_result _ _ Hbox EB) as (HB & HB1 & HB2).
  assert (Ebox : toQ boxWidth / toQ boxHeight * toQ boxHeight
                 == toQ boxWidth) by (field; lra).
  destruct (ltb_toQ (boxWidth / boxHeight) (assetWidth / assetHeight)
              (normal_number_finite _ HnB) (normal_number_finite _ HnA))
    as [Hlt Hge].
  subst f. unfold containImageInBox in *. unfold_js.
  set (A := toQ (assetWidth / assetHeight)) in *.
  set (B := toQ (boxWidth / boxHeight)) in *.
  set (b0 := toQ boxWidth / toQ boxHeight) in *.
  set (bw := toQ boxWidth) in *. set (bh := toQ boxHeight) in *.
  unfold epsilon in *.
  destruct (PrimFloat.ltb (boxWidth / boxHeight)
              (assetWidth / assetHeight)) eqn:Hcmp;
    cbn [fitWidth fitHeight offsetX offsetY] in *.
  - (* constrained by the width *)
    specialize (Hlt eq_refl). clear Hge.
    destruct (div_error _ _ Hnh) as [_ EH].
    fold bw A in EH.
    assert (Hq : 0 < bw / A) by (apply Qdiv_pos; assumption).
    destruct (positive_result _ _ Hq EH) as (HH & HH1 & HH2).
    unfold epsilon in *.
    set (H := toQ (boxWidth / (assetWidth / assetHeight))%float) in *.
    fold bw.
    assert (EHA : bw / A * A == bw) by (field; lra).
    assert (Hlow : (1 - (1 # 4503599627370496)) * (H * A) <= bw).
    { rewrite <- EHA, Qmult_assoc. apply Qmult_le_compat_r; lra. }
    assert (Hhigh : bw <= (1 + (1 # 4503599627370496)) * (H * A)).
    { rewrite <- EHA at 1. rewrite Qmult_assoc.
      apply Qmult_le_compat_r; lra. }
    assert (HHA : 0 < H * A) by (apply Qmult_lt_0_compat; assumption).
    assert (HHr : 0 < H * ratio) by (apply Qmult_lt_0_compat; assumption).
    assert (HAr1 : (1 - (1 # 4503599627370496)) * (H * A) <= H * ratio).
    { setoid_replace ((1 - (1 # 4503599627370496)) * (H * A))
        with (H * ((1 - (1 # 4503599627370496)) * A)) by ring.
      apply Qmult_le_l; assumption. }
    assert (HAr2 : H * ratio <= (1 + (1 # 4503599627370496)) * (H * A)).
    { setoid_replace ((1 + (1 # 4503599627370496)) * (H * A))
        with (H * ((1 + (1 # 4503599627370496)) * A)) by ring.
      apply Qmult_le_l; assumption. }
    split; [ | split; [ | split ] ].
    + apply Qabs_Qle_condition. split.
      * apply (Qplus_le_l _ _ ratio).
        setoid_replace (bw / H - ratio + ratio) with (bw / H) by ring.
        apply Qle_shift_div_l; [ exact HH | ].
        setoid_replace ((- (3 * (1 # 4503599627370496) * ratio) + ratio) * H)
          with ((1 - 3 * (1 # 4503599627370496)) * (H * ratio)) by ring.
        lra.
      * apply (Qplus_le_l _ _ ratio).
        setoid_replace (bw / H - ratio + ratio) with (bw / H) by ring.
        apply Qle_shift_div_r; [ exact HH | ].
        setoid_replace ((3 * (1 # 4503599627370496) * ratio + ratio) * H)
          with ((1 + 3 * (1 # 4503599627370496)) * (H * ratio)) by ring.
        lra.
    + lra.
    + (* fitHeight <= boxHeight up to rounding: A > B *)
      assert (HBh : bw <= (1 + (1 # 4503599627370496)) * (B * bh)).
      { rewrite <- Ebox at 1. rewrite Qmult_assoc.
        apply Qmult_le_compat_r; lra. }
      assert (HBA : B * bh <= A * bh) by (apply Qmult_le_compat_r; lra).
      assert (Hcancel : (1 - (1 # 4503599627370496)) * H * A
                        <= (1 + (1 # 4503599627370496)) * bh * A).
      { setoid_replace ((1 - (1 # 4503599627370496)) * H * A)
          with ((1 - (1 # 4503599627370496)) * (H * A)) by ring.
        setoid_replace ((1 + (1 # 4503599627370496)) * bh * A)
          with ((1 + (1 # 4503599627370496)) * (A * bh)) by ring.
        lra. }
      apply Qmult_le_r in Hcancel; [ | exact HA ]. lra.
    + left. split; [ reflexivity | ]. apply sub_diag_half. exact Hbw.
  - (* constrained by the height *)
    specialize (Hge eq_refl). clear Hlt.
    pose proof (mul_error _ _ Hnw) as EW.
    fold bh A in EW.
    assert (Hq : 0 < bh * A) by (apply Qmult_lt_0_compat; assumption).
    destruct (positive_result _ _ Hq EW) as (HW & HW1 & HW2).
    unfold epsilon in *.
    set (W := toQ (boxHeight * (assetWidth / assetHeight))%float) in *.
    fold bh.
    assert (HAr1 : (1 - (1 # 4503599627370496)) * (bh * A) <= bh * ratio).
    { setoid_replace ((1 - (1 # 4503599627370496)) * (bh * A))
        with (bh * ((1 - (1 # 4503599627370496)) * A)) by ring.
      apply Qmult_le_l; assumption. }
    assert (HAr2 : bh * ratio <= (1 + (1 # 4503599627370496)) * (bh * A)).
    { setoid_replace ((1 + (1 # 4503599627370496)) * (bh * A))
        with (bh * ((1 + (1 # 4503599627370496)) * A)) by ring.
      apply Qmult_le_l; assumption. }
    assert (Hbr : 0 < bh * ratio) by (apply Qmult_lt_0_compat; assumption).
    split; [ | split; [ | split ] ].
    + apply Qabs_Qle_condition. split.
      * apply (Qplus_le_l _ _ ratio).
        setoid_replace (W / bh - ratio + ratio) with (W / bh) by ring.
        apply Qle_shift_div_l; [ exact Hbh | ].
        setoid_replace ((- (3 * (1 # 4503599627370496) * ratio) + ratio)
                        * bh)
          with ((1 - 3 * (1 # 4503599627370496)) * (bh * ratio)) by ring.
        lra.
      * apply (Qplus_le_l _ _ ratio).
        setoid_replace (W / bh - ratio + ratio) with (W / bh) by ring.
        apply Qle_shift_div_r; [ exact Hbh | ].
        setoid_replace ((3 * (1 # 4503599627370496) * ratio + ratio) * bh)
          with ((1 + 3 * (1 # 4503599627370496)) * (bh * ratio)) by ring.
        lra.
    + (* fitWidth <= boxWidth up to rounding: A <= B *)
      assert (HAB : bh * A <= bh * B) by (apply Qmult_le_l; assumption).
      assert (HBw : (1 - (1 # 4503599627370496)) * (bh * B) <= bw).
      { rewrite <- Ebox.
        setoid_replace ((1 - (1 # 4503599627370496)) * (bh * B))
          with ((1 - (1 # 4503599627370496)) * B * bh) by ring.
        apply Qmult_le_compat_r; lra. }
      lra.
    + lra.
    + right. split; [ reflexivity | ]. apply sub_diag_half. exact Hbh.
Qed.

(** C5 (as stated): in binary64, fitting a 7 x 25 asset into a 7 x 25 box
    takes the branch that is constrained by the height and returns the width
    25 * (7 / 25) = 7.0000000000000009, which is larger than the width 7 of
    the box (and the horizontal offset is negative); and fitting a
    1e200 x 1e-200 asset into a box of the same size returns an infinite
    width, since the ratio of the asset is not a binary64 number. *)
Lemma containImageInBox_rounds_above_the_box :
  (let f := containImageInBox 7 25 7 25 in
   f = mkFit 7.0000000000000009 25 (-4.4408920985006262e-16) 0
   /\ PrimFloat.leb (fitWidth f) 7 = false
   /\ PrimFloat.ltb 7 (fitWidth f) = true
   /\ fitWidth (containImageInBox 1e200 1e-200 1e200 1e-200) = infinity
  )%float.
Proof.
  vm_compute. repeat split; reflexivity.
Qed.

(** In exact arithmetic the ratio of the fitted rectangle is that of the
    asset and the rectangle does not exceed the box: what the binary64
    results are compared with. *)
Lemma containImageInBox_exact
    (assetWidth assetHeight boxWidth boxHeight : Q) :
  0 < assetWidth -> 0 < assetHeight -> 0 < boxWidth -> 0 < boxHeight ->
  let f := containImageInBox assetWidth assetHeight boxWidth boxHeight in
  fitWidth f / fitHeight f == assetWidth / assetHeight
  /\ fitWidth f <= boxWidth
  /\ fitHeight f <= boxHeight
  /\ offsetX f == (boxWidth - fitWidth f) / 2
  /\ offsetY f == (boxHeight - fitHeight f) / 2.
Proof.
  intros Hiw Hih Hbw Hbh f.
  assert (Hir : 0 < assetWidth / assetHeight) by (apply Qdiv_pos; assumption).
  assert (Hne : ~ assetWidth == 0 /\ ~ assetHeight == 0 /\
                ~ boxWidth == 0 /\ ~ boxHeight == 0) by (repeat split; lra).
  destruct Hne as (Hiw0 & Hih0 & Hbw0 & Hbh0).
  destruct (Qlt_le_dec (boxWidth / boxHeight) (assetWidth / assetHeight))
    as [Hwide | Htall]; subst f.
  - rewrite (containImageInBox_wider _ _ _ _ Hwide); unfold_js.
    repeat split; try reflexivity; try lra.
    + field. repeat split; assumption.
    + (* boxWidth / ratio <= boxHeight, as boxWidth / boxHeight < ratio *)
      apply Qle_shift_div_r; [ assumption | ].
      apply Qlt_le_weak.
      apply (Qmult_lt_r _ _ boxHeight Hbh) in Hwide.
      assert (E : boxWidth / boxHeight * boxHeight == boxWidth)
        by (field; assumption).
      rewrite E in Hwide. rewrite Qmult_comm in Hwide. exact Hwide.
  - rewrite (containImageInBox_taller _ _ _ _ Htall); unfold_js.
    repeat split; try reflexivity; try lra.
    + field. repeat split; assumption.
    + (* boxHeight * ratio <= boxWidth, as ratio <= boxWidth / boxHeight *)
      apply (Qmult_le_r _ _ boxHeight Hbh) in Htall.
      assert (E : boxWidth / boxHeight * boxHeight == boxWidth)
        by (field; assumption).
      rewrite E in Htall. rewrite Qmult_comm. exact Htall.
Qed.

(** C5 (amended): the offsets are the centring ones,
    offsetX = (boxWidth - fitWidth) / 2 and
    offsetY = (boxHeight - fitHeight) / 2, as the arithmetic of the
    program computes them.  In binary64, for positive asset and box
    dimensions such that the two ratios and the two fitted dimensions are
    normal numbers (no overflow, no underflow), the ratio of the fitted
    dimensions differs from the ratio of the asset by at most 3 * 2^-52
    times that ratio, neither fitted dimension exceeds the box by more than
    3 * 2^-52 times the dimension of the box, and one fitted dimension is
    the dimension of the box itself, with offset 0. *)
Theorem containImageInBox_fits_and_centers :
  (forall (N : Type) (num : JsNumber N)
          (assetWidth assetHeight boxWidth boxHeight : N),
     let f := containImageInBox assetWidth assetHeight boxWidth boxHeight in
     offsetX f = ((boxWidth - fitWidth f) / lit 2)%js /\
     offsetY f = ((boxHeight - fitHeight f) / lit 2)%js)
  /\
  (forall assetWidth assetHeight boxWidth boxHeight : float,
     let f := containImageInBox assetWidth assetHeight boxWidth boxHeight in
     let ratio := toQ assetWidth / toQ assetHeight in
     0 < toQ assetWidth -> 0 < toQ assetHeight ->
     0 < toQ boxWidth -> 0 < toQ boxHeight ->
     normal_number (assetWidth / assetHeight) = true ->
     normal_number (boxWidth / boxHeight) = true ->
     normal_number (fitWidth f) = true ->
     normal_number (fitHeight f) = true ->
     Qabs (toQ (fitWidth f) / toQ (fitHeight f) - ratio)
     <= 3 * epsilon * ratio
     /\ toQ (fitWidth f) <= (1 + 3 * epsilon) * toQ boxWidth
     /\ toQ (fitHeight f) <= (1 + 3 * epsilon) * toQ boxHeight
     /\ ((fitWidth f = boxWidth /\ offsetX f = 0%float)
         \/ (fitHeight f = boxHeight /\ offsetY f = 0%float))).
Proof.
  split; [ exact containImageInBox_centers | ].
  exact containImageInBox_binary64.
Qed.

Lemma containImageInBox_fits_and_centers_witness :
  (let f := containImageInBox 300 100 178.5 84.2 in
   Qabs (toQ (fitWidth f) / toQ (fitHeight f) - toQ 300 / toQ 100)
   <= 3 * epsilon * (toQ 300 / toQ 100)
   /\ toQ (fitWidth f) <= (1 + 3 * epsilon) * toQ 178.5
   /\ toQ (fitHeight f) <= (1 + 3 * epsilon) * toQ 84.2)%float.
Proof.
  destruct (proj2 containImageInBox_fits_and_centers
              300 100 178.5 84.2)%float as (Hr & Hw & Hh & _);
    try (vm_compute; reflexivity).
  repeat split; assumption.
Defined.

(** *** Pixel round trip *)

(** In exact arithmetic the round trip is exact. *)
Lemma normalizedToBrowser_browserToNormalized_exact
    (browserX browserY browserWidth browserHeight
     containerWidth containerHeight : Q) :
  0 < containerWidth -> 0 < containerHeight ->
  rect_eq
    (normalizedToBrowser
       (browserToNormalized browserX browserY browserWidth browserHeight
          containerWidth containerHeight)
       containerWidth containerHeight)
    (mkRect browserX browserY browserWidth browserHeight).
Proof.
  intros Hw Hh.
  assert (Hw0 : ~ containerWidth == 0) by lra.
  assert (Hh0 : ~ containerHeight == 0) by lra.
  unfold rect_eq, normalizedToBrowser, browserToNormalized; unfold_js.
  repeat split; field; assumption.
Qed.

(** One coordinate in binary64: divided by the size of the container and
    multiplied by it again. *)
Lemma div_mul_round_trip (a c : float) :
  normal_number (a / c) = true -> normal_number (a / c * c) = true ->
  Qabs (toQ (a / c * c) - toQ a) <= epsilon2 * Qabs (toQ (a / c * c)).
Proof.
  intros H1 H2. destruct (div_error a c H1) as [Hc E1].
  pose proof (mul_error (a / c) c H2) as E2.
  setoid_replace (toQ a) with (toQ a * / toQ c * toQ c) at 1
    by (field; exact Hc).
  apply (two_operations _ _ _ (toQ (a / c))); assumption.
Qed.

(** C6 (as stated): in binary64 the round trip of the pixel coordinate
    1e308 through a container of width 0.5 returns Infinity, since the
    percentage 2e308 is not a binary64 number; and the round trip of the
    smallest positive number, 5e-324, through a container of width 2
    returns 0, since its half is rounded to 0. *)
Lemma round_trip_overflows_and_underflows :
  (let big := normalizedToBrowser
                (browserToNormalized 1e308 0 0 0 0.5 1) 0.5 1 in
   let small := normalizedToBrowser
                  (browserToNormalized 5e-324 0 0 0 2 1) 2 1 in
   x big = infinity
   /\ x small = 0
   /\ PrimFloat.ltb 0 5e-324 = true)%float.
Proof.
  vm_compute. repeat split; reflexivity.
Qed.

(** C6 (amended): in binary64, for every pixel rectangle and container,
    each coordinate of the rectangle returned by the round trip differs
    from the original coordinate by at most [epsilon2] = 2^-51 + 2^-104
    times its own magnitude, provided that the percentage computed for the
    coordinate and the coordinate returned are normal numbers (no
    overflow, no underflow); and a coordinate that is zero is returned as
    zero when the size of the container is finite and not zero. *)
Theorem normalizedToBrowser_browserToNormalized
    (browserX browserY browserWidth browserHeight
     containerWidth containerHeight : float) :
  let p := browserToNormalized browserX browserY browserWidth browserHeight
             containerWidth containerHeight in
  let r := normalizedToBrowser p containerWidth containerHeight in
  (normal_number (xPercent p) = true -> normal_number (x r) = true ->
   Qabs (toQ (x r) - toQ browserX) <= epsilon2 * Qabs (toQ (x r)))
  /\ (normal_number (yPercent p) = true -> normal_number (y r) = true ->
      Qabs (toQ (y r) - toQ browserY) <= epsilon2 * Qabs (toQ (y r)))
  /\ (normal_number (widthPercent p) = true ->
      normal_number (width r) = true ->
      Qabs (toQ (width r) - toQ browserWidth)
      <= epsilon2 * Qabs (toQ (width r)))
  /\ (normal_number (heightPercent p) = true ->
      normal_number (height r) = true ->
      Qabs (toQ (height r) - toQ browserHeight)
      <= epsilon2 * Qabs (toQ (height r)))
  /\ (finite_number containerWidth = true ->
      zero_number containerWidth = false ->
      (zero_number browserX = true -> zero_number (x r) = true)
      /\ (zero_number browserWidth = true ->
          zero_number (width r) = true))
  /\ (finite_number containerHeight = true ->
      zero_number containerHeight = false ->
      (zero_number browserY = true -> zero_number (y r) = true)
      /\ (zero_number browserHeight = true ->
          zero_number (height r) = true)).
Proof.
  cbv zeta. unfold normalizedToBrowser, browserToNormalized. unfold_js.
  repeat split; try (apply div_mul_round_trip);
    intros; apply zero_div_mul; assumption.
Qed.

Lemma normalizedToBrowser_browserToNormalized_witness :
  (let r := normalizedToBrowser
              (browserToNormalized 120.5 340 150 60.25 1366 729)
              1366 729 in
   Qabs (toQ (x r) - toQ 120.5) <= epsilon2 * Qabs (toQ (x r))
   /\ Qabs (toQ (height r) - toQ 60.25)
      <= epsilon2 * Qabs (toQ (height r)))%float.
Proof.
  destruct (normalizedToBrowser_browserToNormalized
              120.5 340 150 60.25 1366 729)%float
    as (Hx & _ & _ & Hh & _).
  split; [ apply Hx | apply Hh ]; vm_compute; reflexivity.
Defined.

(** *** The end-to-end scenario *)

(** C4 (as stated): on the 595 x 842 page the field
    { xPercent: 0.1, yPercent: 0.8, widthPercent: 0.3, heightPercent: 0.1 }
    does not get y = 0, and fitting the 300 x 100 asset into its rectangle
    does not give a vertical offset of zero; neither in binary64 nor in
    exact arithmetic. *)
Lemma end_to_end_y_and_offset_are_not_zero :
  (let r := transformToPdfCoordinates (mkPosition 0.1 0.8 0.3 0.1) 595 842 in
   r <> mkRect 59.5 0 178.5 84.2
   /\ PrimFloat.eqb (y r) 0 = false
   /\ PrimFloat.eqb
        (offsetY (containImageInBox 300 100 (width r) (height r))) 0
      = false)%float
  /\
  let r := transformToPdfCoordinates
             (mkPosition (1#10) (8#10) (3#10) (1#10)) 595 842 in
  ~ y r == 0
  /\ ~ offsetY (containImageInBox 300 100 (width r) (height r)) == 0.
Proof.
  split; cbv zeta.
  - split; [ | split; vm_compute; reflexivity ].
    intros E. apply (f_equal (fun r => PrimFloat.eqb (y r) 0%float)) in E.
    vm_compute in E. discriminate E.
  - split; vm_compute; congruence.
Qed.

(** C4 (amended): the target rectangle is
    { x: 59.5, y: 84.2, width: 178.5, height: 84.2 } and the 300 x 100
    asset, whose ratio 3 is larger than the ratio of the box, is fitted to
    the full width 178.5 with height 59.5, horizontal offset 0 and vertical
    offset 12.35.  In binary64 y is 84.199999999999974 and the offset
    12.350000000000001. *)
Theorem end_to_end_scenario :
  (let r := transformToPdfCoordinates (mkPosition 0.1 0.8 0.3 0.1) 595 842 in
   r = mkRect 59.5 84.199999999999974 178.5 84.200000000000003
   /\ containImageInBox 300 100 (width r) (height r)
      = mkFit (width r) 59.5 0 12.350000000000001)%float
  /\
  let r := transformToPdfCoordinates
             (mkPosition (1#10) (8#10) (3#10) (1#10)) 595 842 in
  let f := containImageInBox 300 100 (width r) (height r) in
  rect_eq r (mkRect (119#2) (421#5) (357#2) (421#5))
  /\ fitWidth f == width r
  /\ fitHeight f == 119#2
  /\ offsetX f == 0
  /\ offsetY f == 247#20.
Proof.
  split; cbv zeta.
  - split; vm_compute; reflexivity.
  - unfold rect_eq. repeat split; vm_compute; reflexivity.
Qed.

(** *** Degenerate containers and boxes *)

Lemma Prim2SF_zero : Prim2SF PrimFloat.zero = S754_zero false.
Proof. vm_compute. reflexivity. Qed.

(** In binary64 a quotient by zero is NaN or infinite, whatever the
    dividend. *)
Lemma div_by_zero_not_finite (a z : float) :
  PrimFloat.is_zero z = true -> not_finite (PrimFloat.div a z) = true.
Proof.
  unfold PrimFloat.is_zero. rewrite eqb_spec, Prim2SF_zero.
  intros Hz.
  unfold not_finite, PrimFloat.is_nan, PrimFloat.is_infinity.
  rewrite !eqb_spec, abs_spec, div_spec.
  destruct (Prim2SF z) as [sz | sz | | sz mz ez].
  - destruct (Prim2SF a) as [sa | sa | | sa ma ea], sz;
      try destruct sa; vm_compute; reflexivity.
  - destruct sz; discriminate Hz.
  - discriminate Hz.
  - destruct sz; discriminate Hz.
Qed.

(** C7 (as stated): with a container of width and height 0 the conversion
    returns a record whose four components are infinite, and the aspect fit
    of an asset of height 0 or into a box of height 0 returns a record
    (with NaN components for a 0 x 0 asset): nothing is rejected. *)
Lemma degenerate_inputs_are_not_rejected :
  (browserToNormalized 10 20 30 40 0 0
     = mkPosition infinity infinity infinity infinity
   /\ containImageInBox 0 0 100 50 = mkFit nan 50 nan 0
   /\ containImageInBox 300 0 100 50 = mkFit 100 0 0 25
   /\ containImageInBox 300 100 100 0 = mkFit 0 0 50 0)%float.
Proof.
  vm_compute. repeat split; reflexivity.
Qed.

(** C7 (amended): the conversion checks nothing; it returns the four
    binary64 quotients, and when the container width (height) is zero the
    horizontal (vertical) components are NaN or infinite.  The aspect fit
    checks nothing either: for an asset of height 0 or a box of height 0 it
    returns the rectangle its formulas give. *)
Theorem browserToNormalized_zero_container
    (browserX browserY browserWidth browserHeight
     containerWidth containerHeight : float) :
  let r := browserToNormalized browserX browserY browserWidth browserHeight
             containerWidth containerHeight in
  r = (mkPosition
         (browserX / containerWidth) (browserY / containerHeight)
         (browserWidth / containerWidth)
         (browserHeight / containerHeight))%float
  /\ (PrimFloat.is_zero containerWidth = true ->
      not_finite (xPercent r) = true /\ not_finite (widthPercent r) = true)
  /\ (PrimFloat.is_zero containerHeight = true ->
      not_finite (yPercent r) = true /\ not_finite (heightPercent r) = true)
  /\ (containImageInBox 300 0 100 50 = mkFit 100 0 0 25
      /\ containImageInBox 300 100 100 0 = mkFit 0 0 50 0
      /\ containImageInBox 0 0 100 50 = mkFit nan 50 nan 0)%float.
Proof.
  cbv zeta. split; [ reflexivity | ].
  split; [ | split ].
  - intros Hz. split; apply div_by_zero_not_finite; exact Hz.
  - intros Hz. split; apply div_by_zero_not_finite; exact Hz.
  - vm_compute. repeat split; reflexivity.
Qed.

Lemma browserToNormalized_zero_container_witness :
  (let r := browserToNormalized 10 20 30 40 0 0 in
   not_finite (xPercent r) = true /\ not_finite (widthPercent r) = true
   /\ not_finite (yPercent r) = true
   /\ not_finite (heightPercent r) = true)%float.
Proof.
  destruct (browserToNormalized_zero_container 10 20 30 40 0 0)
    as (_ & Hw & Hh & _).
  destruct (Hw eq_refl) as [Hx Hwd]. destruct (Hh eq_refl) as [Hy Hht].
  repeat split; assumption.
Defined.

(** *** The signing handler *)

Import Backend.

Section Signing.
Context {N : Type} {num : JsNumber N} {platform : Platform N}.
Local Close Scope Q_scope.
Local Open Scope string_scope.
Local Open Scope list_scope.

(** The loop stops at the first field whose embedding throws. *)
Lemma embedFields_stops (pdfDoc pdfDoc' : PDFDocument)
    (before : list (Field N)) (field : Field N) (after : list (Field N)) :
  embedFields pdfDoc before = Some pdfDoc' ->
  embedField pdfDoc' field = None ->
  embedFields pdfDoc (before ++ field :: after) = None.
Proof.
  revert pdfDoc. induction before as [| f before IH]; intros pdfDoc Hb Hf.
  - cbn in Hb. injection Hb as ->. cbn. rewrite Hf. reflexivity.
  - cbn in Hb |- *.
    destruct (embedField pdfDoc f) as [d |]; [ | discriminate ].
    apply IH; assumption.
Qed.

(** An image that the decoder refuses makes the embedding of its field
    throw. *)
Lemma embedField_undecodable_image (pdfDoc : PDFDocument) (field : Field N)
    (base64Data : string) :
  fieldType field = signature \/ fieldType field = image ->
  value field = VString base64Data ->
  embedPng pdfDoc (Buffer_from_base64 (strip_data_url base64Data)) = None ->
  embedJpg pdfDoc (Buffer_from_base64 (strip_data_url base64Data)) = None ->
  embedField pdfDoc field = None.
Proof.
  intros Hty Hv Hpng Hjpg. unfold embedField.
  destruct (getSize pdfDoc (pageNumber (position field) - 1))
    as [[w h] |]; [ | reflexivity ].
  assert (E : embedImage pdfDoc (pageNumber (position field) - 1)
                (value field)
                (transformToPdfCoordinates (percent (position field)) w h)
              = None).
  { unfold embedImage. rewrite Hv.
    destruct (includes base64Data "image/png");
      [ rewrite Hpng | rewrite Hjpg ]; reflexivity. }
  destruct Hty as [-> | ->]; exact E.
Qed.

(** C10: when the embedding of one field throws, the signing request is
    answered with the error 500 and leaves the store as it was: no file is
    written, the document record keeps its status, signedFileUrl and
    signedHash, and the audit log gets no record. *)
Theorem signPdf_aborts_when_a_field_fails
    (meta : Meta) (documentId : ObjectId) (st : State N)
    (document : Document N) (pdfBuffer : Buffer)
    (pdfDoc pdfDoc' : PDFDocument)
    (before : list (Field N)) (field : Field N) (after : list (Field N)) :
  lookup_document st documentId = Some document ->
  valued_fields st documentId = before ++ field :: after ->
  files st (originalFileUrl document) = Some pdfBuffer ->
  PDFDocument_load pdfBuffer = Some pdfDoc ->
  embedFields pdfDoc before = Some pdfDoc' ->
  embedField pdfDoc' field = None ->
  signPdf meta documentId st = (st, failed_to_sign).
Proof.
  intros Hdoc Hfields Hfile Hload Hbefore Hfail.
  unfold signPdf, try_catch, bind, ret, orThrow, get_state,
    Document_findById, Field_find_valued, fs_readFileSync.
  cbn. rewrite Hdoc. cbn. rewrite Hfields.
  rewrite length_app. cbn. rewrite Nat.add_succ_r. cbn.
  rewrite Hfile. cbn. rewrite Hload. cbn.
  rewrite (embedFields_stops _ _ _ _ _ Hbefore Hfail). reflexivity.
Qed.

End Signing.

Lemma signPdf_aborts_when_a_field_fails_witness :
  signPdf (platform := Toy.platform) Toy.meta 0%nat
    Toy.undecodable_signature
  = (Toy.undecodable_signature, failed_to_sign).
Proof.
  pose (st := Toy.undecodable_signature).
  apply (signPdf_aborts_when_a_field_fails (platform := Toy.platform)
           Toy.meta 0%nat st
           (hd (Toy.blank_document) (documents st))
           (content Toy.pdf)
           (content Toy.pdf)
           (content Toy.pdf ++ [x54])%list
           (firstn 1 (fields st))
           (nth 1 (fields st) Toy.blank_field)
           []);
    vm_compute; reflexivity.
Defined.

(** *** Invariants of the store *)

(** Unfolds the operations on the store; then splits on the branches of a
    handler, innermost first. *)
Ltac run_handler :=
  unfold try_catch, bind, ret, throw, orThrow, json, get_state,
    Document_findById, Field_findById, Field_find_valued,
    Field_findByIdAndDelete, fs_readFileSync, fs_writeFileSync, uuidv4,
    new_ObjectId, set_documents, set_fields, Document_create, Document_save,
    Document_findByIdAndUpdate, Field_create, Field_save, AuditLog_create;
  cbn.

Ltac split_cases :=
  repeat match goal with
  | |- context [match ?c with _ => _ end] =>
      lazymatch c with
      | context [match _ with _ => _ end] => fail
      | _ => destruct c eqn:?; cbn
      end
  end.

Section Invariants.
Context {N : Type} {num : JsNumber N} {platform : Platform N}.
Local Close Scope Q_scope.
Local Open Scope string_scope.
Local Open Scope list_scope.

Lemma Path_eqb_refl (p : Path) : Path_eqb p p = true.
Proof.
  destruct p; cbn; rewrite ?Nat.eqb_refl, ?String.eqb_refl; reflexivity.
Qed.

Lemma Path_eqb_older (uuid uuid' : nat) (name name' : string) :
  uuid < uuid' ->
  Path_eqb (UploadsPath uuid name) (UploadsPath uuid' name') = false.
Proof.
  intros Hlt. cbn. destruct (Nat.eqb_spec uuid uuid'); [ lia | reflexivity ].
Qed.

(** The shape of every change a handler makes to the store: files that
    were handed out keep their content, counters grow, documents keep their
    identifier, original and digest, at most one document is added, and the
    log is extended. *)
Lemma chain_invariant_step (st st' : State N)
    (g : Document N -> Document N) (added : list (Document N))
    (logs : list (AuditLog N)) :
  chain_invariant st ->
  (forall uuid name, uuid < next_uuid st ->
     files st' (UploadsPath uuid name) = files st (UploadsPath uuid name)) ->
  next_uuid st <= next_uuid st' ->
  next_oid st <= next_oid st' ->
  (forall d, In d (documents st) ->
     doc_id (g d) = doc_id d /\
     originalFileUrl (g d) = originalFileUrl d /\
     originalHash (g d) = originalHash d) ->
  documents st' = map g (documents st) ++ added ->
  (forall d, In d added ->
     document_stored st' d /\ next_oid st <= doc_id d < next_oid st') ->
  List.length added <= 1 ->
  auditLogs st' = auditLogs st ++ logs ->
  (forall r, In r logs -> log_entry_ok st' r) ->
  chain_invariant st'.
Proof.
  intros [Hstored Hfresh Hid Hlogs] Hfiles Huuid Hoid Hg Hdocs Hadded
    Hone Hlog Hnew.
  assert (Hin : forall d, In d (documents st) -> In (g d) (documents st')).
  { intros d Hd. rewrite Hdocs. apply in_or_app. left.
    apply in_map. exact Hd. }
  split.
  - (* documents_stored *)
    intros d' Hd'. rewrite Hdocs in Hd'. apply in_app_or in Hd'.
    destruct Hd' as [Hd' | Hd']; [ | apply Hadded; exact Hd' ].
    apply in_map_iff in Hd'. destruct Hd' as (d & <- & Hd).
    destruct (Hstored d Hd) as (uuid & name & buffer & Hu & Hlt & Hf & Hh).
    destruct (Hg d Hd) as (_ & Hurl & Hhash).
    exists uuid, name, buffer. rewrite Hurl, Hhash, (Hfiles _ _ Hlt).
    repeat split; try assumption. lia.
  - (* documents_fresh *)
    intros d' Hd'. rewrite Hdocs in Hd'. apply in_app_or in Hd'.
    destruct Hd' as [Hd' | Hd']; [ | apply Hadded in Hd'; lia ].
    apply in_map_iff in Hd'. destruct Hd' as (d & <- & Hd).
    destruct (Hg d Hd) as (-> & _). specialize (Hfresh d Hd). lia.
  - (* documents_by_id *)
    intros d1' d2' H1 H2 E. rewrite Hdocs in H1, H2.
    apply in_app_or in H1. apply in_app_or in H2.
    destruct H1 as [H1 | H1], H2 as [H2 | H2].
    + apply in_map_iff in H1. destruct H1 as (d1 & <- & Hd1).
      apply in_map_iff in H2. destruct H2 as (d2 & <- & Hd2).
      destruct (Hg d1 Hd1) as (E1 & _). destruct (Hg d2 Hd2) as (E2 & _).
      rewrite E1, E2 in E. rewrite (Hid d1 d2 Hd1 Hd2 E). reflexivity.
    + apply in_map_iff in H1. destruct H1 as (d1 & <- & Hd1).
      destruct (Hg d1 Hd1) as (E1 & _). specialize (Hfresh d1 Hd1).
      apply Hadded in H2. lia.
    + apply in_map_iff in H2. destruct H2 as (d2 & <- & Hd2).
      destruct (Hg d2 Hd2) as (E2 & _). specialize (Hfresh d2 Hd2).
      apply Hadded in H1. lia.
    + destruct added as [| a [| b added]]; cbn in Hone; try lia.
      * destruct H1.
      * destruct H1 as [<- | []]. destruct H2 as [<- | []]. reflexivity.
  - (* log_entries_ok *)
    intros r Hr. rewrite Hlog in Hr. apply in_app_or in Hr.
    destruct Hr as [Hr | Hr]; [ | apply Hnew; exact Hr ].
    specialize (Hlogs r Hr). unfold log_entry_ok in *.
    destruct (action r); try exact Hlogs.
    + destruct Hlogs as (Hb & d & Hd & Hi & Ha). split; [ exact Hb | ].
      destruct (Hg d Hd) as (E1 & _ & E3).
      exists (g d). rewrite E1, E3. auto.
    + destruct Hlogs as (d & h & Hd & Hi & Hb & Ha).
      destruct (Hg d Hd) as (E1 & _ & E3).
      exists (g d), h. rewrite E1, E3. auto.
Qed.

(** The same, when the documents are left alone. *)
Lemma chain_invariant_documents_kept (st st' : State N)
    (logs : list (AuditLog N)) :
  chain_invariant st ->
  files st' = files st ->
  next_uuid st <= next_uuid st' ->
  next_oid st <= next_oid st' ->
  documents st' = documents st ->
  auditLogs st' = auditLogs st ++ logs ->
  (forall r, In r logs ->
     documentHashBefore r = None /\ documentHashAfter r = None /\
     action r <> uploaded /\ action r <> signed) ->
  chain_invariant st'.
Proof.
  intros Hinv Hfiles Huuid Hoid Hdocs Hlog Hnew.
  apply (chain_invariant_step st st' (fun d => d) [] logs); auto.
  - intros uuid name _. rewrite Hfiles. reflexivity.
  - rewrite map_id, app_nil_r. exact Hdocs.
  - intros d [].
  - intros r Hr. destruct (Hnew r Hr) as (Hb & Ha & Hu & Hs).
    unfold log_entry_ok. destruct (action r); auto; congruence.
Qed.

Ltac plain_log_entry :=
  let r := fresh "r" in
  intros r [<- | []]; cbn; repeat split; congruence.

Ltac documents_kept st :=
  match goal with
  | |- chain_invariant {| auditLogs := auditLogs st ++ ?logs |} =>
      apply (chain_invariant_documents_kept st _ logs); cbn;
      [ assumption | reflexivity | lia | lia | reflexivity
      | reflexivity | plain_log_entry ]
  | |- chain_invariant {| auditLogs := auditLogs st |} =>
      apply (chain_invariant_documents_kept st _ []); cbn;
      [ assumption | reflexivity | lia | lia | reflexivity
      | symmetry; apply app_nil_r | intros ? [] ]
  end.

Lemma createField_keeps_chain (meta : Meta) (req : CreateFieldBody N)
    (st : State N) :
  chain_invariant st -> chain_invariant (fst (createField meta req st)).
Proof.
  intros Hinv. unfold createField. run_handler. split_cases.
  all: try exact Hinv.
  match goal with
  | |- chain_invariant
         {| documents := map ?g _; auditLogs := _ ++ ?logs |} =>
      apply (chain_invariant_step st _ g [] logs); cbn
  end.
  - exact Hinv.
  - reflexivity.
  - lia.
  - lia.
  - intros d0 _. destruct (Nat.eqb (doc_id d0) (req_documentId req));
      cbn; auto.
  - symmetry. apply app_nil_r.
  - intros d0 [].
  - lia.
  - reflexivity.
  - plain_log_entry.
Qed.

Lemma updateField_keeps_chain (meta : Meta) (id : ObjectId)
    (req : UpdateFieldBody N) (st : State N) :
  chain_invariant st -> chain_invariant (fst (updateField meta id req st)).
Proof.
  intros Hinv. unfold updateField. run_handler. split_cases.
  all: try exact Hinv.
  all: documents_kept st.
Qed.

Lemma deleteField_keeps_chain (meta : Meta) (id : ObjectId) (st : State N) :
  chain_invariant st -> chain_invariant (fst (deleteField meta id st)).
Proof.
  intros Hinv. unfold deleteField. run_handler. split_cases.
  all: try exact Hinv.
  all: documents_kept st.
Qed.

Lemma setFieldValue_keeps_chain (meta : Meta) (id : ObjectId)
    (v : FieldValue) (st : State N) :
  chain_invariant st -> chain_invariant (fst (setFieldValue meta id v st)).
Proof.
  intros Hinv. unfold setFieldValue. run_handler. split_cases.
  all: try exact Hinv.
  all: documents_kept st.
Qed.

Ltac old_files :=
  let Hlt := fresh "Hlt" in
  intros ? ? Hlt; cbn;
  match goal with
  | |- context [Nat.eqb ?a ?b] =>
      destruct (Nat.eqb_spec a b); [ lia | reflexivity ]
  end.

Lemma upload_keeps_chain (meta : Meta) (file : option UploadedFile)
    (st : State N) :
  chain_invariant st -> chain_invariant (fst (upload meta file st)).
Proof.
  intros Hinv. unfold upload.
  destruct file as [f |]; [ | exact Hinv ].
  destruct (negb (String.eqb _ _)); [ exact Hinv | ].
  destruct (Z.leb _ _); [ exact Hinv | ].
  run_handler. rewrite !Nat.eqb_refl, !String.eqb_refl. cbn.
  split_cases.
  - (* the document is created *)
    match goal with
    | |- chain_invariant
           {| documents := _ ++ ?added; auditLogs := _ ++ ?logs |} =>
        apply (chain_invariant_step st _ (fun d => d) added logs); cbn
    end.
    + exact Hinv.
    + old_files.
    + lia.
    + lia.
    + auto.
    + rewrite map_id. reflexivity.
    + intros d [<- | []]. cbn. split; [ | lia ].
      exists (next_uuid st), (originalname f), (content f). cbn.
      rewrite !Nat.eqb_refl, !String.eqb_refl. cbn.
      repeat split; try reflexivity. lia.
    + lia.
    + reflexivity.
    + intros r [<- | []]. unfold log_entry_ok. cbn.
      split; [ reflexivity | ]. eexists. split.
      * apply in_or_app. right. left. reflexivity.
      * cbn. split; reflexivity.
  - (* collecting the pages throws: the file stays *)
    apply (chain_invariant_step st _ (fun d => d) [] []); cbn; auto.
    + old_files.
    + rewrite map_id, app_nil_r. reflexivity.
    + intros d [].
    + symmetry. apply app_nil_r.
    + intros r [].
  - (* loading throws: the file stays *)
    apply (chain_invariant_step st _ (fun d => d) [] []); cbn; auto.
    + old_files.
    + rewrite map_id, app_nil_r. reflexivity.
    + intros d [].
    + symmetry. apply app_nil_r.
    + intros r [].
Qed.

Lemma lookup_document_In (st : State N) (id : ObjectId) (d : Document N) :
  lookup_document st id = Some d -> In d (documents st) /\ doc_id d = id.
Proof.
  intros Hfind. apply find_some in Hfind. destruct Hfind as [Hin Heq].
  apply Nat.eqb_eq in Heq. split; assumption.
Qed.

Lemma signPdf_keeps_chain (meta : Meta) (documentId : ObjectId)
    (st : State N) :
  chain_invariant st -> chain_invariant (fst (signPdf meta documentId st)).
Proof.
  intros Hinv. unfold signPdf. run_handler.
  destruct (lookup_document st documentId) as [document |] eqn:Hdoc; cbn;
    [ | exact Hinv ].
  destruct (Nat.eqb _ 0); cbn; [ exact Hinv | ].
  destruct (files st (originalFileUrl document)) as [pdfBuffer |] eqn:Hfile;
    cbn; [ | exact Hinv ].
  split_cases.
  all: try exact Hinv.
  apply lookup_document_In in Hdoc. destruct Hdoc as [Hin Hid].
  match goal with
  | |- chain_invariant
         {| documents := map ?g _; auditLogs := _ ++ ?logs |} =>
      apply (chain_invariant_step st _ g [] logs); cbn
  end.
  - exact Hinv.
  - reflexivity.
  - lia.
  - lia.
  - intros d Hd. destruct (Nat.eqb_spec (doc_id d) (doc_id document)) as [E |];
      [ | auto ].
    rewrite (documents_by_id st Hinv d document Hd Hin E). cbn. auto.
  - symmetry. apply app_nil_r.
  - intros d [].
  - lia.
  - reflexivity.
  - intros r [<- | []]. unfold log_entry_ok. cbn.
    destruct (documents_stored st Hinv document Hin)
      as (uuid & name & buffer & Hurl & _ & Hstored & Hhash).
    rewrite Hurl, Hstored in Hfile. injection Hfile as <-.
    eexists. eexists. split.
    + refine (in_map _ _ _ Hin).
    + cbn. rewrite Nat.eqb_refl. cbn. rewrite Hhash. auto.
Qed.

(** Every request keeps the invariant, and the empty store has it. *)
Lemma handle_keeps_chain (req : Request N) (st : State N) :
  chain_invariant st -> chain_invariant (fst (handle req st)).
Proof.
  destruct req; cbn.
  - apply upload_keeps_chain.
  - apply createField_keeps_chain.
  - apply updateField_keeps_chain.
  - apply deleteField_keeps_chain.
  - apply setFieldValue_keeps_chain.
  - apply signPdf_keeps_chain.
Qed.

Lemma chain_invariant_empty : chain_invariant (empty_state (N := N)).
Proof.
  split; cbn; intros; contradiction.
Qed.

Lemma serve_keeps_chain (reqs : list (Request N)) (st : State N) :
  chain_invariant st -> chain_invariant (serve st reqs).
Proof.
  revert st. induction reqs as [| req reqs IH]; intros st Hinv; cbn.
  - exact Hinv.
  - apply IH. apply handle_keeps_chain. exact Hinv.
Qed.
End Invariants.

(** *** The hash chain *)

Section HashChain.
Context {N : Type} {num : JsNumber N} {platform : Platform N}.
Local Close Scope Q_scope.
Local Open Scope string_scope.
Local Open Scope list_scope.

(** In a store that has the invariant, a record that is not a 'signed' one
    is linked to every record of the same document. *)
Lemma linked_unless_signed (st : State N) (r1 r2 : AuditLog N) :
  chain_invariant st ->
  In r1 (auditLogs st) -> In r2 (auditLogs st) ->
  log_documentId r1 = log_documentId r2 ->
  action r1 <> signed ->
  linked r1 r2 = true.
Proof.
  intros Hinv H1 H2 Hsame Hns.
  pose proof (log_entries_ok st Hinv r1 H1) as Hr1.
  pose proof (log_entries_ok st Hinv r2 H2) as Hr2.
  unfold log_entry_ok in Hr1, Hr2. unfold linked.
  destruct (action r1); try congruence;
    try (destruct Hr1 as (_ & ->); reflexivity).
  (* r1 is the 'uploaded' record *)
  destruct Hr1 as (_ & d1 & Hd1 & Hi1 & ->).
  destruct (action r2);
    try (destruct Hr2 as (-> & _); reflexivity).
  destruct Hr2 as (d2 & h & Hd2 & Hi2 & -> & _).
  assert (E : d1 = d2)
    by (apply (documents_by_id st Hinv); congruence).
  rewrite E. apply String.eqb_refl.
Qed.

Lemma chain_linked_all (log : list (AuditLog N)) :
  (forall r1 r2, In r1 log -> In r2 log -> linked r1 r2 = true) ->
  chain_linked log = true.
Proof.
  induction log as [| a log IH]; intros Hall; [ reflexivity | ].
  cbn. destruct log as [| b log]; [ reflexivity | ].
  rewrite (Hall a b) by (cbn; auto). cbn.
  apply IH. intros r1 r2 H1 H2. apply Hall; right; assumption.
Qed.

Lemma chain_linked_prefix (log : list (AuditLog N)) (last : AuditLog N) :
  (forall r1 r2, In r1 log -> In r2 (log ++ [last]) -> linked r1 r2 = true) ->
  chain_linked (log ++ [last]) = true.
Proof.
  induction log as [| a log IH]; intros Hall; [ reflexivity | ].
  assert (Hin : forall z, In z (log ++ [last]) ->
                  In z ((a :: log) ++ [last]))
    by (intros z Hz; right; exact Hz).
  assert (IH' : chain_linked (log ++ [last]) = true).
  { apply IH. intros r1 r2 H1 H2. apply Hall; [ right; exact H1 | auto ]. }
  cbn [app]. destruct (log ++ [last]) as [| b rest]; [ reflexivity | ].
  cbn. cbn in IH'. rewrite IH'.
  rewrite (Hall a b); [ reflexivity | left; reflexivity | ].
  apply Hin. left. reflexivity.
Qed.

(** C2 (amended): after any sequence of requests,
    - every 'signed' record carries both digests;
    - the hashAfter of the 'uploaded' record of a document is present and
      equals the hashBefore of every 'signed' record of that document;
    - the field_added, field_modified and field_deleted records carry no
      digest;
    - a record that is not a 'signed' one is linked to every record of the
      same document, so that the log of a document is a linked chain up to
      and including its first 'signed' record, with or without the records
      that carry no digest. *)
Theorem hash_chain_from_upload_to_signing (reqs : list (Request N)) :
  let st := serve empty_state reqs in
  (forall r, In r (auditLogs st) -> action r = signed ->
     documentHashBefore r <> None /\ documentHashAfter r <> None)
  /\ (forall u r, In u (auditLogs st) -> In r (auditLogs st) ->
        log_documentId u = log_documentId r ->
        action u = uploaded -> action r = signed ->
        documentHashAfter u <> None /\
        documentHashAfter u = documentHashBefore r)
  /\ (forall r, In r (auditLogs st) ->
        action r = field_added \/ action r = field_modified \/
        action r = field_deleted ->
        documentHashBefore r = None /\ documentHashAfter r = None)
  /\ (forall r1 r2, In r1 (auditLogs st) -> In r2 (auditLogs st) ->
        log_documentId r1 = log_documentId r2 ->
        action r1 <> signed -> linked r1 r2 = true)
  /\ (forall documentId before r after,
        log_of st documentId = before ++ r :: after ->
        (forall e, In e before -> action e <> signed) ->
        chain_linked (before ++ [r]) = true /\
        chain_linked (filter has_digest (before ++ [r])) = true).
Proof.
  intros st.
  assert (Hinv : chain_invariant st)
    by (apply serve_keeps_chain, chain_invariant_empty).
  assert (Hlinked : forall r1 r2, In r1 (auditLogs st) ->
            In r2 (auditLogs st) ->
            log_documentId r1 = log_documentId r2 ->
            action r1 <> signed -> linked r1 r2 = true)
    by (intros r1 r2; apply linked_unless_signed; exact Hinv).
  split; [ | split; [ | split; [ | split ] ] ].
  - (* 'signed' records carry both digests *)
    intros r Hr Hsigned.
    pose proof (log_entries_ok st Hinv r Hr) as Hok.
    unfold log_entry_ok in Hok. rewrite Hsigned in Hok.
    destruct Hok as (d & h & _ & _ & -> & ->). split; discriminate.
  - (* 'uploaded' and 'signed' *)
    intros u r Hu Hr Hsame Hup Hsigned.
    pose proof (log_entries_ok st Hinv u Hu) as Huok.
    pose proof (log_entries_ok st Hinv r Hr) as Hrok.
    unfold log_entry_ok in Huok, Hrok.
    rewrite Hup in Huok. rewrite Hsigned in Hrok.
    destruct Huok as (_ & d1 & Hd1 & Hi1 & ->).
    destruct Hrok as (d2 & h & Hd2 & Hi2 & -> & _).
    assert (E : d1 = d2)
      by (apply (documents_by_id st Hinv); congruence).
    rewrite E. split; [ discriminate | reflexivity ].
  - (* records of field edits *)
    intros r Hr Hedit.
    pose proof (log_entries_ok st Hinv r Hr) as Hok.
    unfold log_entry_ok in Hok.
    destruct Hedit as [E | [E | E]]; rewrite E in Hok; exact Hok.
  - exact Hlinked.
  - (* the log up to the first signing *)
    intros documentId before r after Hlog Hbefore.
    assert (Hmem : forall e, In e (before ++ r :: after) ->
              In e (auditLogs st) /\ log_documentId e = documentId).
    { intros e He. rewrite <- Hlog in He. unfold log_of in He.
      apply filter_In in He. destruct He as [He Hid].
      apply Nat.eqb_eq in Hid. auto. }
    assert (Hpair : forall r1 r2, In r1 before ->
              In r2 (before ++ [r]) -> linked r1 r2 = true).
    { intros r1 r2 H1 H2.
      assert (H2' : In r2 (before ++ r :: after)).
      { apply in_app_or in H2. apply in_or_app.
        destruct H2 as [H2 | [<- | []]].
        - left. exact H2.
        - right. left. reflexivity. }
      assert (H1' : In r1 (before ++ r :: after))
        by (apply in_or_app; left; exact H1).
      destruct (Hmem r1 H1') as [Hin1 Hid1].
      destruct (Hmem r2 H2') as [Hin2 Hid2].
      apply Hlinked; try assumption.
      - congruence.
      - apply Hbefore. exact H1. }
    split.
    + apply chain_linked_prefix. exact Hpair.
    + rewrite filter_app. cbn. destruct (has_digest r).
      * apply chain_linked_prefix. intros r1 r2 H1 H2.
        apply filter_In in H1. destruct H1 as [H1 _].
        apply Hpair; [ exact H1 | ].
        apply in_app_or in H2. apply in_or_app.
        destruct H2 as [H2 | H2]; [ left | right; exact H2 ].
        apply filter_In in H2. apply H2.
      * rewrite app_nil_r. apply chain_linked_all. intros r1 r2 H1 H2.
        apply filter_In in H1. destruct H1 as [H1 _].
        apply filter_In in H2. destruct H2 as [H2 _].
        apply Hpair; [ exact H1 | apply in_or_app; left; exact H2 ].
Qed.

End HashChain.

(** *** Validation of field positions *)

Section FieldsValid.
Context {N : Type} {num : JsNumber N} {platform : Platform N}.
Local Close Scope Q_scope.
Local Open Scope string_scope.
Local Open Scope list_scope.

Ltac field_cases :=
  let f := fresh "f" in
  let Hf := fresh "Hf" in
  unfold fields_valid; cbn; intros f Hf;
  repeat match goal with
  | H : In _ (_ ++ _) |- _ => apply in_app_or in H; destruct H as [H | H]
  | H : In _ [_] |- _ => destruct H as [<- | []]
  | H : In _ (map _ _) |- _ =>
      let g := fresh "g" in
      apply in_map_iff in H; destruct H as (g & <- & H)
  | H : In _ (filter _ _) |- _ => apply filter_In in H; destruct H as [H _]
  | |- context [if ?c then _ else _] => destruct c
  end;
  auto.

Lemma createField_keeps_fields_valid (meta : Meta) (req : CreateFieldBody N)
    (st : State N) :
  fields_valid st -> fields_valid (fst (createField meta req st)).
Proof.
  intros Hinv. unfold createField. run_handler. split_cases.
  all: try exact Hinv.
  field_cases.
Qed.

Lemma updateField_keeps_fields_valid (meta : Meta) (id : ObjectId)
    (req : UpdateFieldBody N) (st : State N) :
  fields_valid st -> fields_valid (fst (updateField meta id req st)).
Proof.
  intros Hinv. unfold updateField. run_handler. split_cases.
  all: try exact Hinv.
  all: field_cases.
Qed.

Lemma deleteField_keeps_fields_valid (meta : Meta) (id : ObjectId)
    (st : State N) :
  fields_valid st -> fields_valid (fst (deleteField meta id st)).
Proof.
  intros Hinv. unfold deleteField. run_handler. split_cases.
  all: try exact Hinv.
  all: field_cases.
Qed.

Lemma setFieldValue_keeps_fields_valid (meta : Meta) (id : ObjectId)
    (v : FieldValue) (st : State N) :
  fields_valid st -> fields_valid (fst (setFieldValue meta id v st)).
Proof.
  intros Hinv. unfold setFieldValue. run_handler. split_cases.
  all: try exact Hinv.
  all: field_cases.
Qed.

Lemma upload_keeps_fields_valid (meta : Meta) (file : option UploadedFile)
    (st : State N) :
  fields_valid st -> fields_valid (fst (upload meta file st)).
Proof.
  intros Hinv. unfold upload.
  destruct file as [f |]; [ | exact Hinv ].
  destruct (negb (String.eqb _ _)); [ exact Hinv | ].
  destruct (Z.leb _ _); [ exact Hinv | ].
  run_handler. rewrite !Nat.eqb_refl, !String.eqb_refl. cbn.
  split_cases; exact Hinv.
Qed.

Lemma signPdf_keeps_fields_valid (meta : Meta) (documentId : ObjectId)
    (st : State N) :
  fields_valid st -> fields_valid (fst (signPdf meta documentId st)).
Proof.
  intros Hinv. unfold signPdf. run_handler.
  destruct (lookup_document st documentId) as [document |]; cbn;
    [ | exact Hinv ].
  destruct (Nat.eqb _ 0); cbn; [ exact Hinv | ].
  destruct (files st (originalFileUrl document)); cbn; [ | exact Hinv ].
  split_cases; exact Hinv.
Qed.

Lemma serve_keeps_fields_valid (reqs : list (Request N)) (st : State N) :
  fields_valid st -> fields_valid (serve st reqs).
Proof.
  revert st. induction reqs as [| req reqs IH]; intros st Hinv; cbn.
  - exact Hinv.
  - apply IH. destruct req; cbn.
    + apply upload_keeps_fields_valid; exact Hinv.
    + apply createField_keeps_fields_valid; exact Hinv.
    + apply updateField_keeps_fields_valid; exact Hinv.
    + apply deleteField_keeps_fields_valid; exact Hinv.
    + apply setFieldValue_keeps_fields_valid; exact Hinv.
    + apply signPdf_keeps_fields_valid; exact Hinv.
Qed.

End FieldsValid.

Lemma Qltb_false (a b : Q) : Qltb a b = false <-> b <= a.
Proof.
  assert (E : b <= a <-> ~ a < b)
    by (split; [ apply Qle_not_lt | apply Qnot_lt_le ]).
  rewrite E, Qlt_alt. unfold Qltb.
  destruct (a ?= b); split; congruence.
Qed.

Section FieldPositions.
Context {platform : Platform Q}.

Lemma FieldSchema_validate_in_range (f : Field Q) :
  FieldSchema_validate f = true ->
  percentages_in_range (percent (position f)).
Proof.
  unfold FieldSchema_validate, schema_min_max, percentages_in_range.
  unfold_js. rewrite !andb_true_iff, !Qle_bool_iff. tauto.
Qed.

Lemma out_of_range_spec (p : FieldPosition Q) :
  out_of_range p = false <-> percentages_in_range (percent p).
Proof.
  unfold out_of_range, percentages_in_range. cbn [existsb]. unfold_js.
  rewrite !orb_false_iff, !Qltb_false, !Qgtb_false. tauto.
Qed.

Lemma out_of_range_true (p : FieldPosition Q) :
  ~ percentages_in_range (percent p) -> out_of_range p = true.
Proof.
  intros Hn. destruct (out_of_range p) eqn:E; [ reflexivity | ].
  apply out_of_range_spec in E. contradiction.
Qed.

(** C9 (amended): every position that the creation and the update of
    fields store has each of its four percentages in [0, 1]; a position with
    a percentage outside [0, 1] is refused with the validation error 400
    and the store stays as it was.  Nothing is checked about the sums
    xPercent + widthPercent and yPercent + heightPercent. *)
Theorem stored_positions_are_percentages :
  (forall (reqs : list (Request Q)) (f : Field Q),
     In f (fields (serve empty_state reqs)) ->
     percentages_in_range (percent (position f)))
  /\ (forall meta (req : CreateFieldBody Q) (st : State Q) pos,
        lookup_document st (req_documentId req) <> None ->
        req_position req = Some pos ->
        ~ percentages_in_range (percent pos) ->
        createField meta req st = (st, bad_position))
  /\ (forall meta id (req : UpdateFieldBody Q) (st : State Q) pos,
        lookup_field st id <> None ->
        upd_position req = Some pos ->
        ~ percentages_in_range (percent pos) ->
        updateField meta id req st = (st, bad_position)).
Proof.
  split; [ | split ].
  - intros reqs f Hf. apply FieldSchema_validate_in_range.
    apply (serve_keeps_fields_valid reqs empty_state); [ | exact Hf ].
    intros f' [].
  - intros meta req st pos Hdoc Hpos Hout.
    unfold createField, try_catch, bind, ret, orThrow, get_state,
      Document_findById.
    cbn -[out_of_range].
    destruct (lookup_document st (req_documentId req)); [ | contradiction ].
    rewrite Hpos. cbn -[out_of_range].
    rewrite (out_of_range_true _ Hout). reflexivity.
  - intros meta id req st pos Hfield Hpos Hout.
    unfold updateField, try_catch, bind, ret, get_state, Field_findById.
    cbn -[out_of_range].
    destruct (lookup_field st id); [ | contradiction ].
    rewrite Hpos. rewrite (out_of_range_true _ Hout). reflexivity.
Qed.

End FieldPositions.

(** C9 (as stated): on an uploaded document, the creation of a field at
    { xPercent: 0.8, yPercent: 0.8, widthPercent: 0.5, heightPercent: 0.5 }
    is answered with 201 and the position is stored, although
    0.8 + 0.5 > 1; the update of a field to that position is answered with
    200 and stored as well. *)
Lemma overflowing_position_is_stored :
  let uploaded := serve (platform := Toy.platform) empty_state
                    [ POST_upload Toy.meta (Some Toy.pdf) ] in
  let created := createField Toy.meta (Toy.new_field "text" Toy.overflowing)
                   uploaded in
  let updated := updateField Toy.meta 1%nat
                   {| upd_position := Some Toy.overflowing;
                      upd_label := None; upd_required := None |}
                   (fst (createField Toy.meta Toy.text_field uploaded)) in
  statusCode (snd created) = 201%nat
  /\ map position (fields (fst created)) = [ Toy.overflowing ]
  /\ statusCode (snd updated) = 200%nat
  /\ map position (fields (fst updated)) = [ Toy.overflowing ]
  /\ 1 < xPercent (percent Toy.overflowing)
         + widthPercent (percent Toy.overflowing)
  /\ 1 < yPercent (percent Toy.overflowing)
         + heightPercent (percent Toy.overflowing).
Proof.
  vm_compute. repeat split; reflexivity.
Qed.

Lemma stored_positions_are_percentages_witness :
  (forall f,
     In f (fields (serve (platform := Toy.platform) empty_state
                     Toy.sign_once)) ->
     percentages_in_range (percent (position f)))
  /\ createField Toy.meta (Toy.new_field "text" Toy.off_page)
       (serve (platform := Toy.platform) empty_state Toy.sign_once)
     = (serve (platform := Toy.platform) empty_state Toy.sign_once,
        bad_position)
  /\ updateField Toy.meta 1%nat
       {| upd_position := Some Toy.off_page;
          upd_label := None; upd_required := None |}
       (serve (platform := Toy.platform) empty_state Toy.sign_once)
     = (serve (platform := Toy.platform) empty_state Toy.sign_once,
        bad_position).
Proof.
  destruct (stored_positions_are_percentages (platform := Toy.platform))
    as (Hstored & Hcreate & Hupdate).
  split; [ exact (Hstored Toy.sign_once) | split ].
  - apply (Hcreate Toy.meta _ _ Toy.off_page).
    + vm_compute. discriminate.
    + reflexivity.
    + vm_compute. intros ((H & _) & _). apply H. reflexivity.
  - apply (Hupdate Toy.meta _ _ _ Toy.off_page).
    + vm_compute. discriminate.
    + reflexivity.
    + vm_compute. intros ((H & _) & _). apply H. reflexivity.
Defined.

(** C2 (as stated): when a signed document is signed again, the second
    'signed' record follows the first one in the log of the document, both
    carry their digests, and the hashAfter of the first differs from the
    hashBefore of the second, which is the digest of the stored original
    again. *)
Lemma signing_again_breaks_the_chain :
  let st := serve (platform := Toy.platform) empty_state Toy.sign_twice in
  map action (log_of st 0%nat) = [ uploaded; field_added; signed; signed ]
  /\ map has_digest (log_of st 0%nat) = [ true; false; true; true ]
  /\ chain_linked (log_of st 0%nat) = false
  /\ chain_linked (filter has_digest (log_of st 0%nat)) = false
  /\ map documentHashBefore (filter has_digest (log_of st 0%nat))
     = [ None; Some "%PDF-1.7"%string; Some "%PDF-1.7"%string ]
  /\ map documentHashAfter (filter has_digest (log_of st 0%nat))
     = [ Some "%PDF-1.7"%string; Some "%PDF-1.7T"%string;
         Some "%PDF-1.7T"%string ].
Proof.
  vm_compute. repeat split; reflexivity.
Qed.

Lemma hash_chain_from_upload_to_signing_witness :
  let st := serve (platform := Toy.platform) empty_state Toy.sign_once in
  (forall r, In r (auditLogs st) -> action r = signed ->
     documentHashBefore r <> None /\ documentHashAfter r <> None)
  /\ chain_linked (log_of st 0%nat) = true
  /\ chain_linked (filter has_digest (log_of st 0%nat)) = true.
Proof.
  destruct (hash_chain_from_upload_to_signing (platform := Toy.platform)
              Toy.sign_once) as (Hboth & _ & _ & _ & Hchain).
  split; [ exact Hboth | ].
  set (log := log_of (serve (platform := Toy.platform) empty_state
                        Toy.sign_once) 0%nat) in *.
  change (chain_linked (firstn 2 log ++ [nth 2 log Toy.blank_log]) = true
          /\ chain_linked
               (filter has_digest
                  (firstn 2 log ++ [nth 2 log Toy.blank_log])) = true).
  apply (Hchain 0%nat (firstn 2 log) (nth 2 log Toy.blank_log) []).
  - vm_compute. reflexivity.
  - vm_compute. intros e [<- | [<- | []]]; discriminate.
Defined.
(** ** Further properties of the coordinate functions *)

(** Splits conjunctions and introduces hypotheses, leaving inequalities
    folded. *)
Ltac q_split :=
  repeat match goal with
  | |- _ /\ _ => split
  | |- _ -> _ => intro
  end.

(** X1: [clampPosition] never makes a field wider or taller, never returns
    a negative offset, and never moves a field that starts inside the page
    to the right or downwards. *)
Theorem clampPosition_only_shrinks (p : NormalizedPosition Q) :
  widthPercent (clampPosition p) <= widthPercent p
  /\ heightPercent (clampPosition p) <= heightPercent p
  /\ 0 <= xPercent (clampPosition p)
  /\ 0 <= yPercent (clampPosition p)
  /\ (0 <= xPercent p -> xPercent (clampPosition p) <= xPercent p)
  /\ (0 <= yPercent p -> yPercent (clampPosition p) <= yPercent p).
Proof.
  unfold clampPosition; unfold_js. forget_minmax. q_split; lra.
Qed.

Lemma clampPosition_only_shrinks_witness :
  let p := mkPosition (8#10) (9#10) (5#10) (3#10) in
  xPercent (clampPosition p) <= 8#10 /\ yPercent (clampPosition p) <= 9#10.
Proof.
  destruct (clampPosition_only_shrinks
              (mkPosition (8#10) (9#10) (5#10) (3#10)))
    as (_ & _ & _ & _ & Hx & Hy).
  split; [ apply Hx | apply Hy ]; vm_compute; discriminate.
Defined.

(** X2: unless a field both starts before the page and is larger than the
    page, [clampPosition] returns a position inside the page, and clamping
    it again changes nothing. *)
Theorem clampPosition_inside_and_idempotent (p : NormalizedPosition Q) :
  (0 <= xPercent p \/ widthPercent p <= 1) ->
  (0 <= yPercent p \/ heightPercent p <= 1) ->
  xPercent (clampPosition p) + widthPercent (clampPosition p) <= 1
  /\ yPercent (clampPosition p) + heightPercent (clampPosition p) <= 1
  /\ position_eq (clampPosition (clampPosition p)) (clampPosition p).
Proof.
  intros Hx Hy.
  destruct (clampPosition_within_page p Hx Hy) as [Hw Hh].
  repeat split; try assumption;
    apply (clampPosition_idempotent_within p Hx Hy).
Qed.

Lemma clampPosition_inside_and_idempotent_witness :
  let p := mkPosition (8#10) (9#10) (5#10) (3#10) in
  xPercent (clampPosition p) + widthPercent (clampPosition p) <= 1
  /\ yPercent (clampPosition p) + heightPercent (clampPosition p) <= 1
  /\ position_eq (clampPosition (clampPosition p)) (clampPosition p).
Proof.
  apply (clampPosition_inside_and_idempotent
           (mkPosition (8#10) (9#10) (5#10) (3#10)));
    left; vm_compute; discriminate.
Defined.

(** One coordinate in binary64: multiplied by the size of the container and
    divided by it again. *)
Lemma mul_div_round_trip (a c : float) :
  normal_number (a * c) = true -> normal_number (a * c / c) = true ->
  Qabs (toQ (a * c / c) - toQ a) <= epsilon2 * Qabs (toQ (a * c / c)).
Proof.
  intros H1 H2. pose proof (mul_error a c H1) as E1.
  destruct (div_error (a * c) c H2) as [Hc E2].
  setoid_replace (toQ a) with (toQ a * toQ c * / toQ c) at 1
    by (field; exact Hc).
  apply (two_operations _ _ _ (toQ (a * c))); assumption.
Qed.

(** X4: in binary64, displaying a normalized position in a container and
    reading it back returns each percentage up to [epsilon2] = 2^-51 +
    2^-104 times its magnitude, provided that the pixel value computed for
    it and the percentage returned are normal numbers (no overflow, no
    underflow).  This is the round trip in the direction from percentages
    to pixels and back. *)
Theorem browserToNormalized_normalizedToBrowser
    (p : NormalizedPosition float) (containerWidth containerHeight : float) :
  let r := normalizedToBrowser p containerWidth containerHeight in
  let q := browserToNormalized (x r) (y r) (width r) (height r)
             containerWidth containerHeight in
  (normal_number (x r) = true -> normal_number (xPercent q) = true ->
   Qabs (toQ (xPercent q) - toQ (xPercent p))
   <= epsilon2 * Qabs (toQ (xPercent q)))
  /\ (normal_number (y r) = true -> normal_number (yPercent q) = true ->
      Qabs (toQ (yPercent q) - toQ (yPercent p))
      <= epsilon2 * Qabs (toQ (yPercent q)))
  /\ (normal_number (width r) = true ->
      normal_number (widthPercent q) = true ->
      Qabs (toQ (widthPercent q) - toQ (widthPercent p))
      <= epsilon2 * Qabs (toQ (widthPercent q)))
  /\ (normal_number (height r) = true ->
      normal_number (heightPercent q) = true ->
      Qabs (toQ (heightPercent q) - toQ (heightPercent p))
      <= epsilon2 * Qabs (toQ (heightPercent q))).
Proof.
  cbv zeta. unfold normalizedToBrowser, browserToNormalized. unfold_js.
  repeat split; apply mul_div_round_trip.
Qed.

Lemma browserToNormalized_normalizedToBrowser_witness :
  (let p := mkPosition 0.1 0.7 0.3 0.1 in
   let r := normalizedToBrowser p 1366 729 in
   let q := browserToNormalized (x r) (y r) (width r) (height r)
              1366 729 in
   Qabs (toQ (xPercent q) - toQ 0.1) <= epsilon2 * Qabs (toQ (xPercent q))
   /\ Qabs (toQ (heightPercent q) - toQ 0.1)
      <= epsilon2 * Qabs (toQ (heightPercent q)))%float.
Proof.
  destruct (browserToNormalized_normalizedToBrowser
              (mkPosition 0.1 0.7 0.3 0.1) 1366 729)%float
    as (Hx & _ & _ & Hh).
  split; [ apply Hx | apply Hh ]; vm_compute; reflexivity.
Defined.

(** X5: in binary64, a pixel coordinate normalized against one container
    and displayed in another is the coordinate scaled by the ratio of the
    two containers, up to [epsilon2] = 2^-51 + 2^-104 times the magnitude
    of the result, provided that the percentage and the result are normal
    numbers (no overflow, no underflow). *)
Theorem normalizedToBrowser_rescales
    (browserX browserY browserWidth browserHeight : float)
    (width1 height1 width2 height2 : float) :
  let p := browserToNormalized browserX browserY browserWidth browserHeight
             width1 height1 in
  let r := normalizedToBrowser p width2 height2 in
  (normal_number (xPercent p) = true -> normal_number (x r) = true ->
   Qabs (toQ (x r) - toQ browserX / toQ width1 * toQ width2)
   <= epsilon2 * Qabs (toQ (x r)))
  /\ (normal_number (yPercent p) = true -> normal_number (y r) = true ->
      Qabs (toQ (y r) - toQ browserY / toQ height1 * toQ height2)
      <= epsilon2 * Qabs (toQ (y r)))
  /\ (normal_number (widthPercent p) = true ->
      normal_number (width r) = true ->
      Qabs (toQ (width r) - toQ browserWidth / toQ width1 * toQ width2)
      <= epsilon2 * Qabs (toQ (width r)))
  /\ (normal_number (heightPercent p) = true ->
      normal_number (height r) = true ->
      Qabs (toQ (height r) - toQ browserHeight / toQ height1 * toQ height2)
      <= epsilon2 * Qabs (toQ (height r))).
Proof.
  cbv zeta. unfold normalizedToBrowser, browserToNormalized. unfold_js.
  repeat split; intros H1 H2;
    (apply (two_operations _ _ _ _ _ (proj2 (div_error _ _ H1))
              (mul_error _ _ H2))).
Qed.

Lemma normalizedToBrowser_rescales_witness :
  (let r := normalizedToBrowser (browserToNormalized 960 540 480 86 1920 1080)
              375 667 in
   Qabs (toQ (x r) - toQ 960 / toQ 1920 * toQ 375)
   <= epsilon2 * Qabs (toQ (x r))
   /\ Qabs (toQ (height r) - toQ 86 / toQ 1080 * toQ 667)
      <= epsilon2 * Qabs (toQ (height r)))%float.
Proof.
  destruct (normalizedToBrowser_rescales
              960 540 480 86 1920 1080 375 667)%float
    as (Hx & _ & _ & Hh).
  split; [ apply Hx | apply Hh ]; vm_compute; reflexivity.
Defined.

(** *** The data URL of an image *)

Lemma strip_prefix_app (prefix s : string) :
  strip_prefix prefix (prefix ++ s) = Some s.
Proof.
  induction prefix as [| c prefix IH]; cbn.
  - reflexivity.
  - rewrite Ascii.eqb_refl. exact IH.
Qed.

Lemma skip_word_chars_app (word rest : string) :
  forallb is_word_char (list_ascii_of_string word) = true ->
  skip_word_chars (word ++ String ";" rest) = String ";" rest.
Proof.
  induction word as [| c word IH]; cbn; intros Hword.
  - reflexivity.
  - apply andb_true_iff in Hword. destruct Hword as [Hc Hword].
    rewrite Hc. apply IH. exact Hword.
Qed.

Lemma length_append (a b : string) :
  String.length (a ++ b) = (String.length a + String.length b)%nat.
Proof.
  induction a as [| c a IH]; cbn; [ reflexivity | rewrite IH; reflexivity ].
Qed.

(** X18: [strip_data_url] removes the header of a data URL whose subtype is
    a non-empty word and returns the payload; a value that does not start
    with [data:image/] is returned as it is. *)
Theorem strip_data_url_payload (subtype payload : string) :
  (subtype <> EmptyString ->
   forallb is_word_char (list_ascii_of_string subtype) = true ->
   strip_data_url ("data:image/" ++ subtype ++ ";base64," ++ payload)
   = payload)
  /\ (strip_prefix "data:image/" payload = None ->
      strip_data_url payload = payload).
Proof.
  split.
  - intros Hne Hword. unfold strip_data_url.
    rewrite strip_prefix_app.
    change (subtype ++ ";base64," ++ payload)%string
      with (subtype ++ String ";" ("base64," ++ payload))%string.
    rewrite (skip_word_chars_app _ _ Hword).
    rewrite length_append.
    assert (Hlen : Nat.ltb
                     (String.length (String ";" ("base64," ++ payload)))
                     (String.length subtype
                      + String.length (String ";" ("base64," ++ payload)))
                   = true).
    { apply Nat.ltb_lt. destruct subtype; [ contradiction | cbn; lia ]. }
    rewrite Hlen.
    change (String ";" ("base64," ++ payload))%string
      with (";base64," ++ payload)%string.
    rewrite strip_prefix_app. reflexivity.
  - intros Hno. unfold strip_data_url. rewrite Hno. reflexivity.
Qed.

Lemma strip_data_url_payload_witness :
  strip_data_url "data:image/png;base64,iVBORw0KGgo=" = "iVBORw0KGgo="%string
  /\ strip_data_url "iVBORw0KGgo=" = "iVBORw0KGgo="%string.
Proof.
  destruct (strip_data_url_payload "png" "iVBORw0KGgo=") as [Hstrip _].
  destruct (strip_data_url_payload EmptyString "iVBORw0KGgo=") as [_ Hkeep].
  split.
  - apply Hstrip; [ discriminate | reflexivity ].
  - apply Hkeep. reflexivity.
Defined.

(** *** Verification of a digest *)

Import HashUtils.

Section VerifyHash.
Context {N : Type} {platform : Platform N}.
Local Close Scope Q_scope.
Local Open Scope nat_scope.

Lemma Buffer_equals_eq (a b : Buffer) : Buffer_equals a b = true <-> a = b.
Proof.
  revert b. induction a as [| x a IH]; intros [| y b]; cbn;
    try (split; [ discriminate | discriminate ]); [ tauto | ].
  rewrite andb_true_iff, IH. split.
  - intros [Hxy ->]. apply Byte.byte_dec_bl in Hxy. rewrite Hxy. reflexivity.
  - intros E. injection E as -> ->. split; [ | reflexivity ].
    apply Byte.byte_dec_lb. reflexivity.
Qed.

(** A digit [0-9a-f] is decoded to the number below 16 that determines
    it. *)
Lemma hex_digit_lower (c : ascii) :
  is_lower_hex c = true ->
  exists h, hex_digit c = Some h /\ h < 16 /\
            nat_of_ascii c = if h <? 10 then h + 48 else h + 87.
Proof.
  unfold is_lower_hex, hex_digit. set (n := nat_of_ascii c). clearbody n.
  intros H. apply orb_true_iff in H.
  destruct H as [H | H]; apply andb_true_iff in H; destruct H as [H1 H2];
    apply Nat.leb_le in H1; apply Nat.leb_le in H2.
  - exists (n - 48).
    replace ((48 <=? n) && (n <=? 57)) with true
      by (symmetry; apply andb_true_iff; split; apply Nat.leb_le; lia).
    replace (n - 48 <? 10) with true by (symmetry; apply Nat.ltb_lt; lia).
    repeat split; lia.
  - exists (n - 87).
    replace ((48 <=? n) && (n <=? 57)) with false
      by (symmetry; apply andb_false_iff; right; apply Nat.leb_gt; lia).
    replace ((97 <=? n) && (n <=? 102)) with true
      by (symmetry; apply andb_true_iff; split; apply Nat.leb_le; lia).
    replace (n - 87 <? 10) with false by (symmetry; apply Nat.ltb_ge; lia).
    repeat split; lia.
Qed.

Lemma hex_pair_injective (a b a' b' : ascii) (h l h' l' : nat) :
  is_lower_hex a = true -> is_lower_hex b = true ->
  is_lower_hex a' = true -> is_lower_hex b' = true ->
  hex_digit a = Some h -> hex_digit b = Some l ->
  hex_digit a' = Some h' -> hex_digit b' = Some l' ->
  byte_of_ascii (ascii_of_nat (16 * h + l))
  = byte_of_ascii (ascii_of_nat (16 * h' + l')) ->
  a = a' /\ b = b'.
Proof.
  intros Ha Hb Ha' Hb' Eh El Eh' El' E.
  destruct (hex_digit_lower a Ha) as (x & Ex & Hx & Na).
  destruct (hex_digit_lower b Hb) as (y & Ey & Hy & Nb).
  destruct (hex_digit_lower a' Ha') as (x' & Ex' & Hx' & Na').
  destruct (hex_digit_lower b' Hb') as (y' & Ey' & Hy' & Nb').
  assert (x = h) by congruence. assert (y = l) by congruence.
  assert (x' = h') by congruence. assert (y' = l') by congruence.
  subst x y x' y'.
  apply (f_equal ascii_of_byte) in E. rewrite !ascii_of_byte_of_ascii in E.
  apply (f_equal nat_of_ascii) in E.
  rewrite !nat_ascii_embedding in E by lia.
  assert (h = h' /\ l = l') as [-> ->] by lia.
  rewrite <- Na' in Na. rewrite <- Nb' in Nb.
  apply (f_equal ascii_of_nat) in Na. apply (f_equal ascii_of_nat) in Nb.
  rewrite !ascii_nat_embedding in Na, Nb. split; assumption.
Qed.

(** Decoding is one-to-one on strings made of pairs of digits [0-9a-f]. *)
Lemma Buffer_from_hex_injective (n : nat) (s t : string) :
  String.length s <= n ->
  lower_hex_pairs s = true -> lower_hex_pairs t = true ->
  Buffer_from_hex s = Buffer_from_hex t -> s = t.
Proof.
  revert s t. induction n as [| n IH]; intros s t Hlen Hs Ht E.
  - destruct s as [| a s]; [ | cbn in Hlen; lia ].
    destruct t as [| a' [| b' t]]; [ reflexivity | discriminate | ].
    cbn in Ht. apply andb_true_iff in Ht. destruct Ht as [Ht _].
    apply andb_true_iff in Ht. destruct Ht as [Ha' Hb'].
    destruct (hex_digit_lower a' Ha') as (x & Ex & _).
    destruct (hex_digit_lower b' Hb') as (y & Ey & _).
    cbn in E. rewrite Ex, Ey in E. discriminate.
  - destruct s as [| a [| b s]]; [ | discriminate | ].
    + destruct t as [| a' [| b' t]]; [ reflexivity | discriminate | ].
      cbn in Ht. apply andb_true_iff in Ht. destruct Ht as [Ht _].
      apply andb_true_iff in Ht. destruct Ht as [Ha' Hb'].
      destruct (hex_digit_lower a' Ha') as (x & Ex & _).
      destruct (hex_digit_lower b' Hb') as (y & Ey & _).
      cbn in E. rewrite Ex, Ey in E. discriminate.
    + cbn in Hs. apply andb_true_iff in Hs. destruct Hs as [Hs Hrest].
      apply andb_true_iff in Hs. destruct Hs as [Ha Hb].
      destruct (hex_digit_lower a Ha) as (h & Eh & _).
      destruct (hex_digit_lower b Hb) as (l & El & _).
      destruct t as [| a' [| b' t]].
      * cbn in E. rewrite Eh, El in E. discriminate.
      * discriminate.
      * cbn in Ht. apply andb_true_iff in Ht. destruct Ht as [Ht Hrest'].
        apply andb_true_iff in Ht. destruct Ht as [Ha' Hb'].
        destruct (hex_digit_lower a' Ha') as (h' & Eh' & _).
        destruct (hex_digit_lower b' Hb') as (l' & El' & _).
        cbn [Buffer_from_hex] in E. rewrite Eh, El, Eh', El' in E.
        injection E as E Erest.
        destruct (hex_pair_injective a b a' b' h l h' l') as [-> ->];
          try assumption.
        rewrite (IH s t); [ reflexivity | cbn in Hlen; lia | | | ];
          assumption.
Qed.

(** X19: [verifyHash] accepts the digest of the buffer itself; and among
    the strings that a hex digest can be (pairs of digits 0-9a-f), it
    accepts the digest of the buffer and no other. *)
Theorem verifyHash_accepts_the_digest_only
    (buffer : Buffer) (expectedHash : string) :
  verifyHash buffer (calculateHash buffer) = true
  /\ (lower_hex_pairs (calculateHash buffer) = true ->
      lower_hex_pairs expectedHash = true ->
      (verifyHash buffer expectedHash = true
       <-> expectedHash = calculateHash buffer)).
Proof.
  assert (Hself : verifyHash buffer (calculateHash buffer) = true).
  { unfold verifyHash, timingSafeEqual. rewrite Nat.eqb_refl.
    apply Buffer_equals_eq. reflexivity. }
  split; [ exact Hself | ].
  intros Hdigest Hexpected. split; [ | intros ->; exact Hself ].
  unfold verifyHash, timingSafeEqual.
  destruct (Nat.eqb _ _); [ | discriminate ].
  intros E. apply Buffer_equals_eq in E. symmetry.
  apply (Buffer_from_hex_injective (String.length (calculateHash buffer)));
    auto.
Qed.

End VerifyHash.

Lemma verifyHash_accepts_the_digest_only_witness :
  let buffer := list_byte_of_string "c0ffee" in
  verifyHash (platform := Toy.platform) buffer "c0ffee" = true
  /\ (verifyHash (platform := Toy.platform) buffer "c0ffef" = true
      <-> "c0ffef"%string
          = calculateHash (platform := Toy.platform) buffer).
Proof.
  pose (buffer := list_byte_of_string "c0ffee").
  destruct (verifyHash_accepts_the_digest_only (platform := Toy.platform)
              buffer "c0ffef") as [Hself Honly].
  split; [ exact Hself | apply Honly; reflexivity ].
Defined.

(** *** What the signing request and the upload do to the store *)

Import Store.

Section Effects.
Context {N : Type} {num : JsNumber N} {platform : Platform N}.
Local Close Scope Q_scope.
Local Open Scope string_scope.
Local Open Scope list_scope.

Lemma Path_eqb_neq (p q : Path) : p <> q -> Path_eqb p q = false.
Proof.
  destruct p as [u n | u], q as [u' n' | u']; cbn; intros Hneq;
    try reflexivity.
  - destruct (Nat.eqb_spec u u'); [ | reflexivity ].
    destruct (String.eqb_spec n n'); [ | reflexivity ].
    subst. contradiction.
  - destruct (Nat.eqb_spec u u'); [ subst; contradiction | reflexivity ].
Qed.

(** Looking up [id] after the records with that identifier were replaced by
    [new]. *)
Lemma find_map_replace {A : Type} (key : A -> nat) (id : nat) (new : A)
    (l : list A) :
  key new = id ->
  find (fun a => Nat.eqb (key a) id)
    (map (fun a => if Nat.eqb (key a) id then new else a) l)
  = match find (fun a => Nat.eqb (key a) id) l with
    | Some _ => Some new
    | None => None
    end.
Proof.
  intros Hnew. induction l as [| a l IH]; cbn; [ reflexivity | ].
  destruct (Nat.eqb (key a) id) eqn:E; cbn.
  - rewrite Hnew, Nat.eqb_refl. reflexivity.
  - rewrite E. exact IH.
Qed.

(** Looking up another identifier. *)
Lemma find_map_other {A : Type} (key : A -> nat) (id id' : nat) (new : A)
    (l : list A) :
  key new = id -> id' <> id ->
  find (fun a => Nat.eqb (key a) id')
    (map (fun a => if Nat.eqb (key a) id then new else a) l)
  = find (fun a => Nat.eqb (key a) id') l.
Proof.
  intros Hnew Hneq. induction l as [| a l IH]; cbn; [ reflexivity | ].
  destruct (Nat.eqb_spec (key a) id) as [E | E]; cbn.
  - rewrite Hnew.
    destruct (Nat.eqb_spec id id'); [ congruence | ].
    destruct (Nat.eqb_spec (key a) id'); [ congruence | ]. exact IH.
  - rewrite IH. reflexivity.
Qed.

Lemma lookup_document_id (st : State N) (id : ObjectId) (d : Document N) :
  lookup_document st id = Some d -> doc_id d = id.
Proof.
  intros Hfind. apply find_some in Hfind. apply Nat.eqb_eq, Hfind.
Qed.

Lemma lookup_field_id (st : State N) (id : ObjectId) (f : Field N) :
  lookup_field st id = Some f -> field_id f = id.
Proof.
  intros Hfind. apply find_some in Hfind. apply Nat.eqb_eq, Hfind.
Qed.

(** X20: a signing request that fails before anything is written leaves
    the store exactly as it was: an unknown document is answered with 404,
    a document without a field that has a value with 400, and a missing
    original, a PDF that does not load, a field that cannot be embedded or
    a document that cannot be saved with 500. *)
Theorem signPdf_fails_without_trace
    (meta : Meta) (documentId : ObjectId) (st : State N) :
  (lookup_document st documentId = None ->
   signPdf meta documentId st
   = (st, {| statusCode := 404; body := ErrorBody "Document not found" |}))
  /\ (forall document,
        lookup_document st documentId = Some document ->
        (valued_fields st documentId = [] ->
         signPdf meta documentId st
         = (st, {| statusCode := 400;
                   body := ErrorBody "No signed fields found" |}))
        /\ (valued_fields st documentId <> [] ->
            (files st (originalFileUrl document) = None
             \/ exists pdfBuffer,
                  files st (originalFileUrl document) = Some pdfBuffer
                  /\ (PDFDocument_load pdfBuffer = None
                      \/ exists pdfDoc,
                           PDFDocument_load pdfBuffer = Some pdfDoc
                           /\ (embedFields pdfDoc
                                 (valued_fields st documentId) = None
                               \/ exists pdfDoc',
                                    embedFields pdfDoc
                                      (valued_fields st documentId)
                                    = Some pdfDoc'
                                    /\ save pdfDoc' = None))) ->
            signPdf meta documentId st = (st, failed_to_sign))).
Proof.
  unfold signPdf. run_handler. split.
  - intros ->. reflexivity.
  - intros document ->. cbn. split.
    + intros ->. reflexivity.
    + intros Hfields Hcause.
      destruct (valued_fields st documentId) as [| field rest] eqn:Efields;
        [ contradiction | ].
      cbn [List.length Nat.eqb].
      destruct Hcause as [-> | (pdfBuffer & -> & Hcause)]; cbn;
        [ reflexivity | ].
      destruct Hcause as [-> | (pdfDoc & -> & Hcause)]; cbn;
        [ reflexivity | ].
      cbn [embedFields] in Hcause.
      destruct Hcause as [-> | (pdfDoc' & E1 & E2)]; [ reflexivity | ].
      rewrite E1. cbn. rewrite E2. reflexivity.
Qed.

(** X21: a signing request that is answered with 200 has embedded every
    field of the document that has a value into the original and saved the
    result under a fresh name; the document found under the identifier is
    then 'signed' and carries the new file and its digest, its original
    and original digest are the same, no other file and no field changed,
    and one 'signed' record with the digests of the original and of the
    signed file was appended to the log. *)
Theorem signPdf_success
    (meta : Meta) (documentId : ObjectId) (st : State N) :
  statusCode (snd (signPdf meta documentId st)) = 200 ->
  exists document original pdfDoc pdfDoc' signedBuffer signedDocument record,
    let st' := fst (signPdf meta documentId st) in
    let signedPath := SignedPath (next_uuid st) in
    lookup_document st documentId = Some document
    /\ valued_fields st documentId <> []
    /\ files st (originalFileUrl document) = Some original
    /\ PDFDocument_load original = Some pdfDoc
    /\ embedFields pdfDoc (valued_fields st documentId) = Some pdfDoc'
    /\ save pdfDoc' = Some signedBuffer
    /\ body (snd (signPdf meta documentId st))
       = SignedBody signedPath (calculateHash original)
           (calculateHash signedBuffer)
           (List.length (valued_fields st documentId))
    /\ files st' signedPath = Some signedBuffer
    /\ (forall p, p <> signedPath -> files st' p = files st p)
    /\ lookup_document st' documentId = Some signedDocument
    /\ status signedDocument = Signed
    /\ signedFileUrl signedDocument = Some signedPath
    /\ signedHash signedDocument = Some (calculateHash signedBuffer)
    /\ originalFileUrl signedDocument = originalFileUrl document
    /\ originalHash signedDocument = originalHash document
    /\ fields st' = fields st
    /\ auditLogs st' = auditLogs st ++ [record]
    /\ action record = signed
    /\ log_documentId record = documentId
    /\ documentHashBefore record = Some (calculateHash original)
    /\ documentHashAfter record = Some (calculateHash signedBuffer).
Proof.
  unfold signPdf. run_handler.
  destruct (lookup_document st documentId) as [document |] eqn:Hdoc; cbn;
    [ | discriminate ].
  destruct (valued_fields st documentId) as [| field rest] eqn:Hfields; cbn;
    [ discriminate | ].
  destruct (files st (originalFileUrl document)) as [pdfBuffer |] eqn:Hfile;
    cbn; [ | discriminate ].
  destruct (PDFDocument_load pdfBuffer) as [pdfDoc |] eqn:Hload; cbn;
    [ | discriminate ].
  destruct (match embedField pdfDoc field with
            | Some d => embedFields d rest
            | None => None
            end) as [pdfDoc' |] eqn:Hembed; cbn; [ | discriminate ].
  destruct (save pdfDoc') as [signedBuffer |] eqn:Hsave; cbn;
    [ | discriminate ].
  intros _.
  exists document, pdfBuffer, pdfDoc, pdfDoc', signedBuffer.
  eexists. eexists. cbn.
  do 7 (split; [ first [ reflexivity | assumption | discriminate ] | ]).
  split; [ rewrite Nat.eqb_refl; reflexivity | ].
  split; [ intros p Hp; rewrite (Path_eqb_neq _ _ Hp); reflexivity | ].
  split.
  { unfold lookup_document. cbn.
    rewrite (lookup_document_id _ _ _ Hdoc).
    rewrite (find_map_replace doc_id documentId); [ | reflexivity ].
    unfold lookup_document in Hdoc. rewrite Hdoc. reflexivity. }
  cbn. repeat split; reflexivity.
Qed.

End Effects.

Lemma signPdf_fails_without_trace_witness :
  signPdf (platform := Toy.platform) Toy.meta 0%nat
    Toy.undecodable_signature
  = (Toy.undecodable_signature, failed_to_sign).
Proof.
  pose (st := Toy.undecodable_signature).
  destruct (signPdf_fails_without_trace (platform := Toy.platform)
              Toy.meta 0%nat st) as [_ Hfound].
  destruct (Hfound (hd Toy.blank_document (documents st)))
    as [_ Hfails]; [ reflexivity | ].
  apply Hfails; [ discriminate | ].
  right. exists (content Toy.pdf). split; [ reflexivity | ].
  right. exists (content Toy.pdf). split; [ reflexivity | ].
  left. reflexivity.
Defined.

Lemma signPdf_success_witness :
  exists signedBuffer signedDocument,
    let st' := fst (signPdf (platform := Toy.platform) Toy.meta 0%nat
                      Toy.ready_to_sign) in
    files st' (SignedPath 1) = Some signedBuffer
    /\ lookup_document st' 0%nat = Some signedDocument
    /\ status signedDocument = Signed
    /\ signedHash signedDocument
       = Some (calculateHash (platform := Toy.platform) signedBuffer).
Proof.
  destruct (signPdf_success (platform := Toy.platform) Toy.meta 0%nat
              Toy.ready_to_sign)
    as (document & original & pdfDoc & pdfDoc' & signedBuffer
        & signedDocument & record & H);
    [ reflexivity | ].
  exists signedBuffer, signedDocument. cbn zeta in H |- *.
  repeat split; apply H.
Defined.

Section Upload.
Context {N : Type} {num : JsNumber N} {platform : Platform N}.
Local Close Scope Q_scope.
Local Open Scope string_scope.
Local Open Scope list_scope.

(** The pages are numbered from [i + 1] on. *)
Lemma collect_pages_numbers (pdfDoc : PDFDocument) (count i : nat)
    (pages : list (PageInfo N)) :
  collect_pages pdfDoc i count = Some pages ->
  map page_pageNumber pages = seq (i + 1) count.
Proof.
  revert i pages. induction count as [| count IH]; intros i pages; cbn.
  - intros E. injection E as <-. reflexivity.
  - destruct (getSize pdfDoc (Z.of_nat i)) as [[w h] |]; [ | discriminate ].
    destruct (collect_pages pdfDoc (S i) count) as [rest |] eqn:Hrest;
      [ | discriminate ].
    intros E. injection E as <-. cbn. f_equal.
    rewrite (IH (S i) rest Hrest). reflexivity.
Qed.

(** X22: an upload that is answered with 201 was given a PDF below the
    size limit; the file is on disk under a fresh name, and one 'draft'
    document was added whose original is that file, whose digest is the
    digest of the uploaded bytes, and whose pages are numbered 1 to
    pageCount; the log got one 'uploaded' record that carries the digest;
    no field changed. *)
Theorem upload_stores_document
    (meta : Meta) (file : option UploadedFile) (st : State N) :
  statusCode (snd (upload meta file st)) = 201 ->
  exists f document record,
    let st' := fst (upload meta file st) in
    file = Some f
    /\ mimetype f = pdf_mimetype
    /\ (Z.of_nat (List.length (content f)) < fileSize_limit)%Z
    /\ body (snd (upload meta file st)) = DocumentBody document
    /\ documents st' = documents st ++ [document]
    /\ doc_id document = next_oid st
    /\ originalFileName document = originalname f
    /\ originalFileUrl document = UploadsPath (next_uuid st) (originalname f)
    /\ files st' (originalFileUrl document) = Some (content f)
    /\ (forall p, p <> originalFileUrl document -> files st' p = files st p)
    /\ originalHash document = calculateHash (content f)
    /\ status document = Draft
    /\ signedFileUrl document = None
    /\ signedHash document = None
    /\ map page_pageNumber (pages document) = seq 1 (pageCount document)
    /\ fields st' = fields st
    /\ auditLogs st' = auditLogs st ++ [record]
    /\ action record = uploaded
    /\ log_documentId record = doc_id document
    /\ documentHashBefore record = None
    /\ documentHashAfter record = Some (originalHash document).
Proof.
  unfold upload. destruct file as [f |]; [ | discriminate ].
  destruct (String.eqb_spec (mimetype f) pdf_mimetype) as [Hmime |];
    cbn [negb]; [ | discriminate ].
  destruct (Z.leb_spec fileSize_limit (Z.of_nat (List.length (content f))))
    as [| Hsize]; [ discriminate | ].
  run_handler. rewrite !Nat.eqb_refl, !String.eqb_refl. cbn.
  destruct (PDFDocument_load (content f)) as [pdfDoc |]; cbn;
    [ | discriminate ].
  destruct (collect_pages pdfDoc 0 (getPageCount pdfDoc)) as [pages |]
    eqn:Hpages; cbn; [ | discriminate ].
  intros _. exists f. eexists. eexists. cbn.
  do 8 (split; [ first [ reflexivity | assumption ] | ]). cbn.
  split; [ rewrite !Nat.eqb_refl, !String.eqb_refl; reflexivity | ].
  split; [ intros p Hp; rewrite (Path_eqb_neq _ _ Hp); reflexivity | ].
  do 4 (split; [ reflexivity | ]).
  split; [ apply (collect_pages_numbers _ _ _ _ Hpages) | ].
  repeat split; reflexivity.
Qed.

(** X23: an upload without a file is answered with 400, and a file that
    is not a PDF or that reaches the size limit with 500; each leaves the
    store as it was.  A PDF below the limit that cannot be loaded, or whose
    pages cannot be read, is answered with 500 as well, and adds no
    document, field or record; but it was written to disk before the
    handler started, and it stays there. *)
Theorem upload_failure_leaves_the_file
    (meta : Meta) (file : option UploadedFile) (st : State N) :
  (file = None ->
   upload meta file st
   = (st, {| statusCode := 400; body := ErrorBody "No PDF file provided" |}))
  /\ (forall f, file = Some f ->
        (mimetype f <> pdf_mimetype ->
         upload meta file st
         = (st, {| statusCode := 500;
                   body := ErrorBody "Only PDF files are allowed" |}))
        /\ (mimetype f = pdf_mimetype ->
            (fileSize_limit <= Z.of_nat (List.length (content f)))%Z ->
            upload meta file st
            = (st, {| statusCode := 500;
                      body := ErrorBody "File too large" |}))
        /\ (mimetype f = pdf_mimetype ->
            (Z.of_nat (List.length (content f)) < fileSize_limit)%Z ->
            (PDFDocument_load (content f) = None
             \/ exists pdfDoc,
                  PDFDocument_load (content f) = Some pdfDoc
                  /\ collect_pages pdfDoc 0 (getPageCount pdfDoc) = None) ->
            let st' := fst (upload meta file st) in
            let stored := UploadsPath (next_uuid st) (originalname f) in
            snd (upload meta file st)
            = {| statusCode := 500;
                 body := ErrorBody "Failed to upload document" |}
            /\ files st' stored = Some (content f)
            /\ (forall p, p <> stored -> files st' p = files st p)
            /\ documents st' = documents st
            /\ fields st' = fields st
            /\ auditLogs st' = auditLogs st)).
Proof.
  unfold upload. split; [ intros ->; reflexivity | ].
  intros f ->. split; [ | split ].
  - intros Hmime.
    destruct (String.eqb_spec (mimetype f) pdf_mimetype);
      [ contradiction | reflexivity ].
  - intros Hmime Hsize. rewrite Hmime, String.eqb_refl. cbn [negb].
    destruct (Z.leb_spec fileSize_limit
                (Z.of_nat (List.length (content f)))); [ reflexivity | ].
    exfalso. apply (Z.lt_irrefl fileSize_limit).
    apply (Z.le_lt_trans _ (Z.of_nat (List.length (content f))));
      assumption.
  - intros Hmime Hsize Hcause. rewrite Hmime, String.eqb_refl. cbn [negb].
    destruct (Z.leb_spec fileSize_limit
                (Z.of_nat (List.length (content f)))) as [Hle |].
    { exfalso. apply (Z.lt_irrefl fileSize_limit).
      apply (Z.le_lt_trans _ (Z.of_nat (List.length (content f))));
        assumption. }
    run_handler. rewrite !Nat.eqb_refl, !String.eqb_refl. cbn.
    destruct Hcause as [-> | (pdfDoc & -> & Hpages)]; cbn.
    + split; [ reflexivity | ].
      split; [ rewrite !Nat.eqb_refl, !String.eqb_refl; reflexivity | ].
      split;
        [ intros p Hp; rewrite (Path_eqb_neq _ _ Hp); reflexivity | ].
      repeat split; reflexivity.
    + rewrite Hpages. cbn. split; [ reflexivity | ].
      split; [ rewrite !Nat.eqb_refl, !String.eqb_refl; reflexivity | ].
      split;
        [ intros p Hp; rewrite (Path_eqb_neq _ _ Hp); reflexivity | ].
      repeat split; reflexivity.
Qed.

End Upload.

Lemma upload_stores_document_witness :
  exists document,
    let st' := fst (upload (platform := Toy.platform) Toy.meta
                      (Some Toy.pdf) empty_state) in
    documents st' = [document]
    /\ files st' (originalFileUrl document) = Some (content Toy.pdf)
    /\ originalHash document
       = calculateHash (platform := Toy.platform) (content Toy.pdf).
Proof.
  destruct (upload_stores_document (platform := Toy.platform) Toy.meta
              (Some Toy.pdf) empty_state)
    as (f & document & record & H); [ reflexivity | ].
  exists document. cbn zeta in H |- *.
  destruct H as (Hf & _ & _ & _ & Hdocs & _ & _ & _ & Hfile & _ & Hhash & _).
  injection Hf as <-. repeat split; assumption.
Defined.

Lemma upload_failure_leaves_the_file_witness :
  let text := {| originalname := "notes.txt"; mimetype := "text/plain";
                 content := list_byte_of_string "hello" |} in
  fst (upload (platform := Toy.platform) Toy.meta (Some text) empty_state)
  = empty_state.
Proof.
  pose (text := {| originalname := "notes.txt"; mimetype := "text/plain";
                   content := list_byte_of_string "hello" |}).
  destruct (upload_failure_leaves_the_file (platform := Toy.platform)
              Toy.meta (Some text) empty_state) as [_ Hfile].
  destruct (Hfile text eq_refl) as [Hrejected _].
  subst text. cbv zeta. rewrite Hrejected; [ reflexivity | ].
  vm_compute. discriminate.
Defined.

(** *** A selected radio field *)

Section RadioFields.
Context {N : Type} {num : JsNumber N} {platform : Platform N}.
Local Close Scope Q_scope.
Local Open Scope string_scope.
Local Open Scope list_scope.
Local Open Scope js_scope.

(** One field that throws on every document ends the loop. *)
Lemma embedFields_fails (field : Field N) (fields : list (Field N)) :
  In field fields ->
  (forall pdfDoc, embedField pdfDoc field = None) ->
  forall pdfDoc, embedFields pdfDoc fields = None.
Proof.
  intros Hin Hfails. induction fields as [| f rest IH]; intros pdfDoc.
  - destruct Hin.
  - cbn [embedFields]. destruct Hin as [-> | Hin].
    + rewrite Hfails. reflexivity.
    + destruct (embedField pdfDoc f); [ apply IH; exact Hin | reflexivity ].
Qed.

(** X17: the circle of a radio field is drawn with the colour object
    [{ red: 0, green: 0, blue: 0 }].  Where the library refuses that
    object, a document with a selected radio field cannot be signed: the
    request is answered with 500 'Failed to sign PDF' and the store stays
    as it was, whatever the other fields are. *)
Theorem signPdf_selected_radio_fails
    (meta : Meta) (documentId : ObjectId) (st : State N) (field : Field N) :
  (forall pdfDoc page centerX centerY radius,
     drawCircle pdfDoc page centerX centerY radius
       {| red := lit 0; green := lit 0; blue := lit 0 |} = None) ->
  lookup_document st documentId <> None ->
  In field (valued_fields st documentId) ->
  fieldType field = radio ->
  truthy (value field) = true ->
  signPdf meta documentId st = (st, failed_to_sign).
Proof.
  intros Hrefused Hdoc Hin Hradio Htruthy.
  assert (Hfield : forall pdfDoc, embedField pdfDoc field = None).
  { intros pdfDoc. unfold embedField.
    destruct (getSize pdfDoc _) as [[pdfWidth pdfHeight] |];
      [ | reflexivity ].
    rewrite Hradio, Htruthy. unfold embedRadioFill. apply Hrefused. }
  unfold signPdf. run_handler.
  destruct (lookup_document st documentId) as [document |];
    [ | contradiction Hdoc; reflexivity ].
  cbn.
  destruct (valued_fields st documentId) as [| f rest] eqn:Efields;
    [ destruct Hin | ].
  cbn [List.length Nat.eqb].
  destruct (files st (originalFileUrl document)) as [pdfBuffer |];
    cbn -[embedFields]; [ | reflexivity ].
  destruct (PDFDocument_load pdfBuffer) as [pdfDoc |];
    cbn -[embedFields]; [ | reflexivity ].
  rewrite (embedFields_fails field (f :: rest) Hin Hfield pdfDoc).
  reflexivity.
Qed.

End RadioFields.

Lemma signPdf_selected_radio_fails_witness :
  signPdf (platform := Toy.platform) Toy.meta 0%nat Toy.selected_radio
  = (Toy.selected_radio, failed_to_sign).
Proof.
  apply (signPdf_selected_radio_fails (platform := Toy.platform)
           Toy.meta 0%nat Toy.selected_radio
           (hd Toy.blank_field (fields Toy.selected_radio))).
  - reflexivity.
  - discriminate.
  - left. reflexivity.
  - reflexivity.
  - reflexivity.
Defined.

(** *** What the field requests do to the store *)

(** As [run_handler], but the two checks of a position stay folded. *)
Ltac simp_route := cbn -[out_of_range FieldSchema_validate].

Ltac run_route :=
  unfold try_catch, bind, ret, throw, orThrow, json, get_state,
    Document_findById, Field_findById, Field_findByIdAndDelete,
    new_ObjectId, set_documents, set_fields, Document_findByIdAndUpdate,
    Field_create, Field_save, AuditLog_create;
  simp_route.

Section FieldRequests.
Context {N : Type} {num : JsNumber N} {platform : Platform N}.
Local Close Scope Q_scope.
Local Open Scope string_scope.
Local Open Scope list_scope.

Lemma filter_app_one {A : Type} (p : A -> bool) (l : list A) (a : A) :
  p a = false -> filter p (l ++ [a]) = filter p l.
Proof.
  intros Hp. rewrite filter_app. cbn. rewrite Hp. apply app_nil_r.
Qed.

(** Looking up another identifier after the records with [id] were
    removed. *)
Lemma find_filter_other {A : Type} (key : A -> nat) (id id' : nat)
    (l : list A) :
  id' <> id ->
  find (fun a => Nat.eqb (key a) id')
    (filter (fun a => negb (Nat.eqb (key a) id)) l)
  = find (fun a => Nat.eqb (key a) id') l.
Proof.
  intros Hneq. induction l as [| a l IH]; cbn; [ reflexivity | ].
  destruct (Nat.eqb_spec (key a) id) as [E | E]; cbn.
  - destruct (Nat.eqb_spec (key a) id'); [ congruence | exact IH ].
  - rewrite IH. reflexivity.
Qed.

(** The validators of the schema read the position only. *)
Lemma FieldSchema_validate_position (f f' : Field N) :
  position f = position f' ->
  FieldSchema_validate f = FieldSchema_validate f'.
Proof.
  intros E. unfold FieldSchema_validate. rewrite E. reflexivity.
Qed.

(** X24: a request to create a field for an unknown document is answered
    with 404, one without a position with 500, one with a percentage
    below 0 or above 1 with 400, and one whose type is not of the schema or
    whose position the validators of the schema refuse with 500; each of
    these leaves the store as it was.  A request answered with 201 added
    one field: it has a fresh identifier, the position of the request
    (which passed both checks) and no value, so that signing ignores it;
    the document of the field is 'pending_signature' again, also when it
    was signed, and keeps its signed file and digest; the log got one
    'field_added' record without digests. *)
Theorem createField_effects
    (meta : Meta) (req : CreateFieldBody N) (st : State N) :
  let st' := fst (createField meta req st) in
  let response := snd (createField meta req st) in
  let failed :=
    {| statusCode := 500; body := ErrorBody "Failed to create field" |} in
  (lookup_document st (req_documentId req) = None ->
   createField meta req st
   = (st, {| statusCode := 404; body := ErrorBody "Document not found" |}))
  /\ (lookup_document st (req_documentId req) <> None ->
      (req_position req = None -> createField meta req st = (st, failed))
      /\ (forall pos, req_position req = Some pos ->
            (out_of_range pos = true ->
             createField meta req st = (st, bad_position))
            /\ (out_of_range pos = false ->
                (FieldType_of_string (req_fieldType req) = None
                 \/ exists field, position field = pos
                      /\ FieldSchema_validate field = false) ->
                createField meta req st = (st, failed))))
  /\ (statusCode response = 201 ->
      exists field record,
        body response = FieldBody field
        /\ fields st' = fields st ++ [field]
        /\ field_id field = next_oid st
        /\ field_documentId field = req_documentId req
        /\ lookup_document st (req_documentId req) <> None
        /\ req_position req = Some (position field)
        /\ out_of_range (position field) = false
        /\ FieldSchema_validate field = true
        /\ FieldType_of_string (req_fieldType req) = Some (fieldType field)
        /\ value field = VNull
        /\ (forall documentId,
              valued_fields st' documentId = valued_fields st documentId)
        /\ (forall d, In d (documents st) ->
              exists d', In d' (documents st')
                /\ doc_id d' = doc_id d
                /\ originalHash d' = originalHash d
                /\ signedFileUrl d' = signedFileUrl d
                /\ signedHash d' = signedHash d
                /\ status d' = if Nat.eqb (doc_id d) (req_documentId req)
                               then PendingSignature else status d)
        /\ files st' = files st
        /\ auditLogs st' = auditLogs st ++ [record]
        /\ action record = field_added
        /\ log_documentId record = req_documentId req
        /\ documentHashBefore record = None
        /\ documentHashAfter record = None).
Proof.
  unfold createField. run_route.
  destruct (lookup_document st (req_documentId req)) as [document |]
    eqn:Hdoc; simp_route.
  2: { split; [ reflexivity | ].
       split; [ intros Hfound; exfalso; apply Hfound; reflexivity
              | discriminate ]. }
  split; [ discriminate | ].
  destruct (req_position req) as [pos |] eqn:Hpos; simp_route.
  2: { split; [ | discriminate ]. intros _.
       split; [ reflexivity | discriminate ]. }
  destruct (out_of_range pos) eqn:Hrange; simp_route.
  { split; [ | discriminate ]. intros _. split; [ discriminate | ].
    intros pos' E. injection E as <-. rewrite Hrange.
    split; [ reflexivity | discriminate ]. }
  destruct (FieldType_of_string (req_fieldType req)) as [ty |] eqn:Hty;
    simp_route.
  2: { split; [ | discriminate ]. intros _. split; [ discriminate | ].
       intros pos' E. injection E as <-. rewrite Hrange.
       split; [ discriminate | reflexivity ]. }
  match goal with
  | |- context [if ?c then _ else _] => destruct c eqn:Hvalid; simp_route
  end.
  2: { split; [ | discriminate ]. intros _. split; [ discriminate | ].
       intros pos' E. injection E as <-. rewrite Hrange.
       split; [ discriminate | reflexivity ]. }
  split.
  { intros _. split; [ discriminate | ].
    intros pos' E. injection E as <-. rewrite Hrange.
    split; [ discriminate | ]. intros _ [Hcause | (f & Hf & Hcause)];
      [ discriminate | ].
    match type of Hvalid with
    | FieldSchema_validate ?g = true =>
        rewrite (FieldSchema_validate_position f g Hf) in Hcause
    end.
    rewrite Hvalid in Hcause. discriminate. }
  intros _. eexists. eexists.
  split; [ reflexivity | ]. split; [ reflexivity | ]. simp_route.
  do 2 (split; [ reflexivity | ]).
  split; [ discriminate | ].
  split; [ reflexivity | ].
  split; [ exact Hrange | ].
  split; [ exact Hvalid | ].
  do 2 (split; [ reflexivity | ]).
  split.
  { intros documentId. unfold valued_fields. cbn.
    apply filter_app_one. cbn. apply andb_false_r. }
  split.
  { intros d Hd. eexists. split; [ apply (in_map _ _ _ Hd) | ].
    cbn. destruct (Nat.eqb (doc_id d) (req_documentId req)); simp_route;
      repeat split; reflexivity. }
  repeat split; reflexivity.
Qed.

(** X25: deleting a field that exists is answered with 200, removes the
    field and nothing else (every other field is found as before, the
    documents and the files are the same) and appends one 'field_deleted'
    record; deleting a field that does not exist is answered with 404 and
    leaves the store as it was. *)
Theorem deleteField_effects (meta : Meta) (id : ObjectId) (st : State N) :
  let st' := fst (deleteField meta id st) in
  let response := snd (deleteField meta id st) in
  (lookup_field st id = None -> statusCode response = 404 /\ st' = st)
  /\ (forall field, lookup_field st id = Some field ->
      statusCode response = 200
      /\ lookup_field st' id = None
      /\ (forall f, In f (fields st')
                    <-> In f (fields st) /\ field_id f <> id)
      /\ (forall id', id' <> id -> lookup_field st' id' = lookup_field st id')
      /\ documents st' = documents st
      /\ files st' = files st
      /\ exists record,
           auditLogs st' = auditLogs st ++ [record]
           /\ action record = field_deleted
           /\ log_documentId record = field_documentId field
           /\ documentHashBefore record = None
           /\ documentHashAfter record = None).
Proof.
  unfold deleteField. run_handler.
  destruct (lookup_field st id) as [field |] eqn:Hfield; cbn.
  2: { split; [ intros _; split; reflexivity | discriminate ]. }
  split; [ discriminate | ].
  intros f E. injection E as <-.
  split; [ reflexivity | ].
  assert (Hin : forall f,
            In f (filter (fun f' => negb (Nat.eqb (field_id f') id))
                    (fields st))
                          <-> In f (fields st) /\ field_id f <> id).
  { intros f. rewrite filter_In, negb_true_iff, Nat.eqb_neq. reflexivity. }
  split.
  { unfold lookup_field. cbn.
    destruct (find _ _) as [f |] eqn:Hfind; [ | reflexivity ].
    apply find_some in Hfind. destruct Hfind as [Hf Hid].
    apply Hin in Hf. apply Nat.eqb_eq in Hid. tauto. }
  split; [ exact Hin | ].
  split.
  { intros id' Hneq. unfold lookup_field. cbn.
    apply (find_filter_other field_id). exact Hneq. }
  do 2 (split; [ reflexivity | ]).
  eexists. split; [ reflexivity | ]. repeat split; reflexivity.
Qed.

(** X26: setting the value of a stored field is answered with 200: the
    field found under the identifier then has the new value, the time and
    the address of the request, and the type, label, position and document
    it had; no other field, no document and no file changes, and nothing
    is written to the log. *)
Theorem setFieldValue_effects
    (meta : Meta) (id : ObjectId) (v : FieldValue) (st : State N)
    (field : Field N) :
  lookup_field st id = Some field ->
  FieldSchema_validate field = true ->
  let st' := fst (setFieldValue meta id v st) in
  exists field',
    snd (setFieldValue meta id v st)
    = {| statusCode := 200; body := FieldBody field' |}
    /\ lookup_field st' id = Some field'
    /\ value field' = v
    /\ signedAt field' = Some (timestamp meta)
    /\ signedByIP field' = Some (ip meta)
    /\ field_id field' = id
    /\ field_documentId field' = field_documentId field
    /\ fieldType field' = fieldType field
    /\ label field' = label field
    /\ position field' = position field
    /\ required field' = required field
    /\ (forall id', id' <> id -> lookup_field st' id' = lookup_field st id')
    /\ documents st' = documents st
    /\ auditLogs st' = auditLogs st
    /\ files st' = files st.
Proof.
  intros Hfield Hvalid. unfold setFieldValue. run_route.
  rewrite Hfield. simp_route.
  match goal with
  | |- context [if ?c then _ else _] =>
      replace c with true by (symmetry; exact Hvalid)
  end.
  simp_route.
  pose proof (lookup_field_id _ _ _ Hfield) as Hid.
  eexists. split; [ reflexivity | ].
  split.
  { unfold lookup_field. cbn. rewrite Hid.
    rewrite (find_map_replace field_id id); [ | reflexivity ].
    unfold lookup_field in Hfield. rewrite Hfield. reflexivity. }
  cbn. do 3 (split; [ reflexivity | ]).
  split; [ exact Hid | ].
  do 5 (split; [ reflexivity | ]).
  split.
  { intros id' Hneq. unfold lookup_field. cbn. rewrite Hid.
    apply find_map_other; [ reflexivity | exact Hneq ]. }
  repeat split; reflexivity.
Qed.

(** X27: a request to modify an unknown field is answered with 404, one
    with a percentage below 0 or above 1 with 400, and one whose field the
    validators of the schema refuse with 500; each of these leaves the
    store as it was.  With 200, the field found under the identifier has
    the position, label and required flag of the request where the request
    gives them and its own otherwise, it passes the validators of the
    schema, and it keeps its value, signing time, type and document; no
    other field and no document changes, and one 'field_modified' record
    is appended. *)
Theorem updateField_effects
    (meta : Meta) (id : ObjectId) (req : UpdateFieldBody N) (st : State N) :
  let st' := fst (updateField meta id req st) in
  let response := snd (updateField meta id req st) in
  (lookup_field st id = None ->
   updateField meta id req st
   = (st, {| statusCode := 404; body := ErrorBody "Field not found" |}))
  /\ (forall field, lookup_field st id = Some field ->
        (forall pos, upd_position req = Some pos ->
           out_of_range pos = true ->
           updateField meta id req st = (st, bad_position))
        /\ ((forall pos, upd_position req = Some pos ->
               out_of_range pos = false) ->
            FieldSchema_validate
              match upd_position req with
              | Some pos => with_position field pos
              | None => field
              end = false ->
            updateField meta id req st
            = (st, {| statusCode := 500;
                      body := ErrorBody "Failed to update field" |})))
  /\ (statusCode response = 200 ->
      exists field field' record,
        lookup_field st id = Some field
        /\ body response = FieldBody field'
        /\ lookup_field st' id = Some field'
        /\ position field' = match upd_position req with
                             | Some pos => pos
                             | None => position field
                             end
        /\ label field' = match upd_label req with
                          | Some l => l
                          | None => label field
                          end
        /\ required field' = match upd_required req with
                             | Some r => r
                             | None => required field
                             end
        /\ FieldSchema_validate field' = true
        /\ value field' = value field
        /\ signedAt field' = signedAt field
        /\ signedByIP field' = signedByIP field
        /\ fieldType field' = fieldType field
        /\ field_documentId field' = field_documentId field
        /\ (forall id', id' <> id ->
              lookup_field st' id' = lookup_field st id')
        /\ documents st' = documents st
        /\ files st' = files st
        /\ auditLogs st' = auditLogs st ++ [record]
        /\ action record = field_modified
        /\ log_documentId record = field_documentId field
        /\ documentHashBefore record = None
        /\ documentHashAfter record = None).
Proof.
  unfold updateField. run_route.
  destruct (lookup_field st id) as [field |] eqn:Hfield; simp_route;
    [ | split; [ reflexivity | split; discriminate ] ].
  split; [ discriminate | ].
  pose proof (lookup_field_id _ _ _ Hfield) as Hid.
  assert (Hdone : forall field',
    field_id field' = id ->
    find (fun f => Nat.eqb (field_id f) id)
      (map (fun f' => if Nat.eqb (field_id f') (field_id field')
                      then field' else f') (fields st))
    = Some field'
    /\ (forall id', id' <> id ->
          find (fun f => Nat.eqb (field_id f) id')
            (map (fun f' => if Nat.eqb (field_id f') (field_id field')
                            then field' else f') (fields st))
          = find (fun f => Nat.eqb (field_id f) id') (fields st))).
  { intros field' Hid'. rewrite Hid'. split.
    - rewrite (find_map_replace field_id id); [ | exact Hid' ].
      unfold lookup_field in Hfield. rewrite Hfield. reflexivity.
    - intros id' Hneq. apply find_map_other; assumption. }
  destruct (upd_position req) as [pos |]; simp_route;
    [ destruct (out_of_range pos) eqn:Hrange; simp_route | ].
  { split; [ | discriminate ]. intros f E. injection E as <-.
    split; [ reflexivity | ].
    intros Hin. specialize (Hin pos eq_refl). congruence. }
  all: match goal with
       | |- context [if ?c then _ else _] => destruct c eqn:Hvalid; simp_route
       end.
  2, 4: split; [ | discriminate ]; intros f E; injection E as <-;
        split; [ intros pos' E'; try injection E' as <-; intros;
                 congruence
               | reflexivity ].
  all: split;
         [ intros f E; injection E as <-;
           split; [ intros pos' E'; try injection E' as <-; intros;
                    congruence | ];
           intros _ Hcause;
           match type of Hvalid with
           | FieldSchema_validate ?g = true =>
               match type of Hcause with
               | FieldSchema_validate ?h = false =>
                   assert (E : FieldSchema_validate g
                               = FieldSchema_validate h)
                     by (apply FieldSchema_validate_position;
                         destruct (upd_label req), (upd_required req);
                         reflexivity)
               end
           end;
           congruence | ].
  all: intros _; exists field; eexists; eexists.
  all: split; [ reflexivity | ]; split; [ reflexivity | ].
  all: match type of Hvalid with
       | FieldSchema_validate ?f' = true =>
           destruct (Hdone f') as [Hfound Hothers];
           [ destruct (upd_label req), (upd_required req); exact Hid | ]
       end.
  all: split; [ exact Hfound | ].
  all: split;
         [ destruct (upd_label req), (upd_required req); reflexivity | ].
  all: split;
         [ destruct (upd_label req), (upd_required req); reflexivity | ].
  all: split;
         [ destruct (upd_label req), (upd_required req); reflexivity | ].
  all: split; [ exact Hvalid | ].
  all: do 5 (split;
         [ destruct (upd_label req), (upd_required req); reflexivity | ]).
  all: split; [ exact Hothers | ].
  all: do 3 (split; [ reflexivity | ]).
  all: repeat split;
         destruct (upd_label req), (upd_required req); reflexivity.
Qed.

End FieldRequests.

Lemma createField_effects_witness :
  let st := serve (platform := Toy.platform) empty_state Toy.sign_once in
  exists d',
    In d' (documents (fst (createField Toy.meta
                             Toy.text_field st)))
    /\ status d' = PendingSignature
    /\ signedHash d' = signedHash (hd Toy.blank_document (documents st)).
Proof.
  pose (st := serve (platform := Toy.platform) empty_state Toy.sign_once).
  destruct (createField_effects Toy.meta
              Toy.text_field st) as (_ & _ & Hcreated).
  cbn zeta in Hcreated.
  destruct Hcreated as (field & record & H); [ reflexivity | ].
  destruct H as (_ & _ & _ & _ & _ & _ & _ & _ & _ & _ & _ & Hdocs & _).
  destruct (Hdocs (hd Toy.blank_document (documents st)))
    as (d' & Hin & _ & _ & _ & Hhash & Hstatus);
    [ left; reflexivity | ].
  exists d'. repeat split; assumption.
Defined.

Lemma deleteField_effects_witness :
  let st' := fst (deleteField Toy.meta 1%nat
                    Toy.ready_to_sign) in
  lookup_field st' 1%nat = None
  /\ documents st' = documents Toy.ready_to_sign.
Proof.
  destruct (deleteField_effects Toy.meta 1%nat
              Toy.ready_to_sign) as [_ Hdeleted].
  cbn zeta in Hdeleted.
  destruct (Hdeleted (hd Toy.blank_field (fields Toy.ready_to_sign)))
    as (_ & Hgone & _ & _ & Hdocs & _); [ reflexivity | ].
  split; assumption.
Defined.

Lemma setFieldValue_effects_witness :
  exists field',
    let st' := fst (setFieldValue Toy.meta 1%nat
                      (VBoolean true) Toy.ready_to_sign) in
    lookup_field st' 1%nat = Some field'
    /\ value field' = VBoolean true
    /\ auditLogs st' = auditLogs Toy.ready_to_sign.
Proof.
  destruct (setFieldValue_effects Toy.meta 1%nat
              (VBoolean true) Toy.ready_to_sign
              (hd Toy.blank_field (fields Toy.ready_to_sign)))
    as (field' & H); [ reflexivity | reflexivity | ].
  exists field'. cbn zeta in H |- *.
  destruct H as (_ & Hfound & Hvalue & _ & _ & _ & _ & _ & _ & _ & _ & _
                 & _ & Hlog & _).
  repeat split; assumption.
Defined.

Lemma updateField_effects_witness :
  let moved := {| upd_position :=
                    Some (Toy.position_at (2#10) (2#10) (3#10) (1#10));
                  upd_label := None; upd_required := None |} in
  exists field',
    lookup_field (fst (updateField Toy.meta
                         1%nat moved Toy.ready_to_sign)) 1%nat
    = Some field'
    /\ position field' = Toy.position_at (2#10) (2#10) (3#10) (1#10)
    /\ value field' = VString "Jane Doe".
Proof.
  pose (moved := {| upd_position :=
                      Some (Toy.position_at (2#10) (2#10) (3#10) (1#10));
                    upd_label := None; upd_required := None |}).
  destruct (updateField_effects Toy.meta 1%nat
              moved Toy.ready_to_sign) as (_ & _ & Hmodified).
  cbn zeta in Hmodified.
  destruct Hmodified as (field & field' & record & H); [ reflexivity | ].
  destruct H as (Hold & _ & Hfound & Hpos & _ & _ & _ & Hvalue & _).
  exists field'. split; [ exact Hfound | ]. split; [ exact Hpos | ].
  rewrite Hvalue. vm_compute in Hold. injection Hold as <-. reflexivity.
Defined.

(** *** The audit log *)

Section AuditTrail.
Context {N : Type} {num : JsNumber N} {platform : Platform N}.
Local Close Scope Q_scope.
Local Open Scope string_scope.
Local Open Scope list_scope.

Ltac no_record :=
  exists []; split; [ symmetry; apply app_nil_r | reflexivity ].

Ltac one_record :=
  eexists [_]; split; reflexivity.

(** One request appends at most one record: the one of its action when it
    succeeds, none when it fails or sets the value of a field. *)
Lemma handle_records (req : Request N) (st : State N) :
  exists logs,
    auditLogs (fst (handle req st)) = auditLogs st ++ logs
    /\ map action logs
       = if succeeded (snd (handle req st))
         then match recorded_action req with
              | Some a => [a]
              | None => []
              end
         else [].
Proof.
  destruct req as [meta file | meta req | meta id req | meta id | meta id v
                  | meta documentId]; cbn [handle recorded_action].
  - unfold upload. destruct file as [f |]; [ | no_record ].
    destruct (negb (String.eqb _ _)); [ no_record | ].
    destruct (Z.leb _ _); [ no_record | ].
    run_handler. rewrite !Nat.eqb_refl, !String.eqb_refl. cbn.
    split_cases; first [ no_record | one_record ].
  - unfold createField. run_handler.
    split_cases; first [ no_record | one_record ].
  - unfold updateField. run_handler.
    split_cases; first [ no_record | one_record ].
  - unfold deleteField. run_handler.
    split_cases; first [ no_record | one_record ].
  - unfold setFieldValue. run_handler.
    split_cases; no_record.
  - unfold signPdf. run_handler.
    destruct (lookup_document st documentId) as [document |]; cbn;
      [ | no_record ].
    destruct (Nat.eqb _ 0); cbn; [ no_record | ].
    destruct (files st (originalFileUrl document)); cbn; [ | no_record ].
    split_cases; first [ no_record | one_record ].
Qed.

(** X28: the audit log only grows, and after any sequence of requests the
    records added are, in order, one for every upload, field creation,
    field modification, field deletion and signing that succeeded; a
    request that fails, and setting the value of a field, add none. *)
Theorem audit_log_records_successes
    (st : State N) (reqs : list (Request N)) :
  exists logs,
    auditLogs (serve st reqs) = auditLogs st ++ logs
    /\ map action logs = recorded_actions st reqs.
Proof.
  revert st. induction reqs as [| req reqs IH]; intros st; cbn.
  - exists []. split; [ symmetry; apply app_nil_r | reflexivity ].
  - destruct (handle_records req st) as (first & Hfirst & Hactions).
    destruct (IH (fst (handle req st))) as (rest & Hrest & Hactions').
    exists (first ++ rest). split.
    + rewrite Hrest, Hfirst, app_assoc. reflexivity.
    + rewrite map_app, Hactions, Hactions'. reflexivity.
Qed.

End AuditTrail.

(** *** Documents and fields over time *)

Section OverTime.
Context {N : Type} {num : JsNumber N} {platform : Platform N}.
Local Close Scope Q_scope.
Local Open Scope string_scope.
Local Open Scope list_scope.

Lemma same_original_refl (d : Document N) : same_original d d.
Proof.
  repeat split; reflexivity.
Qed.

Ltac document_kept d :=
  exists d; split; [ assumption | ];
  split; [ apply same_original_refl | reflexivity ].

(** One request keeps every document, its original and the file of its
    original. *)
Lemma handle_keeps_documents (req : Request N) (st : State N)
    (d : Document N) :
  chain_invariant st -> In d (documents st) ->
  exists d',
    In d' (documents (fst (handle req st)))
    /\ same_original d' d
    /\ files (fst (handle req st)) (originalFileUrl d)
       = files st (originalFileUrl d).
Proof.
  intros Hinv Hd.
  destruct (documents_stored st Hinv d Hd)
    as (uuid & name & buffer & Hurl & Hlt & _).
  rewrite Hurl.
  assert (Hold : Nat.eqb uuid (next_uuid st) = false).
  { destruct (Nat.eqb_spec uuid (next_uuid st)); [ lia | reflexivity ]. }
  destruct req as [meta file | meta req | meta id req | meta id | meta id v
                  | meta documentId]; cbn [handle].
  - unfold upload. destruct file as [f |]; [ | document_kept d ].
    destruct (negb (String.eqb _ _)); [ document_kept d | ].
    destruct (Z.leb _ _); [ document_kept d | ].
    run_handler. rewrite !Nat.eqb_refl, !String.eqb_refl. cbn.
    split_cases; try (rewrite Hold in *; discriminate); exists d; cbn;
      (split; [ try (apply in_or_app; left); exact Hd | ]);
      (split; [ apply same_original_refl | reflexivity ]).
  - unfold createField. run_handler.
    split_cases; try document_kept d.
    eexists. split; [ apply (in_map _ _ _ Hd) | ].
    split; [ | reflexivity ].
    destruct (Nat.eqb (doc_id d) (req_documentId req));
      repeat split; reflexivity.
  - unfold updateField. run_handler. split_cases; document_kept d.
  - unfold deleteField. run_handler. split_cases; document_kept d.
  - unfold setFieldValue. run_handler. split_cases; document_kept d.
  - unfold signPdf. run_handler.
    destruct (lookup_document st documentId) as [document |] eqn:Hdoc; cbn;
      [ | document_kept d ].
    destruct (Nat.eqb _ 0); cbn; [ document_kept d | ].
    destruct (files st (originalFileUrl document)); cbn;
      [ | document_kept d ].
    split_cases; try document_kept d.
    apply lookup_document_In in Hdoc. destruct Hdoc as [Hin Hid].
    eexists. split; [ apply (in_map _ _ _ Hd) | ].
    split; [ | reflexivity ].
    destruct (Nat.eqb_spec (doc_id d) (doc_id document)) as [E |];
      [ | apply same_original_refl ].
    rewrite (documents_by_id st Hinv d document Hd Hin E).
    repeat split; reflexivity.
Qed.

Lemma serve_keeps_documents (reqs : list (Request N)) (st : State N)
    (d : Document N) :
  chain_invariant st -> In d (documents st) ->
  exists d',
    In d' (documents (serve st reqs))
    /\ same_original d' d
    /\ files (serve st reqs) (originalFileUrl d)
       = files st (originalFileUrl d).
Proof.
  revert st d. induction reqs as [| req reqs IH]; intros st d Hinv Hd; cbn.
  - exists d. split; [ exact Hd | ].
    split; [ apply same_original_refl | reflexivity ].
  - destruct (handle_keeps_documents req st d Hinv Hd)
      as (d1 & Hd1 & Hsame1 & Hfile1).
    destruct (IH _ d1 (handle_keeps_chain req st Hinv) Hd1)
      as (d2 & Hd2 & Hsame2 & Hfile2).
    exists d2. split; [ exact Hd2 | ].
    destruct Hsame1 as (A1 & B1 & C1 & D1 & E1 & F1).
    destruct Hsame2 as (A2 & B2 & C2 & D2 & E2 & F2).
    split; [ repeat split; congruence | ].
    rewrite <- C1, Hfile2, C1. exact Hfile1.
Qed.

Lemma reachable_chain_invariant (st : State N) :
  reachable st -> chain_invariant st.
Proof.
  intros [reqs ->]. apply serve_keeps_chain, chain_invariant_empty.
Qed.

Lemma verifyHash_self (buffer : Buffer) :
  verifyHash buffer (calculateHash buffer) = true.
Proof.
  unfold verifyHash, timingSafeEqual. rewrite Nat.eqb_refl.
  apply Buffer_equals_eq. reflexivity.
Qed.

(** X29: a document that is stored stays stored whatever requests follow,
    under the same identifier and with the same original name, file name,
    digest and pages; the file of its original is never overwritten, so at
    any later time the bytes on disk verify against [originalHash]. *)
Theorem originals_are_kept
    (st : State N) (reqs : list (Request N)) (d : Document N) :
  reachable st -> In d (documents st) ->
  exists d' buffer,
    In d' (documents (serve st reqs))
    /\ doc_id d' = doc_id d
    /\ originalFileName d' = originalFileName d
    /\ originalFileUrl d' = originalFileUrl d
    /\ originalHash d' = originalHash d
    /\ pageCount d' = pageCount d
    /\ pages d' = pages d
    /\ files st (originalFileUrl d) = Some buffer
    /\ files (serve st reqs) (originalFileUrl d') = Some buffer
    /\ verifyHash buffer (originalHash d') = true.
Proof.
  intros Hreach Hd. apply reachable_chain_invariant in Hreach.
  destruct (serve_keeps_documents reqs st d Hreach Hd)
    as (d' & Hd' & (A & B & C & D & E & F) & Hfile).
  destruct (documents_stored st Hreach d Hd)
    as (uuid & name & buffer & Hurl & _ & Hstored & Hhash).
  exists d', buffer. rewrite C, D, Hfile, Hurl, Hstored.
  repeat split; try assumption.
  rewrite Hhash. apply verifyHash_self.
Qed.

(** **** Fields *)

(** What one request does to the list of fields, and to the counter. *)
Lemma handle_fields_shape (req : Request N) (st : State N) :
  next_oid st <= next_oid (fst (handle req st))
  /\ ((exists h, fields (fst (handle req st)) = map h (fields st)
         /\ forall f, In f (fields st) ->
              field_id (h f) = field_id f
              /\ exists f0, In f0 (fields st)
                   /\ field_documentId (h f) = field_documentId f0)
      \/ (exists p, fields (fst (handle req st)) = filter p (fields st))
      \/ (exists f, fields (fst (handle req st)) = fields st ++ [f]
            /\ field_id f = next_oid st
            /\ next_oid st < next_oid (fst (handle req st))
            /\ exists d, In d (documents st)
                 /\ doc_id d = field_documentId f)).
Proof.
  assert (Hsame : exists h, fields st = map h (fields st)
            /\ forall f, In f (fields st) ->
                 field_id (h f) = field_id f
                 /\ exists f0, In f0 (fields st)
                      /\ field_documentId (h f) = field_documentId f0).
  { exists (fun f => f). split; [ symmetry; apply map_id | ].
    intros f Hf. split; [ reflexivity | ]. exists f. auto. }
  assert (Hsaved : forall field field' id n,
            lookup_field st id = Some field ->
            n = field_id field ->
            field_id field' = field_id field ->
            field_documentId field' = field_documentId field ->
            forall f, In f (fields st) ->
              field_id (if Nat.eqb (field_id f) n then field' else f)
              = field_id f
              /\ exists f0, In f0 (fields st)
                   /\ field_documentId
                        (if Nat.eqb (field_id f) n then field' else f)
                      = field_documentId f0).
  { intros field field' id n Hfield -> Hid Hdoc f Hf.
    apply find_some in Hfield. destruct Hfield as [Hin _].
    destruct (Nat.eqb_spec (field_id f) (field_id field)) as [E |].
    - split; [ congruence | ]. exists field. auto.
    - split; [ reflexivity | ]. exists f. auto. }
  destruct req as [meta file | meta req | meta id req | meta id | meta id v
                  | meta documentId]; cbn [handle].
  - unfold upload. destruct file as [f |]; [ | split; auto ].
    destruct (negb (String.eqb _ _)); [ split; auto | ].
    destruct (Z.leb _ _); [ split; auto | ].
    run_handler. rewrite !Nat.eqb_refl, !String.eqb_refl. cbn.
    split_cases; (split; [ lia | left; exact Hsame ]).
  - unfold createField. run_route.
    destruct (lookup_document st (req_documentId req)) as [document |]
      eqn:Hdoc; simp_route; [ | split; auto ].
    apply lookup_document_In in Hdoc. destruct Hdoc as [Hin Hid].
    split_cases; try (split; [ lia | left; exact Hsame ]).
    split; [ lia | ]. right. right. eexists.
    split; [ reflexivity | ]. split; [ reflexivity | ]. split; [ lia | ].
    exists document. split; [ exact Hin | exact Hid ].
  - unfold updateField. run_route.
    destruct (lookup_field st id) as [field |] eqn:Hfield; simp_route;
      [ | split; auto ].
    split_cases; try (split; [ lia | left; exact Hsame ]).
    all: split; [ lia | ]; left; eexists; split; [ reflexivity | ].
    all: apply (Hsaved field _ id _ Hfield); reflexivity.
  - unfold deleteField. run_handler.
    split_cases; try (split; [ lia | left; exact Hsame ]).
    split; [ lia | ]. right. left. eexists. reflexivity.
  - unfold setFieldValue. run_route.
    destruct (lookup_field st id) as [field |] eqn:Hfield; simp_route;
      [ | split; auto ].
    split_cases; try (split; [ lia | left; exact Hsame ]).
    split; [ lia | ]. left. eexists. split; [ reflexivity | ].
    apply (Hsaved field _ id _ Hfield); reflexivity.
  - unfold signPdf. run_handler.
    destruct (lookup_document st documentId) as [document |]; cbn;
      [ | split; auto ].
    destruct (Nat.eqb _ 0); cbn; [ split; auto | ].
    destruct (files st (originalFileUrl document)); cbn; [ | split; auto ].
    split_cases; (split; [ lia | left; exact Hsame ]).
Qed.

Lemma NoDup_map_filter {A : Type} (key : A -> nat) (p : A -> bool)
    (l : list A) :
  NoDup (map key l) -> NoDup (map key (filter p l)).
Proof.
  induction l as [| a l IH]; cbn; intros Hnd; [ constructor | ].
  inversion Hnd as [| k ks Hnotin Hrest]; subst.
  destruct (p a); cbn; [ | apply IH; exact Hrest ].
  constructor; [ | apply IH; exact Hrest ].
  intros Hin. apply Hnotin. apply in_map_iff in Hin.
  destruct Hin as (b & Hkey & Hb). apply filter_In in Hb.
  apply in_map_iff. exists b. tauto.
Qed.

Lemma NoDup_map_snoc {A : Type} (key : A -> nat) (l : list A) (a : A)
    (n : nat) :
  NoDup (map key l) -> (forall b, In b l -> key b < n) -> key a = n ->
  NoDup (map key (l ++ [a])).
Proof.
  intros Hnd Hbelow Hkey. induction l as [| b l IH]; cbn.
  - constructor; [ intros [] | constructor ].
  - inversion Hnd as [| k ks Hnotin Hrest]; subst.
    constructor.
    + rewrite map_app, in_app_iff. intros [Hin | [Hin | []]];
        [ contradiction | ].
      specialize (Hbelow b (or_introl eq_refl)). lia.
    + apply IH; [ exact Hrest | ].
      intros c Hc. apply Hbelow. right. exact Hc.
Qed.

Lemma handle_keeps_fields_consistent (req : Request N) (st : State N) :
  chain_invariant st -> fields_consistent st ->
  fields_consistent (fst (handle req st)).
Proof.
  intros Hinv (Hbelow & Hnd & Hdocs).
  assert (Hkept : forall d, In d (documents st) ->
            exists d', In d' (documents (fst (handle req st)))
                       /\ doc_id d' = doc_id d).
  { intros d Hd.
    destruct (handle_keeps_documents req st d Hinv Hd)
      as (d' & Hd' & (Hid & _) & _).
    exists d'. auto. }
  destruct (handle_fields_shape req st) as [Hoid Hshape].
  unfold fields_consistent.
  destruct Hshape as [(h & -> & Hh) | [(p & ->) | (f & -> & Hid & Hlt & Hd)]].
  - split; [ | split ].
    + intros f' Hf'. apply in_map_iff in Hf'. destruct Hf' as (f & <- & Hf).
      destruct (Hh f Hf) as [-> _]. specialize (Hbelow f Hf). lia.
    + rewrite map_map.
      rewrite (map_ext_in _ field_id); [ exact Hnd | ].
      intros f Hf. apply (Hh f Hf).
    + intros f' Hf'. apply in_map_iff in Hf'. destruct Hf' as (f & <- & Hf).
      destruct (Hh f Hf) as (_ & f0 & Hf0 & ->).
      destruct (Hdocs f0 Hf0) as (d & Hd & <-). apply Hkept. exact Hd.
  - split; [ | split ].
    + intros f Hf. apply filter_In in Hf. destruct Hf as [Hf _].
      specialize (Hbelow f Hf). lia.
    + apply NoDup_map_filter. exact Hnd.
    + intros f Hf. apply filter_In in Hf. destruct Hf as [Hf _].
      destruct (Hdocs f Hf) as (d & Hd & <-). apply Hkept. exact Hd.
  - split; [ | split ].
    + intros f' Hf'. apply in_app_or in Hf'.
      destruct Hf' as [Hf' | [<- | []]]; [ | lia ].
      specialize (Hbelow f' Hf'). lia.
    + apply (NoDup_map_snoc _ _ _ (next_oid st)); assumption.
    + intros f' Hf'. apply in_app_or in Hf'.
      destruct Hf' as [Hf' | [<- | []]].
      * destruct (Hdocs f' Hf') as (d & Hd' & <-). apply Hkept. exact Hd'.
      * destruct Hd as (d & Hd' & <-). apply Hkept. exact Hd'.
Qed.

Lemma serve_keeps_fields_consistent (reqs : list (Request N))
    (st : State N) :
  chain_invariant st -> fields_consistent st ->
  fields_consistent (serve st reqs).
Proof.
  revert st. induction reqs as [| req reqs IH]; intros st Hinv Hfc; cbn;
    [ exact Hfc | ].
  apply IH; [ apply handle_keeps_chain; exact Hinv | ].
  apply handle_keeps_fields_consistent; assumption.
Qed.

Lemma find_NoDup {A : Type} (key : A -> nat) (l : list A) (a : A) :
  NoDup (map key l) -> In a l ->
  find (fun b => Nat.eqb (key b) (key a)) l = Some a.
Proof.
  induction l as [| b l IH]; cbn; intros Hnd Hin; [ contradiction | ].
  inversion Hnd as [| k ks Hnotin Hrest]; subst.
  destruct Hin as [-> | Hin].
  - rewrite Nat.eqb_refl. reflexivity.
  - destruct (Nat.eqb_spec (key b) (key a)) as [E |];
      [ | apply IH; assumption ].
    exfalso. apply Hnotin. rewrite E. apply in_map. exact Hin.
Qed.

Lemma lookup_document_stored (st : State N) (d : Document N) :
  chain_invariant st -> In d (documents st) ->
  lookup_document st (doc_id d) = Some d.
Proof.
  intros Hinv Hd. unfold lookup_document.
  destruct (find _ (documents st)) as [d' |] eqn:Hfind.
  - apply find_some in Hfind. destruct Hfind as [Hd' Hid].
    apply Nat.eqb_eq in Hid.
    rewrite (documents_by_id st Hinv d' d Hd' Hd Hid). reflexivity.
  - apply (find_none _ _ Hfind) in Hd. rewrite Nat.eqb_refl in Hd.
    discriminate.
Qed.

(** X30: in every store that the server can reach, identifiers are
    unambiguous and references hold: each stored document and each stored
    field is the one found under its identifier, and the document of each
    stored field is stored. *)
Theorem reachable_store_is_consistent (st : State N) :
  reachable st ->
  (forall d, In d (documents st) -> lookup_document st (doc_id d) = Some d)
  /\ (forall f, In f (fields st) -> lookup_field st (field_id f) = Some f)
  /\ (forall f, In f (fields st) ->
        exists d, lookup_document st (field_documentId f) = Some d).
Proof.
  intros Hreach.
  pose proof (reachable_chain_invariant st Hreach) as Hinv.
  assert (Hfc : fields_consistent st).
  { destruct Hreach as [reqs ->].
    apply serve_keeps_fields_consistent; [ apply chain_invariant_empty | ].
    split; [ intros f [] | ]. split; [ constructor | intros f [] ]. }
  destruct Hfc as (_ & Hnd & Hdocs).
  split; [ | split ].
  - intros d Hd. apply lookup_document_stored; assumption.
  - intros f Hf. apply (find_NoDup field_id); assumption.
  - intros f Hf. destruct (Hdocs f Hf) as (d & Hd & <-).
    exists d. apply lookup_document_stored; assumption.
Qed.

End OverTime.

Lemma originals_are_kept_witness :
  exists d' buffer,
    In d' (documents (serve (platform := Toy.platform) Toy.ready_to_sign
                        [POST_sign_pdf Toy.meta 0%nat]))
    /\ originalHash d'
       = originalHash (hd Toy.blank_document (documents Toy.ready_to_sign))
    /\ files (serve (platform := Toy.platform) Toy.ready_to_sign
                [POST_sign_pdf Toy.meta 0%nat]) (originalFileUrl d')
       = Some buffer
    /\ verifyHash (platform := Toy.platform) buffer (originalHash d') = true.
Proof.
  destruct (originals_are_kept (platform := Toy.platform) Toy.ready_to_sign
              [POST_sign_pdf Toy.meta 0%nat]
              (hd Toy.blank_document (documents Toy.ready_to_sign)))
    as (d' & buffer & Hd' & _ & _ & _ & Hhash & _ & _ & _ & Hfile & Hverify).
  - eexists. reflexivity.
  - left. reflexivity.
  - exists d', buffer. repeat split; assumption.
Defined.

Lemma reachable_store_is_consistent_witness :
  lookup_field Toy.ready_to_sign 1%nat
  = Some (hd Toy.blank_field (fields Toy.ready_to_sign)).
Proof.
  destruct (reachable_store_is_consistent (platform := Toy.platform)
              Toy.ready_to_sign) as (_ & Hfields & _).
  - eexists. reflexivity.
  - apply (Hfields (hd Toy.blank_field (fields Toy.ready_to_sign))).
    left. reflexivity.
Defined.
